(** * Topology normalisation and layout engine: a shallow embedding

    The Python generators of the repository (one per source format) are
    embedded as Rocq functions, one module per source file, and the
    properties of the specification are stated over them.

    Conventions of the embedding.
    - A Python [str] is a [string]; characters are code points below 256.
      On that range Python's [str.isspace] holds for 9..13, 28..32, 133
      and 160, and [\d] of module [re] matches exactly ['0'..'9'].
    - A Python [dict] whose iteration order is observed is an association
      list in insertion order; [d[k] = v] on an existing key keeps the
      position of the key.
    - A raised exception is [None] in an [option] result.
    - Python integers are [Z]. *)

From Stdlib Require Import String Ascii List Bool Arith ZArith Lia.
From Stdlib Require Import Sorting.Sorted Sorting.Permutation.
Import ListNotations.
Local Open Scope string_scope.
Local Open Scope list_scope.

(** ** Python string primitives *)
Module PyStr.

(** [c.isspace()] for a code point below 256. *)
Definition is_space (c : ascii) : bool :=
  let n := nat_of_ascii c in
  (((9 <=? n) && (n <=? 13)) || ((28 <=? n) && (n <=? 32))
   || (n =? 133) || (n =? 160))%nat.

(** [c] is matched by [\d]. *)
Definition is_digit (c : ascii) : bool :=
  let n := nat_of_ascii c in ((48 <=? n) && (n <=? 57))%nat.

(** [c] is matched by [[a-z]]. *)
Definition is_lower (c : ascii) : bool :=
  let n := nat_of_ascii c in ((97 <=? n) && (n <=? 122))%nat.

(** [s.startswith(p)]. *)
Definition startswith (s p : string) : bool := String.prefix p s.

(** [sub in s]. *)
Fixpoint contains (sub s : string) : bool :=
  String.prefix sub s
  || match s with
     | EmptyString => false
     | String _ s' => contains sub s'
     end.

Fixpoint lstrip (s : string) : string :=
  match s with
  | EmptyString => EmptyString
  | String c s' => if is_space c then lstrip s' else s
  end.

Fixpoint rstrip (s : string) : string :=
  match s with
  | EmptyString => EmptyString
  | String c s' =>
      match rstrip s' with
      | EmptyString => if is_space c then EmptyString else String c EmptyString
      | r => String c r
      end
  end.

(** [s.strip()]. *)
Definition strip (s : string) : string := rstrip (lstrip s).

(** [s.split()]: the maximal runs of non-space characters. *)
Fixpoint split_ws (s : string) : list string :=
  match s with
  | EmptyString => []
  | String c s' =>
      if is_space c then split_ws s'
      else match s' with
           | EmptyString => [String c EmptyString]
           | String c' _ =>
               if is_space c' then String c EmptyString :: split_ws s'
               else match split_ws s' with
                    | w :: ws => String c w :: ws
                    | [] => [String c EmptyString]
                    end
           end
  end.

(** [s.split(sep)] for a one-character separator. *)
Fixpoint split_chr (sep : ascii) (s : string) : list string :=
  match s with
  | EmptyString => [EmptyString]
  | String c s' =>
      if Ascii.eqb c sep then EmptyString :: split_chr sep s'
      else match split_chr sep s' with
           | w :: ws => String c w :: ws
           | [] => [String c EmptyString]
           end
  end.

(** [s.split('\n')]. *)
Definition lines (s : string) : list string := split_chr "010"%char s.

(** [parts[-1]] of a list of strings. *)
Definition last_item (parts : list string) : option string :=
  match rev parts with
  | [] => None
  | x :: _ => Some x
  end.

(** Truth value of a value that is [None] or a [str]. *)
Definition truthy (o : option string) : bool :=
  match o with
  | Some s => negb (s =? "")
  | None => false
  end.

(** [x in l] for a list (or set) of strings. *)
Definition mem (x : string) (l : list string) : bool :=
  existsb (String.eqb x) l.

(** [s.add(x)] on a set kept as a duplicate-free list. *)
Definition set_add (x : string) (l : list string) : list string :=
  if mem x l then l else l ++ [x].

(** [sep.join(parts)]. *)
Definition join (sep : string) (parts : list string) : string :=
  String.concat sep parts.

(** [s[:n]]. *)
Definition take (n : nat) (s : string) : string := String.substring 0 n s.

(** [s.split(sep)] for a two-character separator [c1 c2]; matches are
    found left to right and do not overlap. *)
Fixpoint split_str2 (c1 c2 : ascii) (s : string) : list string :=
  match s with
  | EmptyString => [EmptyString]
  | String a s' =>
      let keep :=
        match split_str2 c1 c2 s' with
        | w :: ws => String a w :: ws
        | [] => [String a EmptyString]
        end in
      match s' with
      | String b s'' =>
          if Ascii.eqb a c1 && Ascii.eqb b c2
          then EmptyString :: split_str2 c1 c2 s''
          else keep
      | EmptyString => keep
      end
  end.

(** Stable insertion sort: the list returned by [sorted(l, key=..)] when
    [leb a b] is [key(a) <= key(b)]. *)
Section Sort.
Context {A : Type} (leb : A -> A -> bool).

Fixpoint insert (x : A) (l : list A) : list A :=
  match l with
  | [] => [x]
  | y :: l' => if leb x y then x :: l else y :: insert x l'
  end.

Fixpoint sort (l : list A) : list A :=
  match l with
  | [] => []
  | x :: l' => insert x (sort l')
  end.
End Sort.

(** [sorted(l)] for a list of strings. *)
Definition sorted (l : list string) : list string := sort String.leb l.

(** Removal of repeated neighbours; on a sorted list this leaves one copy
    of each element. *)
Fixpoint uniq (l : list string) : list string :=
  match l with
  | [] => []
  | x :: l' =>
      match l' with
      | y :: _ => if String.eqb x y then uniq l' else x :: uniq l'
      | [] => [x]
      end
  end.

(** [sorted(set(l))]. *)
Definition sorted_set (l : list string) : list string := uniq (sorted l).

(** The longest prefix of [l] whose elements satisfy [p], and the rest. *)
Fixpoint span {A : Type} (p : A -> bool) (l : list A) : list A * list A :=
  match l with
  | [] => ([], [])
  | x :: l' =>
      if p x then let '(a, b) := span p l' in (x :: a, b) else ([], l)
  end.

Definition newline : ascii := "010"%char.
Definition hyphen : ascii := "-"%char.

(** [re.match(r'(.+)-(K)(\d+)$', s)] where [K] is a class of one
    character given by [kind]: the groups [(base, kind letter, digits)].
    [.] does not match a newline, and [$] matches at the end of the
    string or before a newline that ends it. *)
Definition match_suffix (kind : ascii -> bool) (s : string)
    : option (string * ascii * string) :=
  let r := rev (list_ascii_of_string s) in
  let r := match r with
           | c :: r' => if Ascii.eqb c newline then r' else r
           | [] => r
           end in
  let '(ds, rest) := span is_digit r in
  match ds, rest with
  | _ :: _, k :: h :: b =>
      if kind k && Ascii.eqb h hyphen
         && negb (match b with [] => true | _ => false end)
         && forallb (fun c => negb (Ascii.eqb c newline)) b
      then Some (string_of_list_ascii (rev b), k, string_of_list_ascii (rev ds))
      else None
  | _, _ => None
  end.

(** [re.match(r'([a-z]+\d+)-(\d+)', s)]: the two groups and the text
    after the match.  Every repetition is followed by a character outside
    its class, so the greedy match is the only one. *)
Definition match_site (s : string) : option (string * string * string) :=
  let '(ls, r1) := span is_lower (list_ascii_of_string s) in
  let '(d1, r2) := span is_digit r1 in
  match ls, d1, r2 with
  | _ :: _, _ :: _, h :: r3 =>
      if Ascii.eqb h hyphen then
        let '(d2, r4) := span is_digit r3 in
        match d2 with
        | _ :: _ =>
            Some (string_of_list_ascii (ls ++ d1), string_of_list_ascii d2,
                  string_of_list_ascii r4)
        | [] => None
        end
      else None
  | _, _, _ => None
  end.

(** [s.endswith(p)]. *)
Definition endswith (s p : string) : bool :=
  let n := String.length s in
  let m := String.length p in
  (m <=? n)%nat && (String.substring (n - m) m s =? p).

(** [s[:-n]] for a positive [n]. *)
Definition drop_last (n : nat) (s : string) : string :=
  String.substring 0 (String.length s - n) s.

(** [c] is matched by [[a-z0-9-]]. *)
Definition is_name_char (c : ascii) : bool :=
  is_lower c || is_digit c || Ascii.eqb c hyphen.

(** [c] is matched by [[a-z0-9]]. *)
Definition is_alnum (c : ascii) : bool := is_lower c || is_digit c.

(** [l] after its prefix [p], when it starts with [p]. *)
Fixpoint strip_prefix (p l : list ascii) : option (list ascii) :=
  match p, l with
  | [], _ => Some l
  | a :: p', b :: l' => if Ascii.eqb a b then strip_prefix p' l' else None
  | _ :: _, [] => None
  end.

(** The match of [LIT\s+([a-z0-9-]+)] at the head of [l], for a literal
    text [LIT]: group 1.  White space and name characters are disjoint,
    so a repetition that gave back a character could not be followed by
    the next item; the greedy match is the only one. *)
Definition name_after (lit l : list ascii) : option string :=
  match strip_prefix lit l with
  | Some rest =>
      let '(ws, r1) := span is_space rest in
      let '(nm, _) := span is_name_char r1 in
      match ws, nm with
      | _ :: _, _ :: _ => Some (string_of_list_ascii nm)
      | _, _ => None
      end
  | None => None
  end.

(** Group 1 of [re.search(LIT + r'\s+([a-z0-9-]+)', s)] on the
    characters of [s]: the match at the leftmost place that has one. *)
Fixpoint search_name (lit l : list ascii) : option string :=
  match name_after lit l with
  | Some r => Some r
  | None =>
      match l with
      | [] => None
      | _ :: l' => search_name lit l'
      end
  end.

End PyStr.

(** ** Python dictionaries in insertion order *)
Section Dict.
Context {K V : Type} (keq : K -> K -> bool).

(** [d.get(k)]. *)
Fixpoint dget (k : K) (d : list (K * V)) : option V :=
  match d with
  | [] => None
  | (k', v) :: d' => if keq k k' then Some v else dget k d'
  end.

(** [k in d]. *)
Definition dmem (k : K) (d : list (K * V)) : bool :=
  match dget k d with Some _ => true | None => false end.

(** [d[k] = f(d.get(k))]: an existing key keeps its place, a new key
    goes last. *)
Fixpoint dupd (k : K) (f : option V -> V) (d : list (K * V))
    : list (K * V) :=
  match d with
  | [] => [(k, f None)]
  | (k', v) :: d' =>
      if keq k k' then (k', f (Some v)) :: d' else (k', v) :: dupd k f d'
  end.

(** [d[k] = v]. *)
Definition dset (k : K) (v : V) (d : list (K * V)) : list (K * V) :=
  dupd k (fun _ => v) d.
End Dict.

(** [d[k].append(x)] and [d[k].extend(xs)] on a [defaultdict(list)]. *)
Definition dappend {K X : Type} (keq : K -> K -> bool) (k : K) (x : X)
    (d : list (K * list X)) : list (K * list X) :=
  dupd keq k (fun o => match o with Some l => l ++ [x] | None => [x] end) d.

Definition dextend {K X : Type} (keq : K -> K -> bool) (k : K) (xs : list X)
    (d : list (K * list X)) : list (K * list X) :=
  dupd keq k (fun o => match o with Some l => l ++ xs | None => xs end) d.

(** A dictionary with string keys. *)
Definition sdict (V : Type) : Type := list (string * V).

(** [d.get(k, k)] on a dictionary from names to names. *)
Definition resolve (d : sdict string) (k : string) : string :=
  match dget String.eqb k d with Some v => v | None => k end.

(** A connection record [{'source': .., 'target': .., 'type': ..}]. *)
Record conn : Type := mkConn {
  source : string;
  target : string;
  ctype : string
}.

(** ** Connection canonicalisation shared by the generators

    [deduplicate_connections] has the same body in the corp-NAP, DSN and
    UMN-PROD generators; only the dictionary key differs.  [key] builds
    it from the two resolved endpoints and the connection type. *)
Section Dedup.
Context {K : Type} (keq : K -> K -> bool).
Variable key : string -> string -> string -> K.

Fixpoint dedup_loop (device_groups : sdict string)
    (connections : list conn) (unique_connections : list (K * conn))
    : list (K * conn) :=
  match connections with
  | [] => unique_connections
  | c :: cs =>
      let src := resolve device_groups (source c) in
      let tgt := resolve device_groups (target c) in
      if src =? tgt then dedup_loop device_groups cs unique_connections
      else
        let k := key src tgt (ctype c) in
        if dmem keq k unique_connections
        then dedup_loop device_groups cs unique_connections
        else dedup_loop device_groups cs
               (dset keq k (mkConn src tgt (ctype c)) unique_connections)
  end.

(** [list(unique_connections.values())]. *)
Definition dedup (connections : list conn) (device_groups : sdict string)
    : list conn :=
  map snd (dedup_loop device_groups connections []).
End Dedup.

(** [tuple(sorted([a, b]))]. *)
Definition sorted_pair (a b : string) : string * string :=
  match PyStr.sorted [a; b] with
  | [x; y] => (x, y)
  | _ => (a, b)
  end.

Definition pair_eqb (p q : string * string) : bool :=
  (fst p =? fst q) && (snd p =? snd q).

Definition triple_eqb (p q : string * string * string) : bool :=
  pair_eqb (fst p) (fst q) && (snd p =? snd q).

(** [tuple(sorted([src, tgt])) + (conn['type'],)]. *)
Definition key_with_type (src tgt ty : string) : string * string * string :=
  (sorted_pair src tgt, ty).

(** [tuple(sorted([src, tgt]))]. *)
Definition key_without_type (src tgt ty : string) : string * string :=
  sorted_pair src tgt.

(** ** The diagram document

    The children of the [root] element after the two fixed cells [0] and
    [1].  An identifier [str(cell_id)] is kept as the integer [cell_id]
    ([str] is injective on integers and never yields the empty string). *)
Inductive cell : Type :=
| Vertex (id : Z) (value style : string) (x y width height : Z)
| Edge (id : Z) (value : option string) (style : string) (src tgt : Z).

Definition cell_id_of (c : cell) : Z :=
  match c with
  | Vertex id _ _ _ _ _ _ => id
  | Edge id _ _ _ _ => id
  end.

Definition is_vertex (c : cell) : bool :=
  match c with Vertex _ _ _ _ _ _ _ => true | Edge _ _ _ _ _ => false end.

(** The identifiers of the shape elements of a document. *)
Definition shape_ids (doc : list cell) : list Z :=
  map cell_id_of (filter is_vertex doc).

(** The (source, target) references of the connector elements. *)
Fixpoint connector_refs (doc : list cell) : list (Z * Z) :=
  match doc with
  | [] => []
  | Edge _ _ _ s t :: doc' => (s, t) :: connector_refs doc'
  | Vertex _ _ _ _ _ _ _ :: doc' => connector_refs doc'
  end.

(** ** corp_nap_fabric_draw_agent/generate_bjs11_corp_nap.py *)
Module CorpNap.
Import PyStr.

(** First loop of [parse_attr_content]: the [HOSTNAME] lines.
    [line.split()[1]] raises [IndexError] on a line with one token. *)
Fixpoint hostname_loop (ls : list string) (cur : option string)
    (devices : list string) : option (option string * list string) :=
  match ls with
  | [] => Some (cur, devices)
  | l :: ls' =>
      let line := strip l in
      if startswith line "HOSTNAME" then
        match nth_error (split_ws line) 1 with
        | None => None
        | Some d => hostname_loop ls' (Some d) (set_add d devices)
        end
      else hostname_loop ls' cur devices
  end.

(** What one line contributes in the [CUSTOMERLAG] loop. *)
Definition customer_line (l : string) : option string :=
  let line := strip l in
  if startswith line "CUSTOMERLAG" && contains "DESC" line
  then last_item (split_ws line) else None.

(** What one line contributes in the [RINGLAG] loop. *)
Definition ring_line (l : string) : option string :=
  let line := strip l in
  if startswith line "RINGLAG" && contains "DESC" line
  then last_item (split_ws line) else None.

(** [line.startswith(('IBGPNEIGH', 'EBGPNEIGH', 'RRCLIENTNEIGH'))]. *)
Definition denylisted (line : string) : bool :=
  startswith line "IBGPNEIGH" || startswith line "EBGPNEIGH"
  || startswith line "RRCLIENTNEIGH".

(** What one line contributes in the [PEER] loop: the peer device and
    the connection type. *)
Definition peer_line (l : string) : option (string * string) :=
  let line := strip l in
  if contains "PEER" line && negb (denylisted line) then
    let parts := split_ws line in
    if (3 <=? List.length parts)%nat then
      match last_item parts with
      | Some d =>
          Some (d, if contains "FWPEER" line then "nap_firewall"
                   else "nap_inter_region")
      | None => None
      end
    else None
  else None.

(** One of the three connection loops; [pick] is the test of the loop
    body, [current_device] is the value left by the first loop. *)
Fixpoint conn_loop (pick : string -> option (string * string))
    (current_device : option string) (ls : list string)
    (devices : list string) (connections : list conn)
    : list string * list conn :=
  match ls with
  | [] => (devices, connections)
  | l :: ls' =>
      match pick l with
      | Some (d, ty) =>
          let devices' := set_add d devices in
          match current_device with
          | Some cd =>
              if truthy current_device
              then conn_loop pick current_device ls' devices'
                     (connections ++ [mkConn cd d ty])
              else conn_loop pick current_device ls' devices' connections
          | None => conn_loop pick current_device ls' devices' connections
          end
      | None => conn_loop pick current_device ls' devices connections
      end
  end.

Definition with_type (ty : string) (f : string -> option string)
    (l : string) : option (string * string) :=
  match f l with
  | Some d => Some (d, ty)
  | None => None
  end.

(** [parse_attr_content] on the list of lines [content.split('\n')]. *)
Definition parse_lines (ls : list string)
    : option (list string * list conn) :=
  match hostname_loop ls None [] with
  | None => None
  | Some (current_device, devices) =>
      let '(devices, connections) :=
        conn_loop (with_type "customer" customer_line)
          current_device ls devices [] in
      let '(devices, connections) :=
        conn_loop (with_type "ring" ring_line)
          current_device ls devices connections in
      Some (conn_loop peer_line current_device ls devices connections)
  end.

Definition parse_attr_content (content : string)
    : option (list string * list conn) :=
  parse_lines (lines content).

Definition deduplicate_connections (connections : list conn)
    (device_groups : sdict string) : list conn :=
  dedup triple_eqb key_with_type connections device_groups.

(** First loop of [group_devices]. *)
Fixpoint group_loop (devices : list string)
    (device_groups : sdict (list string)) : sdict (list string) :=
  match devices with
  | [] => device_groups
  | device :: ds =>
      if endswith device "-r101" then
        group_loop ds
          (dappend String.eqb (drop_last 5 device) device device_groups)
      else if endswith device "-r102" then
        group_loop ds
          (dappend String.eqb (drop_last 5 device) device device_groups)
      else if endswith device "-r1" then
        group_loop ds
          (dappend String.eqb (drop_last 3 device) device device_groups)
      else if endswith device "-r2" then
        group_loop ds
          (dappend String.eqb (drop_last 3 device) device device_groups)
      else group_loop ds (dset String.eqb device [device] device_groups)
  end.

Fixpoint assign_all (members : list string) (name : string)
    (grouped_devices : sdict string) : sdict string :=
  match members with
  | [] => grouped_devices
  | m :: ms => assign_all ms name (dset String.eqb m name grouped_devices)
  end.

(** Second loop of [group_devices]; [members[0]] raises [IndexError] on
    an empty list. *)
Fixpoint name_loop (groups : sdict (list string))
    (grouped_devices : sdict string) : option (sdict string) :=
  match groups with
  | [] => Some grouped_devices
  | (base, members) :: gs =>
      if (List.length members =? 2)%nat then
        let grouped_name :=
          if existsb (contains "-r101") members
          then (base ++ "-r10[12]")%string
          else (base ++ "-r[12]")%string in
        name_loop gs (assign_all members grouped_name grouped_devices)
      else
        match members with
        | m :: _ => name_loop gs (dset String.eqb m m grouped_devices)
        | [] => None
        end
  end.

Definition group_devices (devices : list string) : option (sdict string) :=
  name_loop (group_loop devices []) [].

Definition get_device_color (device_name : string) : string :=
  if contains "np-cor" device_name then "#FFE6CC"
  else if contains "co-cor" device_name then "#D5E8D4"
  else if contains "co-agg" device_name then "#DAE8FC"
  else if contains "fw" device_name then "#F8CECC"
  else "#E1D5E7".

Definition get_connection_color (conn_type : string) : string :=
  if conn_type =? "customer" then "#0066CC"
  else if conn_type =? "ring" then "#009900"
  else if conn_type =? "nap_inter_region" then "#CC0000"
  else if conn_type =? "nap_firewall" then "#CC0000"
  else "#666666".

(** The loop of [generate_drawio_xml] over [unique_devices]; the state
    is [(device_cells, x_pos, y_pos, cell_id)] and the cells emitted. *)
Fixpoint device_loop (unique_devices : list string)
    (device_cells : sdict Z) (x_pos y_pos cell_id : Z) (out : list cell)
    : sdict Z * Z * list cell :=
  match unique_devices with
  | [] => (device_cells, cell_id, out)
  | device :: ds =>
      let color := get_device_color device in
      let c := Vertex cell_id device
                 ("rounded=1;whiteSpace=wrap;html=1;fillColor=" ++ color
                  ++ ";strokeColor=#000000;")%string
                 x_pos y_pos 160 60 in
      let device_cells' := dset String.eqb device cell_id device_cells in
      let x1 := (x_pos + 200)%Z in
      if (800 <? x1)%Z
      then device_loop ds device_cells' 100 (y_pos + 120) (cell_id + 1)
             (out ++ [c])
      else device_loop ds device_cells' x1 y_pos (cell_id + 1) (out ++ [c])
  end.

(** The loop of [generate_drawio_xml] over [connections]. *)
Fixpoint connection_loop (connections : list conn) (device_cells : sdict Z)
    (cell_id : Z) (out : list cell) : list cell :=
  match connections with
  | [] => out
  | c :: cs =>
      match dget String.eqb (source c) device_cells,
            dget String.eqb (target c) device_cells with
      | Some src_id, Some tgt_id =>
          let color := get_connection_color (ctype c) in
          connection_loop cs device_cells (cell_id + 1)
            (out ++ [Edge cell_id (Some (ctype c))
                       ("endArrow=none;html=1;strokeColor=" ++ color
                        ++ ";strokeWidth=2;")%string
                       src_id tgt_id])
      | _, _ => connection_loop cs device_cells cell_id out
      end
  end.

(** [generate_drawio_xml]; [site] is read for the name of the diagram
    only. *)
Definition generate_drawio_xml (devices : list string)
    (connections : list conn) (site : string) : list cell :=
  let unique_devices := sorted_set devices in
  let '(device_cells, cell_id, out) :=
    device_loop unique_devices [] 100 100 2 [] in
  connection_loop connections device_cells cell_id out.

(** [main] after the call of [parse_attr_content]. *)
Definition main_body (devices : list string) (connections : list conn)
    (site : string) : option (list cell) :=
  match group_devices devices with
  | None => None
  | Some device_groups =>
      let grouped_device_names := sorted_set (map snd device_groups) in
      let unique_connections :=
        deduplicate_connections connections device_groups in
      Some (generate_drawio_xml grouped_device_names unique_connections site)
  end.

End CorpNap.


(** ** dsn_fabric_draw_agent/dsn_fabric_generator.py *)
Module Dsn.
Import PyStr.

Definition construct_urls (site : string) : list string :=
  let region := take 3 site in
  let url (r : string) : string :=
    ("https://code.amazon.com/packages/GenevaBuilderDCNE/blobs/mainline/--/targetspec/dc-corp-"
     ++ region ++ "/" ++ site ++ "-co-agg-r/" ++ site ++ "-co-agg-" ++ r
     ++ "/dsn.attr")%string in
  [url "r3"; url "r1"; url "r2"].

(** The start of [main]: [sys.exit(1)] when [sys.argv] has no site
    argument, else [construct_urls(sys.argv[1])].  Nothing in [main]
    inspects the format of the site. *)
Definition main_urls (argv : list string) : option (list string) :=
  match nth_error argv 1 with
  | Some site => Some (construct_urls site)
  | None => None
  end.

Definition is_r (c : ascii) : bool := Ascii.eqb c "r"%char.

(** A member [(device, num)] of a group; [num] is [None] for a device
    without the [-rN] suffix. *)
Definition member : Type := string * option string.

(** First loop of [group_devices]. *)
Fixpoint group_loop (devices : list string)
    (device_groups : sdict (list member)) : sdict (list member) :=
  match devices with
  | [] => device_groups
  | device :: ds =>
      match match_suffix is_r device with
      | Some (base, _, num) =>
          group_loop ds
            (dappend String.eqb base (device, Some num) device_groups)
      | None =>
          group_loop ds (dset String.eqb device [(device, None)] device_groups)
      end
  end.

(** The keys of [members.sort(key=lambda x: x[1])]; comparing [None]
    with anything raises [TypeError], and a sort of two or more elements
    compares every element. *)
Fixpoint str_keys (members : list member) : option (list (string * string)) :=
  match members with
  | [] => Some []
  | (d, Some n) :: ms =>
      match str_keys ms with
      | Some r => Some ((d, n) :: r)
      | None => None
      end
  | (_, None) :: _ => None
  end.

Definition sort_members (members : list member)
    : option (list (string * string)) :=
  match str_keys members with
  | Some ms => Some (sort (fun a b => String.leb (snd a) (snd b)) ms)
  | None => None
  end.

Fixpoint assign_all (members : list string) (name : string)
    (grouped_devices : sdict string) : sdict string :=
  match members with
  | [] => grouped_devices
  | m :: ms => assign_all ms name (dset String.eqb m name grouped_devices)
  end.

(** Second loop of [group_devices]. *)
Fixpoint name_loop (groups : sdict (list member))
    (grouped_devices : sdict string) : option (sdict string) :=
  match groups with
  | [] => Some grouped_devices
  | (base, members) :: gs =>
      if (1 <? List.length members)%nat then
        match sort_members members with
        | None => None
        | Some sorted_members =>
            let nums := join "" (map snd sorted_members) in
            let grouped_name := (base ++ "-r[" ++ nums ++ "]")%string in
            name_loop gs
              (assign_all (map fst sorted_members) grouped_name grouped_devices)
        end
      else
        match members with
        | (d, _) :: _ => name_loop gs (dset String.eqb d d grouped_devices)
        | [] => None
        end
  end.

Definition group_devices (devices : list string) : option (sdict string) :=
  name_loop (group_loop devices []) [].

Definition deduplicate_connections (connections : list conn)
    (device_groups : sdict string) : list conn :=
  dedup triple_eqb key_with_type connections device_groups.

Definition get_device_color (device_name site : string) : string :=
  if (device_name =? site ++ "-co-agg-r")%string
     || contains (site ++ "-co-agg-r[")%string device_name
  then "#FFE6CC"
  else if contains "co-agg" device_name || contains "co-cor" device_name
  then "#D5E8D4"
  else "#DAE8FC".

Definition get_connection_color (conn_type : string) : string :=
  if conn_type =? "physical" then "#0066CC"
  else if conn_type =? "bgp" then "#009900"
  else if conn_type =? "switch" then "#CC6600"
  else "#666666".

(** The loop over [unique_devices]; the state is
    [(device_cells, x_pos, y_pos, cell_id)] and the cells emitted. *)
Fixpoint device_loop (site : string) (unique_devices : list string)
    (device_cells : sdict Z) (x_pos y_pos cell_id : Z) (out : list cell)
    : sdict Z * Z * list cell :=
  match unique_devices with
  | [] => (device_cells, cell_id, out)
  | device :: ds =>
      let color := get_device_color device site in
      let c := Vertex cell_id device
                 ("rounded=1;whiteSpace=wrap;html=1;fillColor=" ++ color
                  ++ ";strokeColor=#000000;")%string
                 x_pos y_pos 160 60 in
      let device_cells' := dset String.eqb device cell_id device_cells in
      let x1 := (x_pos + 200)%Z in
      if (800 <? x1)%Z
      then device_loop site ds device_cells' 100 (y_pos + 120) (cell_id + 1)
             (out ++ [c])
      else device_loop site ds device_cells' x1 y_pos (cell_id + 1)
             (out ++ [c])
  end.

(** The loop over [connections]. *)
Fixpoint connection_loop (connections : list conn) (device_cells : sdict Z)
    (cell_id : Z) (out : list cell) : list cell :=
  match connections with
  | [] => out
  | c :: cs =>
      match dget String.eqb (source c) device_cells,
            dget String.eqb (target c) device_cells with
      | Some src_id, Some tgt_id =>
          let color := get_connection_color (ctype c) in
          connection_loop cs device_cells (cell_id + 1)
            (out ++ [Edge cell_id (Some (ctype c))
                       ("endArrow=none;html=1;strokeColor=" ++ color
                        ++ ";strokeWidth=2;")%string
                       src_id tgt_id])
      | _, _ => connection_loop cs device_cells cell_id out
      end
  end.

Definition generate_drawio_xml (devices : list string)
    (connections : list conn) (site : string) : list cell :=
  let unique_devices := sorted_set devices in
  let '(device_cells, cell_id, out) :=
    device_loop site unique_devices [] 100 100 2 [] in
  connection_loop connections device_cells cell_id out.

(** What one line contributes in the [PARENT-CHILD-INTF] loop of
    [parse_dsn_content]: the target device. *)
Definition parent_child_line (l : string) : option string :=
  let line := strip l in
  if contains "DSN PARENT-CHILD-INTF" line && contains "<-->" line
  then search_name (list_ascii_of_string "<-->") (list_ascii_of_string line)
  else None.

(** What one line contributes in the [IBGP-NEIGH] loop: the peer. *)
Definition ibgp_line (l : string) : option string :=
  let line := strip l in
  if contains "IBGP-NEIGH" line && contains "IP" line
  then search_name (list_ascii_of_string "IBGP-NEIGH")
         (list_ascii_of_string line)
  else None.

(** What one line contributes in the [SWITCH] loop: the switch. *)
Definition switch_line (l : string) : option string :=
  let line := strip l in
  if contains "DSN NAME" line && contains "SWITCH INTF" line
     && contains "-->" line
  then search_name (list_ascii_of_string "-->") (list_ascii_of_string line)
  else None.

(** One of the three loops of [parse_dsn_content]; [devices] is the set
    kept as a duplicate-free list. *)
Fixpoint conn_loop (pick : string -> option string)
    (ty source_device : string) (ls : list string)
    (devices : list string) (connections : list conn)
    : list string * list conn :=
  match ls with
  | [] => (devices, connections)
  | l :: ls' =>
      match pick l with
      | Some target =>
          conn_loop pick ty source_device ls' (set_add target devices)
            (connections ++ [mkConn source_device target ty])
      | None => conn_loop pick ty source_device ls' devices connections
      end
  end.

(** [parse_dsn_content].  The first component is the set [devices]; the
    order in which [list(devices)] enumerates it is not fixed by Python,
    and the properties below hold for every enumeration. *)
Definition parse_dsn_content (content site : string)
    : list string * list conn :=
  let source_device := (site ++ "-co-agg-r")%string in
  let ls := lines content in
  let '(devices, connections) :=
    conn_loop parent_child_line "physical" source_device ls
      [source_device] [] in
  let '(devices, connections) :=
    conn_loop ibgp_line "bgp" source_device ls devices connections in
  conn_loop switch_line "switch" source_device ls devices connections.

(** [main] after the call of [parse_dsn_content]: grouping,
    canonicalisation and emission; [None] when [group_devices] raises. *)
Definition main_body (devices : list string) (connections : list conn)
    (site : string) : option (list cell) :=
  match group_devices devices with
  | None => None
  | Some device_groups =>
      let grouped_device_names := sorted_set (map snd device_groups) in
      let unique_connections :=
        deduplicate_connections connections device_groups in
      Some (generate_drawio_xml grouped_device_names unique_connections site)
  end.

(** [main] on the arguments and the text read from the standard input:
    the document written, or [None] for [sys.exit(1)] and for an
    exception. *)
Definition main (argv : list string) (stdin : string)
    : option (list cell) :=
  match nth_error argv 1 with
  | None => None
  | Some site =>
      if strip stdin =? "" then None
      else
        let '(devices, connections) := parse_dsn_content stdin site in
        main_body devices connections site
  end.

End Dsn.


(** ** Brick data

    The parsed JSON of a brick file, as far as the generators read it:
    the keys of [DEVICE_DETAILS], and for every device of
    [NODES_AND_INTERFACES] its interfaces with the fields
    [remote_device] and [interface_type] (absent or [null] is [None]). *)
Record iface : Type := mkIface {
  remote_device : option string;
  interface_type : option string
}.

Record brick : Type := mkBrick {
  DEVICE_DETAILS : list string;
  NODES_AND_INTERFACES : list (string * list (string * iface))
}.

(** ** umn_prod_fabric_draw_Agent/umn_prod_topology_generator.py *)
Module UmnProd.
Import PyStr.

(** [site.split('-')[0] + '-' + site.split('-')[1]]; [IndexError] when
    [site] has no hyphen. *)
Definition site_az_of (site : string) : option string :=
  let parts := split_chr hyphen site in
  match nth_error parts 0, nth_error parts 1 with
  | Some a, Some b => Some (a ++ "-" ++ b)%string
  | _, _ => None
  end.

(** The loop over the interfaces of one device. *)
Fixpoint iface_loop (site_az source_device : string)
    (interfaces : list (string * iface))
    (connected_devices : list string) (connections : list conn)
    : list string * list conn :=
  match interfaces with
  | [] => (connected_devices, connections)
  | (_, interface_data) :: rest =>
      match remote_device interface_data with
      | Some target_device =>
          if truthy (Some target_device)
             && (startswith source_device site_az
                 || startswith target_device site_az)
          then iface_loop site_az source_device rest
                 (set_add target_device (set_add source_device connected_devices))
                 (connections ++ [mkConn source_device target_device "physical"])%list
          else iface_loop site_az source_device rest
                 connected_devices connections
      | None => iface_loop site_az source_device rest
                  connected_devices connections
      end
  end.

(** The loop over [nodes_and_interfaces.items()]. *)
Fixpoint node_loop (site_az : string)
    (nodes : list (string * list (string * iface)))
    (connected_devices : list string) (connections : list conn)
    : list string * list conn :=
  match nodes with
  | [] => (connected_devices, connections)
  | (source_device, interfaces) :: rest =>
      let '(cd, cs) :=
        iface_loop site_az source_device interfaces
          connected_devices connections in
      node_loop site_az rest cd cs
  end.


Definition is_rv (c : ascii) : bool :=
  Ascii.eqb c "r"%char || Ascii.eqb c "v"%char.

(** A member [(device, suffix_type, suffix_num)]; the last two are
    [None] for a device without suffix. *)
Definition member : Type := string * option (ascii * string).

(** First loop of [group_devices]. *)
Fixpoint group_loop (devices : list string)
    (device_groups : sdict (list member)) : sdict (list member) :=
  match devices with
  | [] => device_groups
  | device :: ds =>
      match match_suffix is_rv device with
      | Some (base, suffix_type, suffix_num) =>
          group_loop ds
            (dappend String.eqb base (device, Some (suffix_type, suffix_num))
               device_groups)
      | None =>
          group_loop ds (dset String.eqb device [(device, None)] device_groups)
      end
  end.

(** The keys of [members.sort(key=lambda x: (x[1], x[2]))]; a key
    [(None, None)] compared with a key of strings raises [TypeError]. *)
Fixpoint str_keys (members : list member)
    : option (list (string * (ascii * string))) :=
  match members with
  | [] => Some []
  | (d, Some k) :: ms =>
      match str_keys ms with
      | Some r => Some ((d, k) :: r)
      | None => None
      end
  | (_, None) :: _ => None
  end.

(** [(t1, n1) <= (t2, n2)] on tuples of strings, [t1] and [t2] of one
    character. *)
Definition key_leb (a b : ascii * string) : bool :=
  if Ascii.eqb (fst a) (fst b) then String.leb (snd a) (snd b)
  else Ascii.ltb (fst a) (fst b).

Definition sort_members (members : list member)
    : option (list (string * (ascii * string))) :=
  match str_keys members with
  | Some ms => Some (sort (fun a b => key_leb (snd a) (snd b)) ms)
  | None => None
  end.

Definition has_type (t : ascii) (m : string * (ascii * string)) : bool :=
  Ascii.eqb (fst (snd m)) t.

Fixpoint keep_separate (members : list string)
    (grouped_devices : sdict string) : sdict string :=
  match members with
  | [] => grouped_devices
  | m :: ms => keep_separate ms (dset String.eqb m m grouped_devices)
  end.

(** The body of the second loop for a group of two or more members. *)
Definition name_members (base : string)
    (members : list (string * (ascii * string)))
    (grouped_devices : sdict string) : sdict string :=
  let r_devices := filter (has_type "r"%char) members in
  let v_devices := filter (has_type "v"%char) members in
  let gd :=
    match r_devices with
    | [] => grouped_devices
    | [(d, _)] => dset String.eqb d d grouped_devices
    | _ =>
        let nums := join "" (map (fun m => snd (snd m)) r_devices) in
        let grouped_name := (base ++ "-r[" ++ nums ++ "]")%string in
        Dsn.assign_all (map fst r_devices) grouped_name grouped_devices
    end in
  keep_separate (map fst v_devices) gd.

(** Second loop of [group_devices]. *)
Fixpoint name_loop (groups : sdict (list member))
    (grouped_devices : sdict string) : option (sdict string) :=
  match groups with
  | [] => Some grouped_devices
  | (base, members) :: gs =>
      if (1 <? List.length members)%nat then
        match sort_members members with
        | None => None
        | Some sorted_members =>
            name_loop gs (name_members base sorted_members grouped_devices)
        end
      else
        match members with
        | (d, _) :: _ => name_loop gs (dset String.eqb d d grouped_devices)
        | [] => None
        end
  end.

Definition group_devices (devices : list string) : option (sdict string) :=
  name_loop (group_loop devices []) [].

Definition deduplicate_connections (connections : list conn)
    (device_groups : sdict string) : list conn :=
  dedup pair_eqb key_without_type connections device_groups.

(** [get_device_color]; [site.split('-')[1]] raises [IndexError] when
    [site] has no hyphen.  The pattern read on the device name is
    [re.match(r'([a-z]+\d+)-(\d+)-', device_name)]. *)
Definition get_device_color (device_name site : string) : option string :=
  match site_az_of site, nth_error (split_chr hyphen site) 1 with
  | Some site_az, Some site_dc =>
      if startswith device_name (site ++ "-ws-mgmt-cor")%string
      then Some "#FFE6CC"
      else
        let other :=
          if contains "-v1" device_name || contains "-v2" device_name
          then "#D0D0D0" else "#FFFFFF" in
        match match_site device_name with
        | Some (device_az, device_dc, rest) =>
            if startswith rest "-" then
              if (device_az =? site_az) && negb (device_dc =? site_dc)
              then Some "#D5E8D4"
              else if negb (device_az =? site_az) then Some "#DAE8FC"
              else Some other
            else Some other
        | None => Some other
        end
  | _, _ => None
  end.

Definition get_connection_color (conn_type : string) : string := "#000000".

(** The loop of [generate_drawio_xml] over [unique_devices]. *)
Fixpoint device_loop (site : string) (unique_devices : list string)
    (device_cells : sdict Z) (x_pos y_pos cell_id : Z) (out : list cell)
    : option (sdict Z * Z * list cell) :=
  match unique_devices with
  | [] => Some (device_cells, cell_id, out)
  | device :: ds =>
      match get_device_color device site with
      | None => None
      | Some color =>
          let c := Vertex cell_id device
                     ("rounded=1;whiteSpace=wrap;html=1;fillColor=" ++ color
                      ++ ";strokeColor=#000000;")%string
                     x_pos y_pos 200 60 in
          let device_cells' := dset String.eqb device cell_id device_cells in
          let x1 := (x_pos + 250)%Z in
          if (800 <? x1)%Z
          then device_loop site ds device_cells' 100 (y_pos + 120)
                 (cell_id + 1) (out ++ [c])
          else device_loop site ds device_cells' x1 y_pos (cell_id + 1)
                 (out ++ [c])
      end
  end.

(** The loop of [generate_drawio_xml] over [connections]. *)
Fixpoint connection_loop (connections : list conn) (device_cells : sdict Z)
    (cell_id : Z) (out : list cell) : list cell :=
  match connections with
  | [] => out
  | c :: cs =>
      match dget String.eqb (source c) device_cells,
            dget String.eqb (target c) device_cells with
      | Some src_id, Some tgt_id =>
          let color := get_connection_color (ctype c) in
          connection_loop cs device_cells (cell_id + 1)
            (out ++ [Edge cell_id (Some EmptyString)
                       ("endArrow=none;html=1;strokeColor=" ++ color
                        ++ ";strokeWidth=2;")%string
                       src_id tgt_id])
      | _, _ => connection_loop cs device_cells cell_id out
      end
  end.

Definition generate_drawio_xml (devices : list string)
    (connections : list conn) (site : string) : option (list cell) :=
  let unique_devices := sorted_set devices in
  match device_loop site unique_devices [] 100 100 2 [] with
  | Some (device_cells, cell_id, out) =>
      Some (connection_loop connections device_cells cell_id out)
  | None => None
  end.

(** [main] after the call of [parse_brick_content]. *)
Definition main_body (devices : list string) (connections : list conn)
    (site : string) : option (list cell) :=
  match group_devices devices with
  | None => None
  | Some device_groups =>
      let grouped_device_names := sorted_set (map snd device_groups) in
      let unique_connections :=
        deduplicate_connections connections device_groups in
      generate_drawio_xml grouped_device_names unique_connections site
  end.

End UmnProd.

(** ** umn_ec2_fabric_draw_Agent/umn_ec2_topology_generator.py and
    generate_brick_url.py *)
Module UmnEc2.
Import PyStr.

(** The part of [UMNTopologyGenerator.__init__] that reads [site]: the
    pair [(root_az, root_dc)], or [None] for the [ValueError]. *)
Definition init (site : string) : option (string * string) :=
  match match_site site with
  | Some (az, dc, _) => Some (az, dc)
  | None => None
  end.

(** [c.upper()] for a character matched by [[a-z]]. *)
Definition upper_chr (c : ascii) : ascii :=
  if is_lower c then ascii_of_nat (nat_of_ascii c - 32) else c.

Fixpoint upper (s : string) : string :=
  match s with
  | EmptyString => EmptyString
  | String c s' => String (upper_chr c) (upper s')
  end.

(** [construct_brick_url]: [None] for the [ValueError] raised when
    [re.match(r'^([a-z]{3})', site)] fails. *)
Definition construct_brick_url (site fabric : string) : option string :=
  match site with
  | String a (String b (String c _)) =>
      if is_lower a && is_lower b && is_lower c then
        let region_code := String a (String b (String c EmptyString)) in
        let region_upper := upper region_code in
        Some ("https://code.amazon.com/packages/SwitchBuilderBrickDef-EC2-"
              ++ region_upper ++ "/blobs/mainline/--/"
              ++ "configuration/etc/brick/EC2-" ++ region_upper ++ "/"
              ++ region_code ++ "-" ++ fabric ++ ".brick")%string
      else None
  | _ => None
  end.

(** [_extract_az]: group 1 of [re.match(r'([a-z]+\d+)-', device_name)],
    or ['unknown']. *)
Definition _extract_az (device_name : string) : string :=
  let '(ls, r1) := span is_lower (list_ascii_of_string device_name) in
  let '(ds, r2) := span is_digit r1 in
  match ls, ds, r2 with
  | _ :: _, _ :: _, h :: _ =>
      if Ascii.eqb h hyphen then string_of_list_ascii (ls ++ ds)
      else "unknown"
  | _, _, _ => "unknown"
  end.

(** [_extract_dc]: group 1 of [re.match(r'[a-z]+\d+-(\d+)-', device_name)],
    or ['unknown']. *)
Definition _extract_dc (device_name : string) : string :=
  match match_site device_name with
  | Some (_, dc, rest) => if startswith rest "-" then dc else "unknown"
  | None => "unknown"
  end.

(** The match of [-(es-[a-z0-9]+)-] at the head of [l]: group 1. *)
Definition fabric_at (l : list ascii) : option string :=
  match strip_prefix (list_ascii_of_string "-es-") l with
  | Some rest =>
      let '(nm, r) := span is_alnum rest in
      match nm, r with
      | _ :: _, h :: _ =>
          if Ascii.eqb h hyphen
          then Some ("es-" ++ string_of_list_ascii nm)%string
          else None
      | _, _ => None
      end
  | None => None
  end.

(** Group 1 of [re.search(r'-(es-[a-z0-9]+)-', ..)] on the characters
    of a name. *)
Fixpoint search_fabric (l : list ascii) : option string :=
  match fabric_at l with
  | Some f => Some f
  | None =>
      match l with
      | [] => None
      | _ :: l' => search_fabric l'
      end
  end.

Definition _extract_fabric (device_name : string) : string :=
  match search_fabric (list_ascii_of_string device_name) with
  | Some f => f
  | None => "unknown"
  end.

End UmnEc2.

(** ** umn_ec2_fabric_draw_Agent/umn_ec2_topology_generator_complete.py *)
Module UmnEc2Complete.
Import PyStr.

(** [re.match(r'(.+)-([rv]\d+)$', device_name)]: the base and the
    suffix, kind letter and digits together. *)
Definition match_base (device_name : string) : option (string * string) :=
  match match_suffix UmnProd.is_rv device_name with
  | Some (base, k, num) => Some (base, String k num)
  | None => None
  end.

(** First loop of [group_devices] over [self.devices.keys()]. *)
Fixpoint group_loop (devices : list string)
    (device_groups : sdict (list (string * string)))
    : sdict (list (string * string)) :=
  match devices with
  | [] => device_groups
  | device_name :: ds =>
      match match_base device_name with
      | Some (base_name, suffix) =>
          group_loop ds
            (dappend String.eqb base_name (device_name, suffix) device_groups)
      | None =>
          group_loop ds
            (dappend String.eqb device_name (device_name, EmptyString)
               device_groups)
      end
  end.

(** [s[1:]]. *)
Definition tail_str (s : string) : string :=
  match s with
  | EmptyString => EmptyString
  | String _ s' => s'
  end.

Definition grouped_suffix_of (suffixes : list string) : string :=
  if forallb (fun s => startswith s "r") suffixes then
    ("r[" ++ join "" (map tail_str suffixes) ++ "]")%string
  else if forallb (fun s => startswith s "v") suffixes then
    ("v[" ++ join "" (map tail_str suffixes) ++ "]")%string
  else ("[" ++ join "," suffixes ++ "]")%string.

(** Second loop of [group_devices]: [self.grouped_devices] maps the name
    of a display node to its members. *)
Fixpoint name_loop (groups : sdict (list (string * string)))
    (grouped_devices : sdict (list string)) : option (sdict (list string)) :=
  match groups with
  | [] => Some grouped_devices
  | (base_name, devices) :: gs =>
      if (1 <? List.length devices)%nat then
        let devices := sort (fun a b => String.leb (snd a) (snd b)) devices in
        let suffixes := map snd devices in
        let grouped_name :=
          (base_name ++ "-" ++ grouped_suffix_of suffixes)%string in
        name_loop gs
          (dset String.eqb grouped_name (map fst devices) grouped_devices)
      else
        match devices with
        | (d, _) :: _ => name_loop gs (dset String.eqb d [d] grouped_devices)
        | [] => None
        end
  end.

(** [group_devices] on the keys of [self.devices], with
    [self.grouped_devices] empty as [__init__] leaves it. *)
Definition group_devices (devices : list string)
    : option (sdict (list string)) :=
  name_loop (group_loop devices []) [].

(** The fields of an interface of [NODES_AND_INTERFACES] that
    [parse_connections] reads (absent or [null] is [None]). *)
Record iface_data : Type := mkIfaceData {
  if_remote_device : option string;
  if_remote_device_interface : option string;
  if_interface_type : option string;
  if_local_ip : option string
}.

(** A connection record of [parse_connections]. *)
Record connection : Type := mkConnection {
  conn_source : string;
  conn_target : string;
  conn_interface : string;
  conn_remote_interface : option string;
  conn_type : option string;
  conn_ip : option string
}.

(** The loop of [_deduplicate_connections]; [seen] is the set of keys
    and [unique] the list returned. *)
Fixpoint dedup_loop (connections : list connection)
    (seen : list (string * string)) (unique : list connection)
    : list connection :=
  match connections with
  | [] => unique
  | conn :: cs =>
      let key := sorted_pair (conn_source conn) (conn_target conn) in
      if existsb (pair_eqb key) seen then dedup_loop cs seen unique
      else dedup_loop cs (seen ++ [key]) (unique ++ [conn])
  end.

Definition _deduplicate_connections (connections : list connection)
    : list connection :=
  dedup_loop connections [] [].

(** The loops of [parse_connections] that collect [raw_connections]. *)
Fixpoint iface_loop (source_device : string)
    (interfaces : list (string * iface_data)) (raw : list connection)
    : list connection :=
  match interfaces with
  | [] => raw
  | (interface_name, interface_data) :: rest =>
      if truthy (if_remote_device interface_data) then
        match if_remote_device interface_data with
        | Some target_device =>
            iface_loop source_device rest
              (raw ++ [mkConnection source_device target_device
                         interface_name
                         (if_remote_device_interface interface_data)
                         (if_interface_type interface_data)
                         (if_local_ip interface_data)])
        | None => iface_loop source_device rest raw
        end
      else iface_loop source_device rest raw
  end.

Fixpoint node_loop (nodes : list (string * list (string * iface_data)))
    (raw : list connection) : list connection :=
  match nodes with
  | [] => raw
  | (source_device, interfaces) :: rest =>
      node_loop rest (iface_loop source_device interfaces raw)
  end.

(** [parse_connections]: the value assigned to [self.connections]; an
    empty [NODES_AND_INTERFACES] gives the empty list at once. *)
Definition parse_connections
    (nodes_and_interfaces : list (string * list (string * iface_data)))
    : list connection :=
  match nodes_and_interfaces with
  | [] => []
  | _ :: _ => _deduplicate_connections (node_loop nodes_and_interfaces [])
  end.

(** An entry of [self.devices]. *)
Record device_info : Type := mkInfo {
  info_name : string;
  info_type : string;
  info_layer : string;
  info_az : string;
  info_dc : string;
  info_fabric : string
}.

(** The dictionary returned by [identify_connection_types], its keys in
    the order of insertion. *)
Record connection_types : Type := mkTypes {
  inter_az : list connection;
  intra_az : list connection;
  es_c1 : list connection;
  local : list connection;
  other : list connection
}.

Inductive kind : Type := InterAz | IntraAz | EsC1 | Local | Other.

(** The list to which the loop of [identify_connection_types] appends a
    connection. *)
Definition kind_of (devices : sdict device_info) (conn : connection) : kind :=
  let src := conn_source conn in
  let tgt := conn_target conn in
  match dget String.eqb src devices with
  | None => if contains "es-c1" tgt then EsC1 else Other
  | Some src_info =>
      match dget String.eqb tgt devices with
      | None =>
          if contains "es-c1" tgt then EsC1
          else if contains "es-e1" tgt || contains "es-x1" tgt then Local
          else Other
      | Some tgt_info =>
          if negb (info_az src_info =? info_az tgt_info) then InterAz
          else if negb (info_dc src_info =? info_dc tgt_info) then IntraAz
          else Local
      end
  end.

Definition add_to (k : kind) (conn : connection) (t : connection_types)
    : connection_types :=
  match k with
  | InterAz => mkTypes (inter_az t ++ [conn]) (intra_az t) (es_c1 t)
                 (local t) (other t)
  | IntraAz => mkTypes (inter_az t) (intra_az t ++ [conn]) (es_c1 t)
                 (local t) (other t)
  | EsC1 => mkTypes (inter_az t) (intra_az t) (es_c1 t ++ [conn])
              (local t) (other t)
  | Local => mkTypes (inter_az t) (intra_az t) (es_c1 t)
               (local t ++ [conn]) (other t)
  | Other => mkTypes (inter_az t) (intra_az t) (es_c1 t)
               (local t) (other t ++ [conn])
  end.

Fixpoint types_loop (devices : sdict device_info)
    (connections : list connection) (t : connection_types)
    : connection_types :=
  match connections with
  | [] => t
  | conn :: cs => types_loop devices cs (add_to (kind_of devices conn) conn t)
  end.

(** [identify_connection_types], the dictionary returned (the analysis
    file that it also writes is not modelled). *)
Definition identify_connection_types (devices : sdict device_info)
    (connections : list connection) : connection_types :=
  types_loop devices connections (mkTypes [] [] [] [] []).

(** [determine_device_color]; [members[0]] raises [IndexError] on an
    empty list that holds no device of the root site. *)
Definition determine_device_color (devices : sdict device_info)
    (grouped_name : string) (members : list string) : option string :=
  if existsb (contains "bjs11-11") members then Some "#FFE6CC"
  else
    match members with
    | [] => None
    | first_member :: _ =>
        match dget String.eqb first_member devices with
        | None => Some "#FFFFFF"
        | Some device_info =>
            if contains "es-c1" grouped_name then Some "#F8CECC"
            else if contains "es-e1" grouped_name then Some "#E1D5E7"
            else if contains "es-x1" grouped_name then Some "#FFF4E6"
            else if info_type device_info =? "juniper" then Some "#D0D0D0"
            else if (info_az device_info =? "bjs11")
                    && negb (info_dc device_info =? "11")
            then Some "#D5E8D4"
            else if negb (info_az device_info =? "bjs11") then Some "#DAE8FC"
            else Some "#FFFFFF"
        end
    end.

(** The members of a group that are keys of [self.devices], with their
    entries. *)
Definition known (devices : sdict device_info) (members : list string)
    : list device_info :=
  flat_map (fun m => match dget String.eqb m devices with
                     | Some i => [i]
                     | None => []
                     end) members.

Inductive place : Type := Root | InterZone | IntraZone | Elsewhere.

(** The category under which [generate_drawio_xml] files a group. *)
Definition place_of (devices : sdict device_info) (members : list string)
    : place :=
  if existsb (contains "bjs11-11") members then Root
  else if existsb (fun i => negb (info_az i =? "bjs11")) (known devices members)
  then InterZone
  else if existsb (fun i => (info_az i =? "bjs11") && negb (info_dc i =? "11"))
            (known devices members)
  then IntraZone
  else Elsewhere.

Definition place_eqb (p q : place) : bool :=
  match p, q with
  | Root, Root | InterZone, InterZone | IntraZone, IntraZone
  | Elsewhere, Elsewhere => true
  | _, _ => false
  end.

Fixpoint assign_all (members : list string) (cell_id : Z)
    (device_to_cell : sdict Z) : sdict Z :=
  match members with
  | [] => device_to_cell
  | m :: ms => assign_all ms cell_id (dset String.eqb m cell_id device_to_cell)
  end.

(** The inner function [add_device_nodes]; the state is
    [(device_to_cell, cell_id)], the position [(x, y)] and the cells
    emitted. *)
Fixpoint add_device_nodes (devices : sdict device_info)
    (groups : sdict (list string)) (start_y x y : Z)
    (device_to_cell : sdict Z) (cell_id : Z) (out : list cell)
    : option (sdict Z * Z * list cell) :=
  match groups with
  | [] => Some (device_to_cell, cell_id, out)
  | (grouped_name, members) :: rest =>
      match determine_device_color devices grouped_name members, members with
      | Some color, first_member :: _ =>
          let '(fabric_type, device_type) :=
            match dget String.eqb first_member devices with
            | Some i => (info_fabric i, info_type i)
            | None => ("unknown", "unknown")
            end in
          let label :=
            ("<b>" ++ grouped_name ++ "</b><br/><i>" ++ fabric_type ++ " ("
             ++ device_type ++ ")</i>")%string in
          let c := Vertex cell_id label
                     ("rounded=1;whiteSpace=wrap;html=1;fillColor=" ++ color
                      ++ ";strokeColor=#000000;")%string
                     x y 220 70 in
          let device_to_cell' :=
            assign_all members cell_id
              (dset String.eqb grouped_name cell_id device_to_cell) in
          let y1 := (y + 120)%Z in
          if (1800 <? y1)%Z
          then add_device_nodes devices rest start_y (x + 280) start_y
                 device_to_cell' (cell_id + 1) (out ++ [c])
          else add_device_nodes devices rest start_y x y1
                 device_to_cell' (cell_id + 1) (out ++ [c])
      | _, _ => None
      end
  end.

(** The loop over the connections of one category. *)
Fixpoint connections_loop (conns : list connection) (device_to_cell : sdict Z)
    (cell_id : Z) (out : list cell) : Z * list cell :=
  match conns with
  | [] => (cell_id, out)
  | conn :: cs =>
      match dget String.eqb (conn_source conn) device_to_cell,
            dget String.eqb (conn_target conn) device_to_cell with
      | Some src_cell, Some tgt_cell =>
          connections_loop cs device_to_cell (cell_id + 1)
            (out ++ [Edge cell_id (Some EmptyString)
                       "endArrow=none;html=1;strokeColor=#000000;"
                       src_cell tgt_cell])
      | _, _ => connections_loop cs device_to_cell cell_id out
      end
  end.

(** [generate_drawio_xml]: the groups of each category are drawn in
    turn, then the connections of each type. *)
Definition generate_drawio_xml (devices : sdict device_info)
    (grouped_devices : sdict (list string))
    (connection_types : connection_types) : option (list cell) :=
  let of_place p :=
    filter (fun g => place_eqb (place_of devices (snd g)) p)
      grouped_devices in
  match add_device_nodes devices (of_place Root) 100 1400 100 [] 2 [] with
  | None => None
  | Some (d2c, cell_id, out) =>
  match add_device_nodes devices (of_place InterZone) 400 100 400
          d2c cell_id out with
  | None => None
  | Some (d2c, cell_id, out) =>
  match add_device_nodes devices (of_place IntraZone) 600 1200 600
          d2c cell_id out with
  | None => None
  | Some (d2c, cell_id, out) =>
  match add_device_nodes devices (of_place Elsewhere) 400 2400 400
          d2c cell_id out with
  | None => None
  | Some (d2c, cell_id, out) =>
      let '(cell_id, out) :=
        connections_loop (inter_az connection_types) d2c cell_id out in
      let '(cell_id, out) :=
        connections_loop (intra_az connection_types) d2c cell_id out in
      let '(cell_id, out) :=
        connections_loop (es_c1 connection_types) d2c cell_id out in
      let '(cell_id, out) :=
        connections_loop (local connection_types) d2c cell_id out in
      Some (snd (connections_loop (other connection_types) d2c cell_id out))
  end end end end.

(** [_extract_az], [_extract_dc] and [_extract_fabric], as in
    [umn_ec2_topology_generator.py]. *)
Definition _extract_az (device_name : string) : string :=
  let '(ls, r1) := span is_lower (list_ascii_of_string device_name) in
  let '(ds, r2) := span is_digit r1 in
  match ls, ds, r2 with
  | _ :: _, _ :: _, h :: _ =>
      if Ascii.eqb h hyphen then string_of_list_ascii (ls ++ ds)
      else "unknown"
  | _, _, _ => "unknown"
  end.

Definition _extract_dc (device_name : string) : string :=
  match match_site device_name with
  | Some (_, dc, rest) => if startswith rest "-" then dc else "unknown"
  | None => "unknown"
  end.

Definition _extract_fabric (device_name : string) : string :=
  match UmnEc2.search_fabric (list_ascii_of_string device_name) with
  | Some f => f
  | None => "unknown"
  end.

(** The fields of an entry of [DEVICE_DETAILS] that [parse_devices]
    reads; [None] is an absent key. *)
Record details : Type := mkDetails {
  device_type : option string;
  device_layer : option string
}.

Definition or_unknown (o : option string) : string :=
  match o with
  | Some s => s
  | None => "unknown"
  end.

Fixpoint parse_devices_loop (device_details : sdict details)
    (devices : sdict device_info) : sdict device_info :=
  match device_details with
  | [] => devices
  | (device_name, d) :: rest =>
      parse_devices_loop rest
        (dset String.eqb device_name
           (mkInfo device_name (or_unknown (device_type d))
              (or_unknown (device_layer d)) (_extract_az device_name)
              (_extract_dc device_name) (_extract_fabric device_name))
           devices)
  end.

(** [parse_devices]: the dictionary [self.devices]. *)
Definition parse_devices (device_details : sdict details)
    : sdict device_info :=
  parse_devices_loop device_details [].

(** The parsed brick, as far as [run] reads it. *)
Record full_brick : Type := mkFullBrick {
  brick_device_details : sdict details;
  brick_nodes_and_interfaces : list (string * list (string * iface_data))
}.

(** [run] after [json.loads]: the document, or [None] for an
    exception. *)
Definition run (brick_data : full_brick) : option (list cell) :=
  let devices := parse_devices (brick_device_details brick_data) in
  let connections :=
    parse_connections (brick_nodes_and_interfaces brick_data) in
  let connection_types := identify_connection_types devices connections in
  match group_devices (map fst devices) with
  | None => None
  | Some grouped_devices =>
      generate_drawio_xml devices grouped_devices connection_types
  end.

End UmnEc2Complete.

(** ** umn_ec2_fabric_draw_Agent/umn_ec2_topology_generator.py, the
    generator.  Its [parse_devices] and [group_devices] are those of the
    complete generator but for the messages printed, and are taken from
    there; its [parse_connections] returns the empty list and leaves
    [self.connections] empty. *)
Module UmnEc2Simple.
Import PyStr.

(** [determine_device_color]; [self.devices[grouped_devices[0]]] raises
    on an empty group and on a first member that is no key. *)
Definition determine_device_color (root_az root_dc : string)
    (devices : sdict UmnEc2Complete.device_info)
    (device_name : string) (grouped_devices : list string) : option string :=
  let root_pattern := (root_az ++ "-" ++ root_dc)%string in
  if existsb (contains root_pattern) grouped_devices then Some "#FFE6CC"
  else
    match grouped_devices with
    | [] => None
    | first_member :: _ =>
        match dget String.eqb first_member devices with
        | None => None
        | Some device_info =>
            if contains "es-c1" device_name then Some "#F8CECC"
            else if contains "es-e1" device_name then Some "#E1D5E7"
            else if contains "es-x1" device_name then Some "#FFF4E6"
            else if UmnEc2Complete.info_type device_info =? "juniper"
            then Some "#D0D0D0"
            else if (UmnEc2Complete.info_az device_info =? root_az)
                    && negb (UmnEc2Complete.info_dc device_info =? root_dc)
            then Some "#D5E8D4"
            else if negb (UmnEc2Complete.info_az device_info =? root_az)
            then Some "#DAE8FC"
            else Some "#FFFFFF"
        end
    end.

(** The loop of [generate_drawio_xml] over [self.grouped_devices]; the
    dictionary [device_positions] that it fills is read nowhere. *)
Fixpoint device_loop (root_az root_dc : string)
    (devices : sdict UmnEc2Complete.device_info)
    (grouped_devices : sdict (list string)) (x y cell_id : Z)
    (out : list cell) : option (list cell) :=
  match grouped_devices with
  | [] => Some out
  | (grouped_name, members) :: rest =>
      match determine_device_color root_az root_dc devices grouped_name
              members with
      | None => None
      | Some color =>
          match members with
          | [] => None
          | first_member :: _ =>
              match dget String.eqb first_member devices with
              | None => None
              | Some i =>
                  let label :=
                    ("<b>" ++ grouped_name ++ "</b><br/><i>"
                     ++ UmnEc2Complete.info_fabric i ++ " ("
                     ++ UmnEc2Complete.info_type i ++ ")</i>")%string in
                  let c := Vertex cell_id label
                             ("rounded=1;whiteSpace=wrap;html=1;fillColor="
                              ++ color ++ ";strokeColor=#000000;")%string
                             x y 200 60 in
                  let x1 := (x + 250)%Z in
                  if (2500 <? x1)%Z
                  then device_loop root_az root_dc devices rest 100 (y + 150)
                         (cell_id + 1) (out ++ [c])
                  else device_loop root_az root_dc devices rest x1 y
                         (cell_id + 1) (out ++ [c])
              end
          end
      end
  end.

Definition generate_drawio_xml (root_az root_dc : string)
    (devices : sdict UmnEc2Complete.device_info)
    (grouped_devices : sdict (list string)) : option (list cell) :=
  device_loop root_az root_dc devices grouped_devices 100 100 2 [].

(** The constructor followed by [run], after [json.load]: the document,
    or [None] for an exception. *)
Definition run (site : string) (device_details : sdict UmnEc2Complete.details)
    : option (list cell) :=
  match UmnEc2.init site with
  | None => None
  | Some (root_az, root_dc) =>
      let devices := UmnEc2Complete.parse_devices device_details in
      match UmnEc2Complete.group_devices (map fst devices) with
      | None => None
      | Some grouped_devices =>
          generate_drawio_xml root_az root_dc devices grouped_devices
      end
  end.

End UmnEc2Simple.

(** ** console_fabric_draw_Agent/topology_generator_agent.py *)
Module Console.
Import PyStr.

Definition DEVICE_COLORS : sdict string :=
  [("mgmt-cor", "#FFE6CC"); ("mgmt-cor-v", "#FFE6CC"); ("es-cor", "#D5E8D4");
   ("fnc-cor", "#D5E8D4"); ("es-c1", "#DAE8FC"); ("es-mgmt", "#FFF2CC");
   ("es-x1-mgmt", "#F8CECC"); ("tt-acc", "#E6D0DE"); ("cv1-agg", "#D0E0E3");
   ("inter-az", "#E8E8E8")].

(** The result of [categorize_device]. *)
Record category : Type := mkCategory {
  cat_site : string;
  device_type : string;
  role : string;
  color : string;
  is_target_site : bool
}.

(** Group 1 of [re.match(r'^([a-z]+\d+-\d+)', name)], or [""]. *)
Definition site_of (name : string) : string :=
  match match_site name with
  | Some (az, dc, _) => (az ++ "-" ++ dc)%string
  | None => EmptyString
  end.

Definition categorize_device (self_site device_name : string) : category :=
  let site := site_of device_name in
  let '(dtype, role) :=
    if contains "-mgmt-cor-r" device_name then ("mgmt-cor", "Management Core")
    else if contains "-mgmt-cor-v" device_name
    then ("mgmt-cor-v", "Virtual Mgmt Core")
    else if contains "-es-cor-r" device_name
            || contains "-fnc-cor-r" device_name
    then ("es-cor", "Edge Services Core")
    else if contains "-es-c1-b" device_name && contains "-t1-r" device_name
    then ("es-c1", "ES-C1 Compute")
    else if contains "-es-c1-mgmt" device_name then ("es-c1", "ES-C1 Mgmt")
    else if contains "-es-e1-mgmt" device_name then ("es-mgmt", "E1 Edge Mgmt")
    else if contains "-es-e2-mgmt" device_name then ("es-mgmt", "E2 Edge Mgmt")
    else if contains "-es-x1-mgmt" device_name then ("es-x1-mgmt", "X1 Mgmt")
    else if contains "-tt-acc" device_name then ("tt-acc", "Transit Access")
    else if contains "-cv1-agg" device_name then ("cv1-agg", "CV1 Agg")
    else ("unknown", "Unknown") in
  mkCategory site dtype role
    (match dget String.eqb dtype DEVICE_COLORS with
     | Some c => c
     | None => "#FFFFFF"
     end)
    (site =? self_site).

(** The reversed text [-r1] or [-r2] at the head of a reversed name. *)
Definition strip3 (r : list ascii) : option (list ascii) :=
  match r with
  | d :: k :: h :: b =>
      if (Ascii.eqb d "1"%char || Ascii.eqb d "2"%char)
         && Ascii.eqb k "r"%char && Ascii.eqb h hyphen
      then Some b else None
  | _ => None
  end.

(** [re.sub(r'-r[12]$', '', device)]; [$] also matches before a newline
    that ends the string, and that newline stays. *)
Definition strip_r12 (device : string) : string :=
  let r := rev (list_ascii_of_string device) in
  match strip3 r with
  | Some b => string_of_list_ascii (rev b)
  | None =>
      match r with
      | c :: r' =>
          if Ascii.eqb c newline then
            match strip3 r' with
            | Some b => string_of_list_ascii (rev (newline :: b))
            | None => device
            end
          else device
      | [] => device
      end
  end.

(** The loop of [group_devices] over [sorted(devices)]. *)
Fixpoint group_loop (devices : list string) (groups : sdict (list string))
    : sdict (list string) :=
  match devices with
  | [] => groups
  | device :: ds =>
      group_loop ds (dappend String.eqb (strip_r12 device) device groups)
  end.

Definition group_devices (devices : list string) : sdict (list string) :=
  group_loop (sorted devices) [].

(** A connection record of [extract_topology_data]. *)
Record cconn : Type := mkCconn {
  c_source : string;
  destination : string;
  interface : string;
  c_interface_type : string
}.

(** The loops of [extract_topology_data] that collect [all_devices] and
    [connections]. *)
Fixpoint iface_loop (device : string) (interfaces : list (string * iface))
    (all_devices : list string) (connections : list cconn)
    : list string * list cconn :=
  match interfaces with
  | [] => (all_devices, connections)
  | (ifname, details) :: rest =>
      if truthy (remote_device details) then
        match remote_device details with
        | Some remote =>
            iface_loop device rest (set_add remote all_devices)
              (connections
               ++ [mkCconn device remote ifname
                     (match interface_type details with
                      | Some t => t
                      | None => "physical"
                      end)])%list
        | None => iface_loop device rest all_devices connections
        end
      else iface_loop device rest all_devices connections
  end.

Fixpoint node_loop (nodes : list (string * list (string * iface)))
    (all_devices : list string) (connections : list cconn)
    : list string * list cconn :=
  match nodes with
  | [] => (all_devices, connections)
  | (device, interfaces) :: rest =>
      let '(ad, cs) :=
        iface_loop device interfaces (set_add device all_devices)
          connections in
      node_loop rest ad cs
  end.

(** The entries of [topology_data] that [generate_drawio_xml] reads. *)
Record topology_data : Type := mkTopology {
  type_groups : sdict (list string);
  inter_groups : sdict (list string);
  connections : list cconn
}.

(** [devices[0]]. *)
Definition first (devices : list string) : string :=
  match devices with
  | d :: _ => d
  | [] => EmptyString
  end.

(** The loop that builds [type_groups] from [intra_groups]. *)
Fixpoint type_loop (self_site : string) (groups : sdict (list string))
    (type_groups : sdict (list string)) : sdict (list string) :=
  match groups with
  | [] => type_groups
  | (group_name, devices) :: gs =>
      let cat := categorize_device self_site (first devices) in
      if device_type cat =? "es-c1"
      then type_loop self_site gs (dextend String.eqb "es-c1" devices type_groups)
      else if device_type cat =? "es-mgmt"
      then type_loop self_site gs
             (dextend String.eqb "es-mgmt" devices type_groups)
      else type_loop self_site gs (dset String.eqb group_name devices type_groups)
  end.

(** The loop that builds [inter_type_groups] from [inter_groups]. *)
Fixpoint inter_type_loop (self_site : string) (groups : sdict (list string))
    (inter_type_groups : sdict (list string)) : sdict (list string) :=
  match groups with
  | [] => inter_type_groups
  | (group_name, devices) :: gs =>
      let cat := categorize_device self_site (first devices) in
      let site := site_of group_name in
      if device_type cat =? "es-c1"
      then inter_type_loop self_site gs
             (dextend String.eqb (site ++ "-es-c1")%string devices
                inter_type_groups)
      else if device_type cat =? "es-mgmt"
      then inter_type_loop self_site gs
             (dextend String.eqb (site ++ "-es-mgmt")%string devices
                inter_type_groups)
      else inter_type_loop self_site gs
             (dset String.eqb group_name devices inter_type_groups)
  end.

(** [extract_topology_data] once [all_devices] and [connections] are
    collected; [all_devices] is the set in the order in which Python
    happens to iterate it. *)
Definition topology_of (self_site : string) (all_devices : list string)
    (connections : list cconn) : topology_data :=
  let intra_site := filter (fun d => startswith d self_site) all_devices in
  let inter_site :=
    filter (fun d => negb (startswith d self_site)) all_devices in
  let intra_groups := group_devices intra_site in
  let inter_groups := group_devices inter_site in
  mkTopology (type_loop self_site intra_groups [])
    (inter_type_loop self_site inter_groups []) connections.

Definition extract_topology_data (self_site : string) (brick_data : brick)
    : topology_data :=
  let '(all_devices, connections) :=
    node_loop (NODES_AND_INTERFACES brick_data) [] [] in
  topology_of self_site all_devices connections.

(** An entry of [nodes]. *)
Record node : Type := mkNode {
  label : string;
  n_role : string;
  n_color : string;
  n_x : Z;
  n_y : Z;
  devices : list string
}.

(** [sorted(d.items())] for a dictionary with string keys. *)
Definition sorted_items {V : Type} (d : sdict V) : sdict V :=
  sort (fun a b => String.leb (fst a) (fst b)) d.

(** [[d.split('-r')[-1] for d in sorted(devices)]]. *)
Definition nums_of (devices : list string) : list string :=
  map (fun d => match last_item (split_str2 "-"%char "r"%char d) with
                | Some x => x
                | None => d
                end)
      (sorted devices).

(** The label of a node of the target site. *)
Definition intra_label (self_site group_name : string)
    (devices : list string) : string :=
  if (group_name =? "es-c1") || (group_name =? "es-mgmt")
  then (self_site ++ "-" ++ group_name)%string
  else if (1 <? List.length devices)%nat
  then (group_name ++ "-r[" ++ join "," (nums_of devices) ++ "]")%string
  else first devices.

(** The label of a node of another site. *)
Definition inter_label (group_name : string) (devices : list string)
    : string :=
  if (1 <? List.length devices)%nat
  then (group_name ++ "-r[" ++ join "," (nums_of devices) ++ "]")%string
  else first devices.

Definition x_start : Z := 120.
Definition y_start : Z := 100.
Definition x_spacing : Z := 280.
Definition y_spacing : Z := 150.

(** First loop of [generate_drawio_xml], over
    [sorted(topology_data['type_groups'].items())]. *)
Fixpoint intra_loop (self_site : string) (items : sdict (list string))
    (row col : Z) (nodes : sdict node) : Z * sdict node :=
  match items with
  | [] => (row, nodes)
  | (group_name, devices) :: rest =>
      match devices with
      | [] => intra_loop self_site rest row col nodes
      | d0 :: _ =>
          let cat := categorize_device self_site d0 in
          let n := mkNode (intra_label self_site group_name devices)
                     (role cat) (color cat)
                     (x_start + col * x_spacing) (y_start + row * y_spacing)
                     devices in
          let nodes' := dset String.eqb group_name n nodes in
          if (4 <=? col + 1)%Z
          then intra_loop self_site rest (row + 1) 0 nodes'
          else intra_loop self_site rest row (col + 1) nodes'
      end
  end.

(** Second loop of [generate_drawio_xml], over
    [sorted(topology_data['inter_groups'].items())]. *)
Fixpoint inter_loop (items : sdict (list string))
    (row col : Z) (nodes : sdict node) : sdict node :=
  match items with
  | [] => nodes
  | (group_name, devices) :: rest =>
      match devices with
      | [] => inter_loop rest row col nodes
      | _ :: _ =>
          let n := mkNode (inter_label group_name devices)
                     "Inter-AZ" "#E8E8E8"
                     (x_start + col * x_spacing) (y_start + row * y_spacing)
                     devices in
          let nodes' := dset String.eqb group_name n nodes in
          if (5 <=? col + 1)%Z
          then inter_loop rest (row + 1) 0 nodes'
          else inter_loop rest row (col + 1) nodes'
      end
  end.

(** The dictionary [nodes] that [generate_drawio_xml] hands over. *)
Definition layout (self_site : string) (t : topology_data) : sdict node :=
  let '(row, nodes) :=
    intra_loop self_site (sorted_items (type_groups t)) 0 0 [] in
  inter_loop (sorted_items (inter_groups t)) (row + 2) 0 nodes.

Definition node_style (n : node) : string :=
  if n_role n =? "Inter-AZ"
  then ("rounded=1;whiteSpace=wrap;html=1;fillColor=" ++ n_color n
        ++ ";strokeColor=#666666;strokeWidth=2;fontStyle=0;fontSize=11;shadow=1;")%string
  else ("rounded=1;whiteSpace=wrap;html=1;fillColor=" ++ n_color n
        ++ ";strokeColor=#000000;strokeWidth=2;fontStyle=0;fontSize=12;shadow=1;")%string.

(** The loop of [_build_xml] over [nodes.items()]; the state is
    [(node_ids, device_to_node, cell_id)] and the cells emitted. *)
Fixpoint nodes_loop (nodes : sdict node) (node_ids : sdict Z)
    (device_to_node : sdict string) (cell_id : Z) (out : list cell)
    : sdict Z * sdict string * Z * list cell :=
  match nodes with
  | [] => (node_ids, device_to_node, cell_id, out)
  | (node_key, node_data) :: rest =>
      let label_html :=
        ("<b>" ++ label node_data ++ "</b><br/><i>" ++ n_role node_data
         ++ "</i>")%string in
      let c := Vertex cell_id label_html (node_style node_data)
                 (n_x node_data) (n_y node_data) 220 90 in
      nodes_loop rest (dset String.eqb node_key cell_id node_ids)
        (Dsn.assign_all (devices node_data) node_key device_to_node)
        (cell_id + 1) (out ++ [c])%list
  end.

Definition connection_style (self_site src dst : string) : string :=
  let src_cat := categorize_device self_site src in
  let dst_cat := categorize_device self_site dst in
  if contains "es-c1" src || contains "es-c1" dst
  then "edgeStyle=orthogonalEdgeStyle;rounded=1;orthogonalLoop=1;jettySize=auto;html=1;strokeColor=#0066CC;strokeWidth=4;shadow=1;"
  else if negb (cat_site src_cat =? cat_site dst_cat)
  then "edgeStyle=orthogonalEdgeStyle;rounded=1;orthogonalLoop=1;jettySize=auto;html=1;strokeColor=#999999;strokeWidth=2.5;shadow=1;"
  else "edgeStyle=orthogonalEdgeStyle;rounded=1;orthogonalLoop=1;jettySize=auto;html=1;strokeColor=#333333;strokeWidth=2.5;shadow=1;".

(** The loop of [_build_xml] over [connections]; [node_ids[..]] raises
    [KeyError] on a missing key. *)
Fixpoint connections_loop (self_site : string) (conns : list cconn)
    (node_ids : sdict Z) (device_to_node : sdict string)
    (added_connections : list (string * string)) (cell_id : Z)
    (out : list cell) : option (list cell) :=
  match conns with
  | [] => Some out
  | c :: cs =>
      let src := c_source c in
      let dst := destination c in
      let src_node := dget String.eqb src device_to_node in
      let dst_node := dget String.eqb dst device_to_node in
      match src_node, dst_node with
      | Some sn, Some dn =>
          if negb (truthy src_node) || negb (truthy dst_node)
          then connections_loop self_site cs node_ids device_to_node
                 added_connections cell_id out
          else
            let conn_key := sorted_pair sn dn in
            if existsb (pair_eqb conn_key) added_connections
            then connections_loop self_site cs node_ids device_to_node
                   added_connections cell_id out
            else
              match dget String.eqb sn node_ids,
                    dget String.eqb dn node_ids with
              | Some sid, Some did =>
                  connections_loop self_site cs node_ids device_to_node
                    (added_connections ++ [conn_key])%list (cell_id + 1)
                    (out ++ [Edge cell_id None
                               (connection_style self_site src dst)
                               sid did])%list
              | _, _ => None
              end
      | _, _ => connections_loop self_site cs node_ids device_to_node
                  added_connections cell_id out
      end
  end.

Definition _build_xml (self_site : string) (nodes : sdict node)
    (conns : list cconn) : option (list cell) :=
  let '(node_ids, device_to_node, cell_id, out) :=
    nodes_loop nodes [] [] 2 [] in
  connections_loop self_site conns node_ids device_to_node [] cell_id out.

Definition generate_drawio_xml (self_site : string) (t : topology_data)
    : option (list cell) :=
  _build_xml self_site (layout self_site t) (connections t).

(** [c.lower()] for a character of [A-Z]. *)
Definition lower_chr (c : ascii) : ascii :=
  let n := nat_of_ascii c in
  if ((65 <=? n) && (n <=? 90))%nat then ascii_of_nat (n + 32) else c.

Fixpoint lower (s : string) : string :=
  match s with
  | EmptyString => EmptyString
  | String c s' => String (lower_chr c) (lower s')
  end.

(** [construct_brick_url]: [re.match(r'^([a-z]+)', self.site)] is [None]
    for a site that does not begin with a lowercase letter, and
    [.group(1)] then raises [AttributeError]. *)
Definition construct_brick_url (self_site self_fabric : string)
    : option string :=
  let '(ls, _) := span is_lower (list_ascii_of_string self_site) in
  match ls with
  | [] => None
  | _ :: _ =>
      let region := UmnEc2.upper (string_of_list_ascii ls) in
      let location := lower region in
      let package := ("SwitchBuilderBrickDef-EC2-" ++ region)%string in
      let brick_file := (location ++ "-" ++ self_fabric ++ ".brick")%string in
      Some ("https://code.amazon.com/packages/" ++ package
            ++ "/blobs/mainline/--/configuration/etc/brick/EC2-" ++ region
            ++ "/" ++ brick_file)%string
  end.

End Console.

(** ** Notions used to state the properties *)
Import PyStr.

Definition nl : string := String newline EmptyString.

(** The lines that the extractor keeps once the denylisted
    neighbour-advertisement lines are deleted. *)
Definition not_denylisted (l : string) : bool :=
  negb (CorpNap.denylisted (strip l)).

(** A line is a hostname declaration. *)
Definition is_hostname_line (l : string) : bool :=
  startswith (strip l) "HOSTNAME".

(** The device named by a hostname declaration. *)
Definition hostname_of (l : string) : option string :=
  nth_error (split_ws (strip l)) 1.

(** The device named by the last hostname declaration of the input. *)
Definition last_hostname (ls : list string) : option string :=
  match rev (filter is_hostname_line ls) with
  | l :: _ => hostname_of l
  | [] => None
  end.

(** The edges that one line declares, with [cd] as their source. *)
Definition edges_of_line (cd l : string) : list conn :=
  (match CorpNap.customer_line l with
   | Some d => [mkConn cd d "customer"]
   | None => []
   end)
  ++ (match CorpNap.ring_line l with
      | Some d => [mkConn cd d "ring"]
      | None => []
      end)
  ++ (match CorpNap.peer_line l with
      | Some (d, ty) => [mkConn cd d ty]
      | None => []
      end).

(** The reading of the specification, written from its words and not
    from the code: the current device is set by a hostname line and
    holds for the lines after it until the next hostname line; a line
    seen without a current device gives no edge. *)
Fixpoint nearest_hostname_edges (cur : option string) (ls : list string)
    : list conn :=
  match ls with
  | [] => []
  | l :: ls' =>
      if is_hostname_line l
      then nearest_hostname_edges (hostname_of l) ls'
      else (match cur with
            | Some cd => edges_of_line cd l
            | None => []
            end) ++ nearest_hostname_edges cur ls'
  end.

(** The current device after the lines [ls], starting from [cur]. *)
Fixpoint hostname_after (cur : option string) (ls : list string)
    : option string :=
  match ls with
  | [] => cur
  | l :: ls' =>
      if is_hostname_line l then hostname_after (hostname_of l) ls'
      else hostname_after cur ls'
  end.

(** The naming pattern of a target site, as the specification words it:
    leading lowercase letters, digits, a hyphen, digits (and then any
    text). *)
Definition site_pattern (site : string) : Prop :=
  exists letters d1 d2 rest,
    list_ascii_of_string site = (letters ++ d1 ++ hyphen :: d2 ++ rest)%list
    /\ letters <> [] /\ Forall (fun c => is_lower c = true) letters
    /\ d1 <> [] /\ Forall (fun c => is_digit c = true) d1
    /\ d2 <> [] /\ Forall (fun c => is_digit c = true) d2.

(** The edges that a brick declares: one pair (device, remote device)
    for every interface that carries a remote device. *)
Definition raw_edges_of (interfaces : list (string * iface)) (src : string)
    : list (string * string) :=
  flat_map (fun i => match remote_device (snd i) with
                     | Some t => if truthy (Some t) then [(src, t)] else []
                     | None => []
                     end) interfaces.

Definition raw_edges (nodes : list (string * list (string * iface)))
    : list (string * string) :=
  flat_map (fun n => raw_edges_of (snd n) (fst n)) nodes.


(** A raw edge with both ends resolved through the groups. *)
Definition resolved (device_groups : sdict string) (c : conn) : conn :=
  mkConn (resolve device_groups (source c)) (resolve device_groups (target c))
    (ctype c).

(** Both ends of a raw edge resolve to the same group. *)
Definition is_loop (device_groups : sdict string) (c : conn) : bool :=
  resolve device_groups (source c) =? resolve device_groups (target c).

(** The number of elements of [l] that satisfy [p]. *)
Definition count {A : Type} (p : A -> bool) (l : list A) : nat :=
  List.length (filter p l).

(** The invariant of the dictionary [unique_connections]: every entry
    is stored under the key of its own ends and type, no entry joins a
    group to itself, and no key occurs twice. *)
Definition dedup_inv {K : Type} (key : string -> string -> string -> K)
    (acc : list (K * conn)) : Prop :=
  (forall k e, In (k, e) acc ->
     k = key (source e) (target e) (ctype e) /\ source e <> target e)
  /\ NoDup (map fst acc).

(** Two edges join the same unordered pair of ends. *)
Definition same_pair (e1 e2 : conn) : bool :=
  pair_eqb (sorted_pair (source e1) (target e1))
    (sorted_pair (source e2) (target e2)).

(** Two edges join the same unordered pair of ends and have the same
    category. *)
Definition same_pair_and_type (e1 e2 : conn) : bool :=
  triple_eqb (key_with_type (source e1) (target e1) (ctype e1))
    (key_with_type (source e2) (target e2) (ctype e2)).

(** Scenario A as a brick: the device [x-r1] with one interface to
    [x-r2]. *)
Definition scenario_A_brick : brick :=
  mkBrick [] [("x-r1", [("e0", mkIface (Some "x-r2") None)])].

(** Grouping by a key, as the first loop of every [group_devices] does
    when no entry is overwritten: each device is appended to the list
    of its key. *)
Fixpoint append_loop {M : Type} (key : string -> string) (mk : string -> M)
    (devices : list string) (acc : sdict (list M)) : sdict (list M) :=
  match devices with
  | [] => acc
  | d :: ds => append_loop key mk ds (dappend String.eqb (key d) (mk d) acc)
  end.

(** The members of the group of key [b]. *)
Definition bucket {M : Type} (key : string -> string) (mk : string -> M)
    (devices : list string) (b : string) : list M :=
  map mk (filter (fun d => key d =? b) devices).

(** A loop over the groups whose body [step] may fail. *)
Fixpoint run_groups {G V : Type}
    (step : G -> sdict V -> option (sdict V))
    (groups : list G) (acc : sdict V) : option (sdict V) :=
  match groups with
  | [] => Some acc
  | g :: gs =>
      match step g acc with
      | Some acc' => run_groups step gs acc'
      | None => None
      end
  end.

(** The entry of the key [d] after the groups [groups] have been named,
    when [assigned g d] is what the group [g] writes for [d]. *)
Definition written {G V : Type} (assigned : G -> string -> option V)
    (d : string) (groups : list G) (init : option V) : option V :=
  fold_left (fun cur g => match assigned g d with
                          | Some v => Some v
                          | None => cur
                          end) groups init.




















(** The name ends with a closing bracket. *)
Definition ends_with_bracket (d : string) : bool :=
  match rev (list_ascii_of_string d) with
  | c :: _ => Ascii.eqb c "]"%char
  | [] => false
  end.

(** The key under which the complete UMN-EC2 grouper files a device. *)
Definition complete_key (d : string) : string :=
  match UmnEc2Complete.match_base d with
  | Some (b, _) => b
  | None => d
  end.

Definition complete_member (d : string) : string * string :=
  match UmnEc2Complete.match_base d with
  | Some (_, suffix) => (d, suffix)
  | None => (d, EmptyString)
  end.

(** The name that the complete UMN-EC2 grouper gives to a group. *)
Definition complete_name (g : string * list (string * string))
    : option string :=
  let '(base_name, devices) := g in
  if (1 <? List.length devices)%nat then
    Some (base_name ++ "-"
          ++ UmnEc2Complete.grouped_suffix_of
               (map snd (sort (fun a b => String.leb (snd a) (snd b)) devices)))%string
  else
    match devices with
    | (d, _) :: _ => Some d
    | [] => None
    end.

(** The members that it records for a group. *)
Definition complete_members (g : string * list (string * string))
    : list string :=
  let '(base_name, devices) := g in
  if (1 <? List.length devices)%nat then
    map fst (sort (fun a b => String.leb (snd a) (snd b)) devices)
  else
    match devices with
    | (d, _) :: _ => [d]
    | [] => []
    end.

(** The body of the second loop of the complete UMN-EC2 grouper. *)
Definition complete_step (g : string * list (string * string))
    (grouped_devices : sdict (list string)) : option (sdict (list string)) :=
  match complete_name g with
  | Some name => Some (dset String.eqb name (complete_members g) grouped_devices)
  | None => None
  end.



Definition c5_content : string :=
  "HOSTNAME a" ++ nl ++ "RINGLAG ae1 DESC x" ++ nl ++ "HOSTNAME b".



(** What one connection gives in the connection loop of the DSN
    emitter: a connector between the cells of its ends when both ends
    have a cell, and nothing otherwise. *)
Definition connector_of (device_cells : sdict Z) (c : conn)
    : list (Z * Z) :=
  match dget String.eqb (source c) device_cells,
        dget String.eqb (target c) device_cells with
  | Some s, Some t => [(s, t)]
  | _, _ => []
  end.


(** ** Notions used to state the further properties *)

(** A text is a name: one character or more, each matched by
    [[a-z0-9-]]. *)
Definition is_name (s : string) : Prop :=
  s <> EmptyString
  /\ Forall (fun c => is_name_char c = true) (list_ascii_of_string s).

(** The state of the loops of [parse_dsn_content] is consistent: the
    set of devices has no duplicate and holds the source device, every
    edge goes from the source device to a device of the set, is of one
    of the three types and has a name as target, and every other device
    of the set is the target of an edge. *)
Definition dsn_parse_inv (source_device : string) (devices : list string)
    (connections : list conn) : Prop :=
  NoDup devices
  /\ In source_device devices
  /\ (forall e, In e connections ->
        source e = source_device /\ In (target e) devices
        /\ (ctype e = "physical" \/ ctype e = "bgp" \/ ctype e = "switch")
        /\ is_name (target e))
  /\ (forall d, In d devices ->
        d = source_device \/ exists e, In e connections /\ target e = d).

(** The emitters of the DSN, corp-NAP and UMN-PROD generators run the
    same two loops; they differ in the colour of a device (which the
    UMN-PROD generator may fail to compute), the horizontal step, the
    width of a shape, and the label and colour of a connector.
    [grid_document] is the program they share, with these as
    parameters. *)
Section Grid.
Variable color : string -> option string.
Variables dx width : Z.
Variable edge_value : conn -> option string.
Variable edge_color : string -> string.

Definition grid_style (colour : string) : string :=
  ("rounded=1;whiteSpace=wrap;html=1;fillColor=" ++ colour
   ++ ";strokeColor=#000000;")%string.

Fixpoint grid_devices (unique_devices : list string)
    (device_cells : sdict Z) (x_pos y_pos cell_id : Z) (out : list cell)
    : option (sdict Z * Z * list cell) :=
  match unique_devices with
  | [] => Some (device_cells, cell_id, out)
  | device :: ds =>
      match color device with
      | None => None
      | Some colour =>
          let c := Vertex cell_id device (grid_style colour)
                     x_pos y_pos width 60 in
          let device_cells' := dset String.eqb device cell_id device_cells in
          let x1 := (x_pos + dx)%Z in
          if (800 <? x1)%Z
          then grid_devices ds device_cells' 100 (y_pos + 120) (cell_id + 1)
                 (out ++ [c])
          else grid_devices ds device_cells' x1 y_pos (cell_id + 1)
                 (out ++ [c])
      end
  end.

Fixpoint grid_connections (connections : list conn) (device_cells : sdict Z)
    (cell_id : Z) (out : list cell) : list cell :=
  match connections with
  | [] => out
  | c :: cs =>
      match dget String.eqb (source c) device_cells,
            dget String.eqb (target c) device_cells with
      | Some src_id, Some tgt_id =>
          grid_connections cs device_cells (cell_id + 1)
            (out ++ [Edge cell_id (edge_value c)
                       ("endArrow=none;html=1;strokeColor="
                        ++ edge_color (ctype c) ++ ";strokeWidth=2;")%string
                       src_id tgt_id])
      | _, _ => grid_connections cs device_cells cell_id out
      end
  end.

Definition grid_document (devices : list string) (connections : list conn)
    : option (list cell) :=
  match grid_devices (sorted_set devices) [] 100 100 2 [] with
  | Some (device_cells, cell_id, out) =>
      Some (grid_connections connections device_cells cell_id out)
  | None => None
  end.

(** The shape of the device of rank [n] (from 0) in a grid of [k]
    columns: the identifiers start at 2, the columns are [dx] apart
    from 100 on, the rows 120 apart from 100 on. *)
Definition grid_cell (k n : Z) (device colour : string) : cell :=
  Vertex (2 + n) device (grid_style colour)
    (100 + dx * (n mod k)) (100 + 120 * (n / k)) width 60.

End Grid.

(** The three emitters as instances of the shared program. *)
Definition dsn_color (site device : string) : option string :=
  Some (Dsn.get_device_color device site).

Definition corp_color (device : string) : option string :=
  Some (CorpNap.get_device_color device).

Definition typed_edge (c : conn) : option string := Some (ctype c).

Definition blank_edge (c : conn) : option string := Some EmptyString.

(** The device carries one of the four suffixes of the corp-NAP
    grouper. *)
Definition corp_suffixed (d : string) : bool :=
  endswith d "-r101" || endswith d "-r102" || endswith d "-r1"
  || endswith d "-r2".

(** The key under which the corp-NAP grouper files a device: the name
    without its suffix, the name itself when it has none. *)
Definition corp_key (d : string) : string :=
  if endswith d "-r101" then drop_last 5 d
  else if endswith d "-r102" then drop_last 5 d
  else if endswith d "-r1" then drop_last 3 d
  else if endswith d "-r2" then drop_last 3 d
  else d.

(** The devices filed under the same key as [d], in the order of the
    input. *)
Definition corp_group (devices : list string) (d : string) : list string :=
  filter (fun d' => corp_key d' =? corp_key d) devices.

(** No device without suffix is the key of a device with a suffix. *)
Definition corp_separated (devices : list string) : Prop :=
  forall d d', In d devices -> In d' devices ->
    corp_suffixed d = false -> corp_suffixed d' = true -> corp_key d' <> d.

(** The name of a group of two. *)
Definition corp_pair_name (base : string) (members : list string) : string :=
  if existsb (contains "-r101") members then (base ++ "-r10[12]")%string
  else (base ++ "-r[12]")%string.

(** The entry of the device [d] in the mapping of the corp-NAP grouper:
    the name of the pair when the group of [d] has exactly two devices;
    otherwise [d] itself when [d] is the first device of its group, and
    no entry when it is a later one. *)
Definition corp_entry (devices : list string) (d : string) : option string :=
  let g := corp_group devices d in
  if (List.length g =? 2)%nat then Some (corp_pair_name (corp_key d) g)
  else match g with
       | d0 :: _ => if d =? d0 then Some d else None
       | [] => None
       end.

(** The body of the second loop of the corp-NAP grouper. *)
Definition corp_step (g : string * list string) (grouped_devices : sdict string)
    : option (sdict string) :=
  let '(base, members) := g in
  if (List.length members =? 2)%nat
  then Some (CorpNap.assign_all members (corp_pair_name base members)
               grouped_devices)
  else match members with
       | m :: _ => Some (dset String.eqb m m grouped_devices)
       | [] => None
       end.

(** What a group of the corp-NAP grouper writes for the device [d]. *)
Definition corp_assigned (g : string * list string) (d : string)
    : option string :=
  let '(base, members) := g in
  if (List.length members =? 2)%nat
  then if mem d members then Some (corp_pair_name base members) else None
  else match members with
       | m :: _ => if d =? m then Some m else None
       | [] => None
       end.

(** The connection types of the corp-NAP extractor. *)
Definition corp_type (ty : string) : Prop :=
  ty = "customer" \/ ty = "ring" \/ ty = "nap_firewall"
  \/ ty = "nap_inter_region".

(** The state of the connection loops of [parse_attr_content] is
    consistent: the device set has no duplicate, and every edge has both
    ends in it and one of the four types. *)
Definition corp_parse_inv (devices : list string) (connections : list conn)
    : Prop :=
  NoDup devices
  /\ forall e, In e connections ->
       In (source e) devices /\ In (target e) devices /\ corp_type (ctype e).

(** A zone name: lowercase letters followed by digits. *)
Definition is_zone (az : string) : Prop :=
  exists letters digits,
    list_ascii_of_string az = (letters ++ digits)%list
    /\ letters <> [] /\ Forall (fun c => is_lower c = true) letters
    /\ digits <> [] /\ Forall (fun c => is_digit c = true) digits.

(** A number: one digit or more. *)
Definition is_number (dc : string) : Prop :=
  dc <> EmptyString
  /\ Forall (fun c => is_digit c = true) (list_ascii_of_string dc).

(** A fabric word: one character or more, each matched by [[a-z0-9]]. *)
Definition is_word (x : string) : Prop :=
  x <> EmptyString
  /\ Forall (fun c => is_alnum c = true) (list_ascii_of_string x).

(** The unordered pair of the ends of a connection of the complete
    UMN-EC2 generator. *)
Definition ends_of (c : UmnEc2Complete.connection) : string * string :=
  sorted_pair (UmnEc2Complete.conn_source c) (UmnEc2Complete.conn_target c).

(** Two connections join the same unordered pair of devices. *)
Definition same_ends (c1 c2 : UmnEc2Complete.connection) : bool :=
  pair_eqb (ends_of c1) (ends_of c2).

(** The connections of all types, in the order in which
    [generate_drawio_xml] draws them. *)
Definition all_types (t : UmnEc2Complete.connection_types)
    : list UmnEc2Complete.connection :=
  (UmnEc2Complete.inter_az t ++ UmnEc2Complete.intra_az t
   ++ UmnEc2Complete.es_c1 t ++ UmnEc2Complete.local t
   ++ UmnEc2Complete.other t)%list.

(** What one connection gives in the connection loops of the complete
    UMN-EC2 emitter. *)
Definition complete_connector (device_to_cell : sdict Z)
    (c : UmnEc2Complete.connection) : list (Z * Z) :=
  match dget String.eqb (UmnEc2Complete.conn_source c) device_to_cell,
        dget String.eqb (UmnEc2Complete.conn_target c) device_to_cell with
  | Some s, Some t => [(s, t)]
  | _, _ => []
  end.

(** Both ends of a connection are displayed. *)
Definition both_displayed (device_to_cell : sdict Z)
    (c : UmnEc2Complete.connection) : bool :=
  dmem String.eqb (UmnEc2Complete.conn_source c) device_to_cell
  && dmem String.eqb (UmnEc2Complete.conn_target c) device_to_cell.

(** The state of the node loops of the complete UMN-EC2 emitter: the
    names that have a cell are the names and the members of the groups
    placed, every cell recorded is a shape of the document, the document
    has one shape per group placed and no connector yet. *)
Definition nodes_ok (placed : sdict (list string)) (device_to_cell : sdict Z)
    (out : list cell) : Prop :=
  (forall d, dget String.eqb d device_to_cell <> None
             <-> exists nm ms, In (nm, ms) placed /\ (d = nm \/ In d ms))
  /\ (forall d i, dget String.eqb d device_to_cell = Some i ->
        In i (shape_ids out))
  /\ connector_refs out = []
  /\ List.length (shape_ids out) = List.length placed.

(** The groups that [generate_drawio_xml] files under a category. *)
Definition of_place (devices : sdict UmnEc2Complete.device_info)
    (grouped : sdict (list string)) (p : UmnEc2Complete.place)
    : sdict (list string) :=
  filter (fun g => UmnEc2Complete.place_eqb
                     (UmnEc2Complete.place_of devices (snd g)) p) grouped.

(** Equality of connection types. *)
Definition kind_eqb (k1 k2 : UmnEc2Complete.kind) : bool :=
  match k1, k2 with
  | UmnEc2Complete.InterAz, UmnEc2Complete.InterAz
  | UmnEc2Complete.IntraAz, UmnEc2Complete.IntraAz
  | UmnEc2Complete.EsC1, UmnEc2Complete.EsC1
  | UmnEc2Complete.Local, UmnEc2Complete.Local
  | UmnEc2Complete.Other, UmnEc2Complete.Other => true
  | _, _ => false
  end.

(** The connections of one type, in the order of the input. *)
Definition of_kind (devices : sdict UmnEc2Complete.device_info)
    (conns : list UmnEc2Complete.connection) (k : UmnEc2Complete.kind)
    : list UmnEc2Complete.connection :=
  filter (fun c => kind_eqb (UmnEc2Complete.kind_of devices c) k) conns.







(** A device is named by a brick: it is a key of
    [NODES_AND_INTERFACES] or the remote device of an interface. *)
Definition named (nodes : list (string * list (string * iface)))
    (d : string) : Prop :=
  In d (map fst nodes) \/ exists s, In (s, d) (raw_edges nodes).

(** The two ends of a connection record of the console generator. *)
Definition cconn_ends (c : Console.cconn) : string * string :=
  (Console.c_source c, Console.destination c).

(** Every entry of a dictionary of groups has a member, and all its
    members satisfy [P]. *)
Definition groups_of (P : string -> Prop) (groups : sdict (list string))
    : Prop :=
  forall k ms, In (k, ms) groups -> ms <> [] /\ forall d, In d ms -> P d.




(** * Properties *)

(** ** Line-oriented extraction *)

Lemma prefix_nil (s : string) : String.prefix EmptyString s = true.
Proof. destruct s; reflexivity. Qed.

Lemma prefix_cons (a b : ascii) (s1 s2 : string) :
  String.prefix (String a s1) (String b s2)
  = Ascii.eqb a b && String.prefix s1 s2.
Proof.
  simpl. destruct (ascii_dec a b) as [->|N].
  - now rewrite Ascii.eqb_refl.
  - apply Ascii.eqb_neq in N. now rewrite N.
Qed.

(** A line that starts with one word does not start with another word
    whose first character differs. *)
Ltac other_first_char :=
  let c := fresh "c" in
  let line := fresh "line" in
  intros line; unfold CorpNap.denylisted, startswith;
  destruct line as [|c line]; [discriminate|];
  rewrite !prefix_cons;
  match goal with
  | |- _ -> Ascii.eqb ?h c && _ = false =>
      destruct (Ascii.eqb_spec h c) as [<-|]; [simpl; discriminate|reflexivity]
  end.

Lemma denylisted_not_hostname :
  forall line, CorpNap.denylisted line = true ->
               startswith line "HOSTNAME" = false.
Proof. other_first_char. Qed.

Lemma denylisted_not_customer :
  forall line, CorpNap.denylisted line = true ->
               startswith line "CUSTOMERLAG" = false.
Proof. other_first_char. Qed.

Lemma denylisted_not_ring :
  forall line, CorpNap.denylisted line = true ->
               startswith line "RINGLAG" = false.
Proof.
  intros line. unfold CorpNap.denylisted, startswith.
  destruct line as [|c [|c' line]]; try discriminate.
  - rewrite !prefix_cons. destruct (Ascii.eqb_spec "R" c) as [<-|];
      [simpl; discriminate|reflexivity].
  - rewrite !prefix_cons.
    destruct (Ascii.eqb_spec "R" c) as [<-|]; [|reflexivity].
    destruct (Ascii.eqb_spec "I" c') as [<-|]; [simpl; discriminate|].
    reflexivity.
Qed.

(** A denylisted line gives nothing in any of the three loops. *)
Lemma denylisted_no_pick (l : string) :
  CorpNap.denylisted (strip l) = true ->
  CorpNap.customer_line l = None /\ CorpNap.ring_line l = None
  /\ CorpNap.peer_line l = None.
Proof.
  intros H. unfold CorpNap.customer_line, CorpNap.ring_line, CorpNap.peer_line.
  rewrite (denylisted_not_customer _ H), (denylisted_not_ring _ H), H.
  simpl. rewrite andb_false_r. auto.
Qed.

Lemma hostname_loop_filter (ls : list string) :
  forall cur devices,
    CorpNap.hostname_loop (filter not_denylisted ls) cur devices
    = CorpNap.hostname_loop ls cur devices.
Proof.
  induction ls as [|l ls IH]; intros cur devices; [reflexivity|].
  cbn [filter CorpNap.hostname_loop]. unfold not_denylisted at 1.
  destruct (CorpNap.denylisted (strip l)) eqn:D; cbn [negb].
  - rewrite (denylisted_not_hostname _ D). apply IH.
  - cbn [CorpNap.hostname_loop].
    destruct (startswith (strip l) "HOSTNAME"); [|apply IH].
    destruct (nth_error (split_ws (strip l)) 1); [apply IH|reflexivity].
Qed.

Lemma conn_loop_filter (pick : string -> option (string * string))
    (cur : option string) (ls : list string) :
  (forall l, CorpNap.denylisted (strip l) = true -> pick l = None) ->
  forall devices connections,
    CorpNap.conn_loop pick cur (filter not_denylisted ls) devices connections
    = CorpNap.conn_loop pick cur ls devices connections.
Proof.
  intros Hp. induction ls as [|l ls IH]; intros devices connections;
    [reflexivity|].
  cbn [filter CorpNap.conn_loop]. unfold not_denylisted at 1.
  destruct (CorpNap.denylisted (strip l)) eqn:D; cbn [negb].
  - rewrite (Hp l D). apply IH.
  - cbn [CorpNap.conn_loop].
    destruct (pick l) as [[d ty]|]; [|apply IH].
    destruct cur as [cd|]; [|apply IH].
    destruct (truthy (Some cd)); apply IH.
Qed.

Lemma parse_lines_filter (ls : list string) :
  CorpNap.parse_lines (filter not_denylisted ls) = CorpNap.parse_lines ls.
Proof.
  unfold CorpNap.parse_lines. rewrite hostname_loop_filter.
  destruct (CorpNap.hostname_loop ls None []) as [[cur devices]|];
    [|reflexivity].
  rewrite conn_loop_filter.
  2:{ intros l D. unfold CorpNap.with_type.
      destruct (denylisted_no_pick l D) as (-> & _). reflexivity. }
  destruct (CorpNap.conn_loop _ cur ls devices []) as [devices1 conns1].
  rewrite conn_loop_filter.
  2:{ intros l D. unfold CorpNap.with_type.
      destruct (denylisted_no_pick l D) as (_ & -> & _). reflexivity. }
  destruct (CorpNap.conn_loop _ cur ls devices1 conns1) as [devices2 conns2].
  rewrite conn_loop_filter; [reflexivity|].
  intros l D. apply (denylisted_no_pick l D).
Qed.

(** C6: a line of one of the denylisted categories ([IBGPNEIGH],
    [EBGPNEIGH], [RRCLIENTNEIGH]) never yields an edge: it is picked by
    none of the three connection loops, and the result of the extractor
    (devices and edges) is the one obtained from the input with every
    such line deleted. *)
Theorem C6_denylisted_lines_yield_nothing :
  (forall l, CorpNap.denylisted (strip l) = true ->
     CorpNap.customer_line l = None /\ CorpNap.ring_line l = None
     /\ CorpNap.peer_line l = None)
  /\ (forall content,
        CorpNap.parse_attr_content content
        = CorpNap.parse_lines (filter not_denylisted (lines content))).
Proof.
  split.
  - exact denylisted_no_pick.
  - intros content. unfold CorpNap.parse_attr_content.
    symmetry. apply parse_lines_filter.
Qed.

Lemma hostname_after_last (ls : list string) :
  forall cur,
    hostname_after cur ls
    = match rev (filter is_hostname_line ls) with
      | l :: _ => hostname_of l
      | [] => cur
      end.
Proof.
  induction ls as [|l ls IH]; intros cur; [reflexivity|].
  cbn [hostname_after filter].
  destruct (is_hostname_line l); [|apply IH].
  rewrite IH. cbn [rev].
  destruct (rev (filter is_hostname_line ls)); reflexivity.
Qed.

Lemma hostname_loop_current (ls : list string) :
  forall cur devices cur' devices',
    CorpNap.hostname_loop ls cur devices = Some (cur', devices') ->
    cur' = hostname_after cur ls.
Proof.
  induction ls as [|l ls IH]; intros cur devices cur' devices' H.
  - cbn in H. now inversion H.
  - cbn [CorpNap.hostname_loop] in H. cbn [hostname_after].
    unfold is_hostname_line, hostname_of.
    destruct (startswith (strip l) "HOSTNAME"); [|now apply IH in H].
    destruct (nth_error (split_ws (strip l)) 1) as [d|]; [|discriminate].
    now apply IH in H.
Qed.

(** Every edge that a connection loop adds has the fixed current device
    as its source. *)
Lemma conn_loop_sources (pick : string -> option (string * string))
    (cur : option string) (ls : list string) :
  forall devices connections e,
    In e (snd (CorpNap.conn_loop pick cur ls devices connections)) ->
    In e connections \/ cur = Some (source e).
Proof.
  induction ls as [|l ls IH]; intros devices connections e H.
  - now left.
  - cbn [CorpNap.conn_loop] in H.
    destruct (pick l) as [[d ty]|]; [|now apply IH in H].
    destruct cur as [cd|]; [|now apply IH in H].
    destruct (truthy (Some cd)); [|now apply IH in H].
    apply IH in H. destruct H as [H|H]; [|now right].
    apply in_app_or in H. destruct H as [H|[<-|[]]]; [now left|now right].
Qed.

(** C5, as the code has it: every emitted edge has as its source the
    device named by the last hostname declaration of the whole input
    (the hostname lines are read in a first pass, before any connection
    line), and an input without hostname declaration gives no edge. *)
Theorem C5_source_is_last_hostname (content : string)
    (devices : list string) (connections : list conn) :
  CorpNap.parse_attr_content content = Some (devices, connections) ->
  (forall e, In e connections ->
     last_hostname (lines content) = Some (source e))
  /\ (filter is_hostname_line (lines content) = [] -> connections = []).
Proof.
  unfold CorpNap.parse_attr_content, CorpNap.parse_lines.
  set (ls := lines content).
  destruct (CorpNap.hostname_loop ls None []) as [[cur devices0]|] eqn:Hh;
    [|discriminate].
  apply hostname_loop_current in Hh. rewrite hostname_after_last in Hh.
  fold (last_hostname ls) in Hh.
  destruct (CorpNap.conn_loop _ cur ls devices0 []) as [devices1 conns1] eqn:H1.
  destruct (CorpNap.conn_loop _ cur ls devices1 conns1)
    as [devices2 conns2] eqn:H2.
  destruct (CorpNap.conn_loop CorpNap.peer_line cur ls devices2 conns2)
    as [devices3 conns3] eqn:H3.
  intros H. inversion H; subst devices3 conns3; clear H.
  assert (Hsrc : forall e, In e connections -> cur = Some (source e)).
  { intros e He.
    pose proof (conn_loop_sources CorpNap.peer_line cur ls devices2 conns2 e)
      as P3.
    rewrite H3 in P3. destruct (P3 He) as [He2|]; [|assumption].
    pose proof (conn_loop_sources
                  (CorpNap.with_type "ring" CorpNap.ring_line)
                  cur ls devices1 conns1 e) as P2.
    rewrite H2 in P2. destruct (P2 He2) as [He1|]; [|assumption].
    pose proof (conn_loop_sources
                  (CorpNap.with_type "customer" CorpNap.customer_line)
                  cur ls devices0 [] e) as P1.
    rewrite H1 in P1. destruct (P1 He1) as [[]|]; assumption. }
  split.
  - intros e He. rewrite <- Hh. now apply Hsrc.
  - intros Hnone. destruct connections as [|e rest]; [reflexivity|].
    specialize (Hsrc e (or_introl eq_refl)).
    unfold last_hostname in Hh. rewrite Hnone in Hh. cbn in Hh. congruence.
Qed.

Lemma C5_source_is_last_hostname_witness :
  CorpNap.parse_attr_content c5_content
  = Some (["a"; "b"; "x"], [mkConn "b" "x" "ring"])
  /\ ((forall e, In e [mkConn "b" "x" "ring"] ->
        last_hostname (lines c5_content) = Some (source e))
      /\ (filter is_hostname_line (lines c5_content) = [] ->
          [mkConn "b" "x" "ring"] = [])).
Proof.
  split; [reflexivity|].
  apply (C5_source_is_last_hostname c5_content ["a"; "b"; "x"]).
  reflexivity.
Defined.

(** C5 as stated fails: on the three lines [HOSTNAME a],
    [RINGLAG ae1 DESC x], [HOSTNAME b] the nearest hostname declaration
    before the ring line names [a], and the extractor emits the edge
    with source [b]; and on [RINGLAG ae1 DESC x], [HOSTNAME b] the ring
    line is seen before any hostname declaration and still gives an
    edge. *)
Lemma C5_counterexample :
  (exists devices connections e,
     CorpNap.parse_attr_content c5_content = Some (devices, connections)
     /\ In e connections
     /\ ~ In e (nearest_hostname_edges None (lines c5_content)))
  /\ (exists devices connections,
        CorpNap.parse_attr_content
          ("RINGLAG ae1 DESC x" ++ nl ++ "HOSTNAME b")
        = Some (devices, connections)
        /\ connections <> []
        /\ nearest_hostname_edges None
             (lines ("RINGLAG ae1 DESC x" ++ nl ++ "HOSTNAME b")) = []).
Proof.
  split.
  - exists ["a"; "b"; "x"], [mkConn "b" "x" "ring"], (mkConn "b" "x" "ring").
    split; [reflexivity|]. split; [now left|].
    vm_compute. intros [H|[]]. discriminate H.
  - exists ["b"; "x"], [mkConn "b" "x" "ring"].
    split; [reflexivity|]. split; [discriminate|reflexivity].
Qed.

(** ** Validation of the target site *)

Lemma span_spec {A : Type} (p : A -> bool) (l : list A) :
  forall a b,
    span p l = (a, b) ->
    l = (a ++ b)%list /\ Forall (fun c => p c = true) a
    /\ match b with [] => True | c :: _ => p c = false end.
Proof.
  induction l as [|x l IH]; intros a b H; cbn in H.
  - inversion H. repeat split; constructor.
  - destruct (p x) eqn:Px.
    + destruct (span p l) as [a' b'] eqn:S. inversion H; subst.
      destruct (IH a' b eq_refl) as (-> & Fa & Hb).
      repeat split; [constructor; assumption|assumption].
    + inversion H; subst. repeat split; [constructor|assumption].
Qed.

Lemma span_app {A : Type} (p : A -> bool) (a b : list A) :
  Forall (fun c => p c = true) a ->
  match b with [] => True | c :: _ => p c = false end ->
  span p (a ++ b) = (a, b).
Proof.
  intros Fa Hb. induction Fa as [|x a Px Fa IH]; cbn.
  - destruct b as [|c b]; [reflexivity|]. cbn. now rewrite Hb.
  - now rewrite Px, IH.
Qed.

Lemma digit_not_lower (c : ascii) : is_digit c = true -> is_lower c = false.
Proof.
  unfold is_digit, is_lower. intros H.
  apply andb_true_iff in H. destruct H as [_ H]. apply Nat.leb_le in H.
  apply andb_false_iff. left. apply Nat.leb_gt. lia.
Qed.

(** The matcher of [__init__] succeeds exactly on the sites of the
    pattern. *)
Lemma match_site_pattern (site : string) :
  site_pattern site <-> PyStr.match_site site <> None.
Proof.
  unfold site_pattern, PyStr.match_site. split.
  - intros (letters & d1 & d2 & rest & E & Nl & Fl & N1 & F1 & N2 & F2).
    rewrite E.
    destruct letters as [|l0 letters]; [congruence|].
    destruct d1 as [|c1 d1]; [congruence|].
    rewrite (span_app is_lower (l0 :: letters));
      [|assumption|inversion F1; subst; now apply digit_not_lower].
    rewrite (span_app is_digit (c1 :: d1)); [|assumption|reflexivity].
    rewrite Ascii.eqb_refl.
    destruct d2 as [|c2 d2]; [congruence|].
    inversion F2; subst. cbn [app span].
    match goal with H : is_digit c2 = true |- _ => rewrite H end.
    destruct (span is_digit (d2 ++ rest)). discriminate.
  - destruct (span is_lower (list_ascii_of_string site)) as [ls r1] eqn:S1.
    destruct (span is_digit r1) as [d1 r2] eqn:S2.
    destruct ls as [|l0 ls]; [congruence|].
    destruct d1 as [|c1 d1]; [congruence|].
    destruct r2 as [|h r3]; [congruence|].
    destruct (Ascii.eqb_spec h hyphen) as [->|]; [|congruence].
    destruct (span is_digit r3) as [d2 r4] eqn:S3.
    destruct d2 as [|c2 d2]; [congruence|]. intros _.
    apply span_spec in S1. destruct S1 as (E1 & F1 & _).
    apply span_spec in S2. destruct S2 as (E2 & F2 & _).
    apply span_spec in S3. destruct S3 as (E3 & F3 & _).
    exists (l0 :: ls), (c1 :: d1), (c2 :: d2), r4.
    rewrite E1, E2, E3. repeat split; try assumption; discriminate.
Qed.

(** C9, as the code has it: the constructor of the UMN-EC2 generator
    raises exactly on the sites that do not begin with lowercase
    letters, digits, a hyphen and digits; the DSN generator does not
    validate the site, and [main] goes on to build its URLs from any
    site argument. *)
Theorem C9_site_validation :
  (forall site, UmnEc2.init site = None <-> ~ site_pattern site)
  /\ (forall prog site rest,
        Dsn.main_urls (prog :: site :: rest)
        = Some (Dsn.construct_urls site)).
Proof.
  split; [|reflexivity].
  intros site. rewrite match_site_pattern. unfold UmnEc2.init.
  destruct (PyStr.match_site site) as [[[az dc] r]|]; split; intros H.
  - discriminate H.
  - exfalso. apply H. discriminate.
  - intros N. now apply N.
  - reflexivity.
Qed.

(** C9 as stated fails: the site [x] does not follow the pattern, and
    the DSN generator signals nothing and builds its three URLs. *)
Lemma C9_counterexample :
  ~ site_pattern "x"
  /\ Dsn.main_urls ["dsn_fabric_generator.py"; "x"]
     = Some
         ["https://code.amazon.com/packages/GenevaBuilderDCNE/blobs/mainline/--/targetspec/dc-corp-x/x-co-agg-r/x-co-agg-r3/dsn.attr";
          "https://code.amazon.com/packages/GenevaBuilderDCNE/blobs/mainline/--/targetspec/dc-corp-x/x-co-agg-r/x-co-agg-r1/dsn.attr";
          "https://code.amazon.com/packages/GenevaBuilderDCNE/blobs/mainline/--/targetspec/dc-corp-x/x-co-agg-r/x-co-agg-r2/dsn.attr"].
Proof.
  split; [|reflexivity].
  rewrite match_site_pattern. intros H. apply H. reflexivity.
Qed.

(** [construct_brick_url] tests three leading lowercase letters only:
    it accepts [abc], which is outside the pattern, and rejects
    [ab1-1], which is inside. *)
Example construct_brick_url_other_pattern :
  (~ site_pattern "abc" /\ UmnEc2.construct_brick_url "abc" "f" <> None)
  /\ (site_pattern "ab1-1" /\ UmnEc2.construct_brick_url "ab1-1" "f" = None).
Proof.
  rewrite !match_site_pattern. repeat split; try discriminate.
  intros H. apply H. reflexivity.
Qed.

(** ** Site filtering *)

Lemma mem_In (x : string) (l : list string) : mem x l = true <-> In x l.
Proof.
  unfold mem. rewrite existsb_exists. split.
  - intros (y & Hy & E). apply String.eqb_eq in E. now subst.
  - intros H. exists x. split; [assumption|apply String.eqb_refl].
Qed.

Lemma set_add_In (x y : string) (l : list string) :
  In x (set_add y l) <-> x = y \/ In x l.
Proof.
  unfold set_add. destruct (mem y l) eqn:M.
  - apply mem_In in M. split; [now right|]. intros [->|H]; assumption.
  - rewrite in_app_iff. cbn. intuition congruence.
Qed.









(** ** Connection canonicalisation *)

Section DictFacts.
Context {K V : Type} (keq : K -> K -> bool).
Hypothesis keq_spec : forall a b, keq a b = true <-> a = b.

Lemma keq_refl (a : K) : keq a a = true.
Proof. now apply keq_spec. Qed.

Lemma dget_None (k : K) (d : list (K * V)) :
  dget keq k d = None <-> ~ In k (map fst d).
Proof.
  induction d as [|[k' v] d IH]; cbn; [tauto|].
  destruct (keq k k') eqn:E.
  - apply keq_spec in E. subst. split; [discriminate|tauto].
  - rewrite IH. split; [|tauto]. intros H [<-|H']; [|tauto].
    rewrite keq_refl in E. discriminate.
Qed.

Lemma dmem_In (k : K) (d : list (K * V)) :
  dmem keq k d = true <-> In k (map fst d).
Proof.
  unfold dmem. induction d as [|[k' v] d IH]; cbn.
  - split; [discriminate|tauto].
  - destruct (keq k k') eqn:E.
    + apply keq_spec in E. subst. tauto.
    + rewrite IH. split; [tauto|]. intros [<-|H]; [|assumption].
      rewrite keq_refl in E. discriminate.
Qed.

Lemma dset_fresh (k : K) (v : V) (d : list (K * V)) :
  dmem keq k d = false -> dset keq k v d = (d ++ [(k, v)])%list.
Proof.
  unfold dmem, dset. induction d as [|[k' v'] d IH]; cbn; [reflexivity|].
  destruct (keq k k'); [discriminate|]. intros H. now rewrite IH.
Qed.
End DictFacts.

Section DedupFacts.
Context {K : Type} (keq : K -> K -> bool).
Variable key : string -> string -> string -> K.
Hypothesis keq_spec : forall a b, keq a b = true <-> a = b.

Let ekey (e : conn) : K := key (source e) (target e) (ctype e).

Lemma dedup_loop_inv (dg : sdict string) (conns : list conn) :
  forall acc, dedup_inv key acc ->
              dedup_inv key (dedup_loop keq key dg conns acc).
Proof.
  induction conns as [|c cs IH]; intros acc I; [exact I|].
  cbn [dedup_loop].
  destruct (resolve dg (source c) =? resolve dg (target c))%string eqn:L;
    [now apply IH|].
  destruct (dmem keq _ acc) eqn:M; [now apply IH|].
  apply IH. rewrite (dset_fresh keq) by assumption.
  destruct I as [I1 I2]. split.
  - intros k e H. apply in_app_iff in H. destruct H as [H|[H|[]]].
    + now apply I1.
    + inversion H; subst. cbn. split; [reflexivity|].
      now apply String.eqb_neq.
  - rewrite map_app. cbn [map fst]. apply NoDup_app; [assumption| |].
    + constructor; [intros []|constructor].
    + intros a Ha [<-|[]]. apply (dmem_In keq keq_spec) in Ha. congruence.
Qed.

(** The dictionary only grows. *)
Lemma dedup_loop_keeps (dg : sdict string) (conns : list conn) :
  forall acc x, In x acc -> In x (dedup_loop keq key dg conns acc).
Proof.
  induction conns as [|c cs IH]; intros acc x Hx; [exact Hx|].
  cbn [dedup_loop].
  destruct (resolve dg (source c) =? resolve dg (target c))%string;
    [now apply IH|].
  destruct (dmem keq _ acc) eqn:M; [now apply IH|].
  apply IH. rewrite (dset_fresh keq) by assumption.
  apply in_app_iff. now left.
Qed.

(** The first raw edge of a key that is not yet in the dictionary is the
    one that enters it. *)
Lemma dedup_loop_first (dg : sdict string) (conns : list conn) (k : K) :
  forall acc c0,
    ~ In k (map fst acc) ->
    find (fun c => negb (is_loop dg c) && keq (ekey (resolved dg c)) k) conns
    = Some c0 ->
    In (k, resolved dg c0) (dedup_loop keq key dg conns acc).
Proof.
  induction conns as [|c cs IH]; intros acc c0 Hk Hf; [discriminate|].
  cbn [dedup_loop find] in *. unfold is_loop at 1 in Hf.
  destruct (resolve dg (source c) =? resolve dg (target c))%string eqn:L;
    cbn [negb andb] in Hf; [now apply IH|].
  destruct (keq (ekey (resolved dg c)) k) eqn:E.
  - inversion Hf; subst c0. apply keq_spec in E.
    unfold ekey, resolved in E. cbn in E. rewrite E.
    destruct (dmem keq k acc) eqn:M;
      [apply (dmem_In keq keq_spec) in M; contradiction|].
    apply dedup_loop_keeps. rewrite (dset_fresh keq) by assumption.
    apply in_app_iff. right. left. rewrite <- E. reflexivity.
  - destruct (dmem keq _ acc) eqn:M; [now apply IH|].
    apply IH; [|assumption]. rewrite (dset_fresh keq) by assumption.
    rewrite map_app, in_app_iff. cbn. intros [H|[H|[]]]; [contradiction|].
    unfold ekey, resolved in E. cbn in E. rewrite H, keq_refl in E
      by assumption. discriminate.
Qed.

(** Under the invariant a key of the dictionary has exactly one entry. *)
Lemma dedup_inv_count (acc : list (K * conn)) (k : K) :
  dedup_inv key acc -> In k (map fst acc) ->
  count (fun e => keq (ekey e) k) (map snd acc) = 1.
Proof.
  unfold count. intros [I1 I2] Hk.
  assert (Z0 : forall l : list (K * conn),
             (forall k' e, In (k', e) l -> k' = ekey e) ->
             ~ In k (map fst l) ->
             filter (fun e => keq (ekey e) k) (map snd l) = []).
  { induction l as [|[k' e] l IHl]; intros Hl Hn; [reflexivity|].
    cbn. destruct (keq (ekey e) k) eqn:E.
    - apply keq_spec in E. exfalso. apply Hn. left. cbn.
      rewrite <- E. now apply Hl; left.
    - apply IHl; [intros; apply Hl; now right|].
      intros H. apply Hn. now right. }
  induction acc as [|[k' e] acc IH]; [destruct Hk|].
  cbn in *. apply NoDup_cons_iff in I2. destruct I2 as [Hn I2].
  assert (Ke : k' = ekey e) by (apply (I1 k' e); now left).
  destruct (keq (ekey e) k) eqn:E.
  - apply keq_spec in E. rewrite Z0; [reflexivity| |congruence].
    intros k0 e0 H. apply (I1 k0 e0). now right.
  - destruct Hk as [Hk|Hk].
    + subst. rewrite keq_refl in E by assumption. discriminate.
    + apply IH; try assumption. intros k0 e0 H. apply I1. now right.
Qed.

(** A raw edge between two different groups has, in the canonical
    output, exactly one edge of its key, and that edge is the first raw
    edge of that key. *)
Lemma dedup_exactly_one (conns : list conn) (dg : sdict string) (c : conn) :
  In c conns -> is_loop dg c = false ->
  count (fun e => keq (ekey e) (ekey (resolved dg c))) (dedup keq key conns dg)
  = 1
  /\ exists c0,
       find (fun c' => negb (is_loop dg c')
                       && keq (ekey (resolved dg c')) (ekey (resolved dg c)))
         conns = Some c0
       /\ In (resolved dg c0) (dedup keq key conns dg).
Proof.
  intros Hc Hl. set (k := ekey (resolved dg c)).
  destruct (find (fun c' => negb (is_loop dg c')
                            && keq (ekey (resolved dg c')) k) conns)
    as [c0|] eqn:F.
  2:{ apply find_none with (x := c) in F; [|assumption].
      rewrite Hl in F. unfold k in F. rewrite keq_refl in F by assumption.
      discriminate. }
  pose proof (dedup_loop_first dg conns k [] c0 (fun h => h) F) as H.
  assert (I : dedup_inv key (dedup_loop keq key dg conns [])).
  { apply dedup_loop_inv. split; [intros ? ? []|constructor]. }
  split.
  - apply dedup_inv_count; [assumption|].
    apply in_map_iff. exists (k, resolved dg c0). now split.
  - exists c0. split; [reflexivity|]. unfold dedup.
    apply in_map_iff. exists (k, resolved dg c0). now split.
Qed.

(** No canonical edge joins a group to itself. *)
Lemma dedup_no_self_loop (conns : list conn) (dg : sdict string) (e : conn) :
  In e (dedup keq key conns dg) -> source e <> target e.
Proof.
  unfold dedup. intros H. apply in_map_iff in H.
  destruct H as ([k e'] & <- & H).
  assert (I : dedup_inv key (dedup_loop keq key dg conns [])).
  { apply dedup_loop_inv. split; [intros ? ? []|constructor]. }
  now apply (proj1 I k e').
Qed.

End DedupFacts.

Lemma pair_eqb_spec (p q : string * string) : pair_eqb p q = true <-> p = q.
Proof.
  unfold pair_eqb. destruct p as [a b], q as [c d]. cbn.
  rewrite andb_true_iff, !String.eqb_eq. split.
  - intros [-> ->]. reflexivity.
  - intros H. inversion H. auto.
Qed.

Lemma triple_eqb_spec (p q : string * string * string) :
  triple_eqb p q = true <-> p = q.
Proof.
  unfold triple_eqb. destruct p as [p t], q as [q u]. cbn [fst snd].
  rewrite andb_true_iff, pair_eqb_spec, String.eqb_eq. split.
  - intros [-> ->]. reflexivity.
  - intros H. inversion H. auto.
Qed.

Lemma sorted_pair_eq (a b : string) :
  sorted_pair a b = if String.leb a b then (a, b) else (b, a).
Proof.
  unfold sorted_pair, PyStr.sorted. cbn. now destruct (String.leb a b).
Qed.

(** The key does not depend on the direction of the edge. *)
Lemma sorted_pair_sym (a b : string) : sorted_pair a b = sorted_pair b a.
Proof.
  rewrite !sorted_pair_eq.
  destruct (String.leb a b) eqn:E1, (String.leb b a) eqn:E2;
    try reflexivity.
  - now rewrite (String.leb_antisym a b E1 E2).
  - destruct (String.leb_total a b); congruence.
Qed.

(** Two keys are equal exactly when the unordered pairs are. *)
Lemma sorted_pair_inj (a b c d : string) :
  sorted_pair a b = sorted_pair c d
  <-> (a = c /\ b = d) \/ (a = d /\ b = c).
Proof.
  split.
  - rewrite !sorted_pair_eq.
    destruct (String.leb a b), (String.leb c d); intros H; inversion H; auto.
  - intros [[-> ->]|[-> ->]]; [reflexivity|apply sorted_pair_sym].
Qed.

(** The canonical edges of the generators that have a separate
    canonicaliser never join a group to itself. *)
Lemma canonical_edges_no_self_loop (conns : list conn) (dg : sdict string)
    (e : conn) :
  (In e (Dsn.deduplicate_connections conns dg) -> source e <> target e)
  /\ (In e (CorpNap.deduplicate_connections conns dg) ->
      source e <> target e)
  /\ (In e (UmnProd.deduplicate_connections conns dg) ->
      source e <> target e).
Proof.
  repeat split.
  - apply (dedup_no_self_loop triple_eqb key_with_type triple_eqb_spec).
  - apply (dedup_no_self_loop triple_eqb key_with_type triple_eqb_spec).
  - apply (dedup_no_self_loop pair_eqb key_without_type pair_eqb_spec).
Qed.

(** C2, as the code has it.  The key of a canonical edge is the
    unordered pair of its ends, so the direction of a raw edge does not
    matter.  In the corp-NAP generator the key also holds the category:
    for a raw edge between two different groups the output has exactly
    one edge of the same unordered pair and the same category, and it is
    the first raw edge of that pair and category.  In the UMN-PROD
    generator the key is the pair alone: exactly one edge per unordered
    pair whatever the categories, the first raw edge of the pair. *)
Theorem C2_one_edge_per_key :
  (forall a b, sorted_pair a b = sorted_pair b a)
  /\ (forall conns dg c,
        In c conns -> is_loop dg c = false ->
        count (fun e => same_pair_and_type e (resolved dg c))
          (CorpNap.deduplicate_connections conns dg) = 1
        /\ exists c0,
             find (fun c' => negb (is_loop dg c')
                             && same_pair_and_type (resolved dg c')
                                  (resolved dg c)) conns = Some c0
             /\ In (resolved dg c0)
                  (CorpNap.deduplicate_connections conns dg))
  /\ (forall conns dg c,
        In c conns -> is_loop dg c = false ->
        count (fun e => same_pair e (resolved dg c))
          (UmnProd.deduplicate_connections conns dg) = 1
        /\ exists c0,
             find (fun c' => negb (is_loop dg c')
                             && same_pair (resolved dg c') (resolved dg c))
               conns = Some c0
             /\ In (resolved dg c0)
                  (UmnProd.deduplicate_connections conns dg)).
Proof.
  split; [exact sorted_pair_sym|]. split.
  - intros conns dg c Hc Hl.
    exact (dedup_exactly_one triple_eqb key_with_type triple_eqb_spec
             conns dg c Hc Hl).
  - intros conns dg c Hc Hl.
    exact (dedup_exactly_one pair_eqb key_without_type pair_eqb_spec
             conns dg c Hc Hl).
Qed.

(** The property at scenario B, for the edge given in the reverse
    direction. *)
Lemma C2_one_edge_per_key_witness :
  let conns := [mkConn "a-r1" "b-r1" "physical";
                mkConn "b-r2" "a-r2" "physical"] in
  let dg := [("a-r1", "a-r[12]"); ("a-r2", "a-r[12]");
             ("b-r1", "b-r[12]"); ("b-r2", "b-r[12]")] in
  let c := mkConn "b-r2" "a-r2" "physical" in
  count (fun e => same_pair_and_type e (resolved dg c))
    (CorpNap.deduplicate_connections conns dg) = 1
  /\ exists c0,
       find (fun c' => negb (is_loop dg c')
                       && same_pair_and_type (resolved dg c')
                            (resolved dg c)) conns = Some c0
       /\ In (resolved dg c0) (CorpNap.deduplicate_connections conns dg).
Proof.
  apply (proj1 (proj2 C2_one_edge_per_key)).
  - right. left. reflexivity.
  - reflexivity.
Defined.

(** Scenario B: the edges [(a-r1, b-r1)] and [(b-r2, a-r2)] collapse into
    one canonical edge between the two groups. *)
Example scenario_B :
  Dsn.group_devices ["a-r1"; "a-r2"; "b-r1"; "b-r2"]
  = Some [("a-r1", "a-r[12]"); ("a-r2", "a-r[12]");
          ("b-r1", "b-r[12]"); ("b-r2", "b-r[12]")]
  /\ Dsn.deduplicate_connections
       [mkConn "a-r1" "b-r1" "physical"; mkConn "b-r2" "a-r2" "physical"]
       [("a-r1", "a-r[12]"); ("a-r2", "a-r[12]");
        ("b-r1", "b-r[12]"); ("b-r2", "b-r[12]")]
     = [mkConn "a-r[12]" "b-r[12]" "physical"].
Proof. split; reflexivity. Qed.

(** C2 as stated fails: two raw edges of the same unordered pair and of
    different categories give two canonical edges in the corp-NAP
    generator. *)
Lemma C2_counterexample :
  let c1 := mkConn "a" "b" "customer" in
  let c2 := mkConn "b" "a" "ring" in
  same_pair c1 c2 = true
  /\ count (fun e => same_pair e c1)
       (CorpNap.deduplicate_connections [c1; c2] []) = 2.
Proof. split; reflexivity. Qed.

(** C1 fails in the console generator.  On scenario A the two devices
    form one node, and [_build_xml], which drops repeated pairs of nodes
    but does not compare the two nodes of a connection, emits a
    connector from that node to itself.  (The generators with a separate
    [deduplicate_connections] skip such edges, see
    [canonical_edges_no_self_loop].) *)
Theorem C1_console_emits_self_loop :
  let t := Console.extract_topology_data "s1-1" scenario_A_brick in
  map (fun n => (fst n, Console.devices (snd n))) (Console.layout "s1-1" t)
  = [("x", ["x-r1"; "x-r2"])]
  /\ exists doc,
       Console.generate_drawio_xml "s1-1" t = Some doc
       /\ shape_ids doc = [2%Z]
       /\ connector_refs doc = [(2%Z, 2%Z)].
Proof.
  split; [reflexivity|].
  eexists. split; [reflexivity|]. split; reflexivity.
Qed.

(** Scenario A in the DSN generator: one group, no canonical edge. *)
Example scenario_A_dsn :
  Dsn.group_devices ["x-r1"; "x-r2"]
  = Some [("x-r1", "x-r[12]"); ("x-r2", "x-r[12]")]
  /\ Dsn.deduplicate_connections [mkConn "x-r1" "x-r2" "physical"]
       [("x-r1", "x-r[12]"); ("x-r2", "x-r[12]")] = [].
Proof. split; reflexivity. Qed.

(** ** The emitted document *)

Lemma dget_dset {V : Type} (k k' : string) (v : V) (d : sdict V) :
  dget String.eqb k' (dset String.eqb k v d)
  = if String.eqb k' k then Some v else dget String.eqb k' d.
Proof.
  unfold dset. induction d as [|[k0 v0] d IH]; cbn; [reflexivity|].
  destruct (String.eqb_spec k k0) as [->|N]; cbn.
  - destruct (String.eqb k' k0); reflexivity.
  - rewrite IH. destruct (String.eqb_spec k' k0) as [->|N'];
      [|reflexivity].
    destruct (String.eqb_spec k0 k); [congruence|reflexivity].
Qed.

Lemma dget_assign_all (members : list string) (name d : string) :
  forall dd,
    dget String.eqb d (Dsn.assign_all members name dd)
    = if mem d members then Some name else dget String.eqb d dd.
Proof.
  induction members as [|m ms IH]; intros dd; [reflexivity|].
  cbn [Dsn.assign_all]. rewrite IH, dget_dset. unfold mem. cbn [existsb].
  fold (mem d ms). destruct (mem d ms), (String.eqb d m); reflexivity.
Qed.

Lemma shape_ids_app (a b : list cell) :
  shape_ids (a ++ b) = (shape_ids a ++ shape_ids b)%list.
Proof. unfold shape_ids. now rewrite filter_app, map_app. Qed.

Lemma connector_refs_app (a b : list cell) :
  connector_refs (a ++ b) = (connector_refs a ++ connector_refs b)%list.
Proof.
  induction a as [|c a IH]; [reflexivity|].
  destruct c; cbn; now rewrite IH.
Qed.

Lemma In_insert {A : Type} (leb : A -> A -> bool) (x y : A) (l : list A) :
  In x (insert leb y l) <-> x = y \/ In x l.
Proof.
  induction l as [|z l IH]; cbn; [intuition|].
  destruct (leb y z); cbn; [intuition|]. rewrite IH. intuition.
Qed.

Lemma In_sort {A : Type} (leb : A -> A -> bool) (x : A) (l : list A) :
  In x (sort leb l) <-> In x l.
Proof.
  induction l as [|y l IH]; cbn; [tauto|].
  rewrite In_insert, IH. intuition.
Qed.

Lemma In_uniq (x : string) (l : list string) : In x (uniq l) <-> In x l.
Proof.
  induction l as [|y l IH]; [tauto|].
  destruct l as [|z l]; [tauto|].
  change (uniq (y :: z :: l))
    with (if String.eqb y z then uniq (z :: l) else y :: uniq (z :: l)).
  destruct (String.eqb_spec y z) as [->|N].
  - rewrite IH. cbn. tauto.
  - cbn [In]. rewrite IH. cbn. tauto.
Qed.









(** ** Determinism *)

Lemma ascii_compare_lt (a b : ascii) :
  Ascii.compare a b = Lt <-> (N_of_ascii a < N_of_ascii b)%N.
Proof. unfold Ascii.compare. apply N.compare_lt_iff. Qed.

Lemma string_leb_trans (s1 : string) :
  forall s2 s3,
    String.leb s1 s2 = true -> String.leb s2 s3 = true ->
    String.leb s1 s3 = true.
Proof.
  unfold String.leb.
  induction s1 as [|a s1 IH]; intros [|b s2] [|c s3]; cbn; try easy.
  destruct (Ascii.compare a b) eqn:E1; try easy;
    destruct (Ascii.compare b c) eqn:E2; try easy.
  - apply Ascii.compare_eq_iff in E1, E2. subst.
    assert (E : Ascii.compare c c = Eq) by apply N.compare_refl.
    rewrite E. apply IH.
  - apply Ascii.compare_eq_iff in E1. subst. now rewrite E2.
  - apply Ascii.compare_eq_iff in E2. subst. now rewrite E1.
  - apply ascii_compare_lt in E1. apply ascii_compare_lt in E2.
    assert (E : Ascii.compare a c = Lt)
      by (apply ascii_compare_lt; now apply N.lt_trans with (N_of_ascii b)).
    now rewrite E.
Qed.

Section SortFacts.
Context {A : Type} (leb : A -> A -> bool).
Hypothesis leb_total : forall a b, leb a b = true \/ leb b a = true.
Hypothesis leb_antisym : forall a b, leb a b = true -> leb b a = true -> a = b.
Hypothesis leb_trans :
  forall a b c, leb a b = true -> leb b c = true -> leb a c = true.

Lemma insert_comm (x y : A) (l : list A) :
  insert leb x (insert leb y l) = insert leb y (insert leb x l).
Proof.
  induction l as [|z l IH]; cbn.
  - destruct (leb x y) eqn:Exy, (leb y x) eqn:Eyx; try reflexivity.
    + now rewrite (leb_antisym x y Exy Eyx).
    + destruct (leb_total x y); congruence.
  - destruct (leb y z) eqn:Eyz, (leb x z) eqn:Exz; cbn.
    + rewrite Eyz, Exz.
      destruct (leb x y) eqn:Exy, (leb y x) eqn:Eyx; try reflexivity.
      * now rewrite (leb_antisym x y Exy Eyx).
      * destruct (leb_total x y); congruence.
    + rewrite Eyz, Exz.
      destruct (leb x y) eqn:Exy; [|reflexivity].
      rewrite (leb_trans x y z Exy Eyz) in Exz. discriminate.
    + rewrite Eyz, Exz.
      destruct (leb y x) eqn:Eyx; [|reflexivity].
      rewrite (leb_trans y x z Eyx Exz) in Eyz. discriminate.
    + rewrite Eyz, Exz, IH. reflexivity.
Qed.

(** The sorted list depends on the elements only, not on their order. *)
Lemma sort_permutation (l l' : list A) :
  Permutation l l' -> sort leb l = sort leb l'.
Proof.
  induction 1 as [|x l l' _ IH|x y l|l l' l'' _ IH1 _ IH2]; cbn.
  - reflexivity.
  - now rewrite IH.
  - apply insert_comm.
  - congruence.
Qed.
End SortFacts.

Lemma sorted_permutation (l l' : list string) :
  Permutation l l' -> PyStr.sorted l = PyStr.sorted l'.
Proof.
  apply sort_permutation.
  - apply String.leb_total.
  - apply String.leb_antisym.
  - intros a b c. apply string_leb_trans.
Qed.

Lemma filter_permutation {A : Type} (f : A -> bool) (l l' : list A) :
  Permutation l l' -> Permutation (filter f l) (filter f l').
Proof.
  induction 1 as [|x l l' _ IH|x y l|l l' l'' _ IH1 _ IH2]; cbn.
  - constructor.
  - destruct (f x); [now constructor|assumption].
  - destruct (f x), (f y); try apply Permutation_refl. apply perm_swap.
  - now apply Permutation_trans with (filter f l').
Qed.

(** C10: the core transform of the console generator (grouping, layout
    and diagram generation) does not depend on the order in which the
    set of devices is enumerated: for the same edges in the same order
    and the same site, two enumerations of the same device set give the
    same groups, the same positions and the same document, identifiers
    included. *)
Theorem C10_deterministic (self_site : string) (devices devices' : list string)
    (conns : list Console.cconn) :
  Permutation devices devices' ->
  Console.topology_of self_site devices conns
  = Console.topology_of self_site devices' conns
  /\ Console.layout self_site (Console.topology_of self_site devices conns)
     = Console.layout self_site (Console.topology_of self_site devices' conns)
  /\ Console.generate_drawio_xml self_site
       (Console.topology_of self_site devices conns)
     = Console.generate_drawio_xml self_site
         (Console.topology_of self_site devices' conns).
Proof.
  intros P.
  assert (E : Console.topology_of self_site devices conns
              = Console.topology_of self_site devices' conns).
  { unfold Console.topology_of, Console.group_devices.
    rewrite (sorted_permutation _ _
               (filter_permutation (fun d => startswith d self_site) _ _ P)).
    rewrite (sorted_permutation _ _
               (filter_permutation
                  (fun d => negb (startswith d self_site)) _ _ P)).
    reflexivity. }
  rewrite E. auto.
Qed.

Lemma C10_deterministic_witness :
  Console.topology_of "s1-1" ["s2-2-b-r1"; "s1-1-a-r2"; "s1-1-a-r1"]
    [Console.mkCconn "s1-1-a-r1" "s2-2-b-r1" "e0" "physical"]
  = Console.topology_of "s1-1" ["s1-1-a-r2"; "s2-2-b-r1"; "s1-1-a-r1"]
      [Console.mkCconn "s1-1-a-r1" "s2-2-b-r1" "e0" "physical"]
  /\ Console.layout "s1-1"
       (Console.topology_of "s1-1" ["s2-2-b-r1"; "s1-1-a-r2"; "s1-1-a-r1"]
          [Console.mkCconn "s1-1-a-r1" "s2-2-b-r1" "e0" "physical"])
     = Console.layout "s1-1"
         (Console.topology_of "s1-1" ["s1-1-a-r2"; "s2-2-b-r1"; "s1-1-a-r1"]
            [Console.mkCconn "s1-1-a-r1" "s2-2-b-r1" "e0" "physical"])
  /\ Console.generate_drawio_xml "s1-1"
       (Console.topology_of "s1-1" ["s2-2-b-r1"; "s1-1-a-r2"; "s1-1-a-r1"]
          [Console.mkCconn "s1-1-a-r1" "s2-2-b-r1" "e0" "physical"])
     = Console.generate_drawio_xml "s1-1"
         (Console.topology_of "s1-1" ["s1-1-a-r2"; "s2-2-b-r1"; "s1-1-a-r1"]
            [Console.mkCconn "s1-1-a-r1" "s2-2-b-r1" "e0" "physical"]).
Proof.
  apply (C10_deterministic "s1-1"). apply perm_swap.
Defined.

(** ** Grouping *)

Lemma dget_dupd {V : Type} (k k' : string) (f : option V -> V) (d : sdict V) :
  dget String.eqb k' (dupd String.eqb k f d)
  = if String.eqb k' k then Some (f (dget String.eqb k d))
    else dget String.eqb k' d.
Proof.
  induction d as [|[k0 v0] d IH]; cbn.
  - now destruct (String.eqb k' k).
  - destruct (String.eqb_spec k k0) as [->|N]; cbn.
    + destruct (String.eqb k' k0); reflexivity.
    + rewrite IH. destruct (String.eqb_spec k' k0) as [->|N'];
        [|reflexivity].
      destruct (String.eqb_spec k0 k); [congruence|reflexivity].
Qed.

Lemma keys_dupd {V : Type} (k : string) (f : option V -> V) (d : sdict V) :
  map fst (dupd String.eqb k f d)
  = if dmem String.eqb k d then map fst d else (map fst d ++ [k])%list.
Proof.
  unfold dmem. induction d as [|[k0 v0] d IH]; cbn; [reflexivity|].
  destruct (String.eqb k k0); cbn; [reflexivity|].
  rewrite IH. now destruct (dget String.eqb k d).
Qed.

Lemma sdict_get_In {V : Type} (k : string) (v : V) (d : sdict V) :
  dget String.eqb k d = Some v -> In (k, v) d.
Proof.
  induction d as [|[k0 v0] d IH]; cbn; [discriminate|].
  destruct (String.eqb_spec k k0) as [->|N].
  - intros H. inversion H. now left.
  - intros H. right. now apply IH.
Qed.

Lemma sdict_In_get {V : Type} (k : string) (v : V) (d : sdict V) :
  NoDup (map fst d) -> In (k, v) d -> dget String.eqb k d = Some v.
Proof.
  induction d as [|[k0 v0] d IH]; cbn; [tauto|].
  intros N [H|H]; apply NoDup_cons_iff in N; destruct N as [N0 N].
  - inversion H; subst. now rewrite String.eqb_refl.
  - destruct (String.eqb_spec k k0) as [->|_]; [|now apply IH].
    exfalso. apply N0. apply in_map_iff. now exists (k0, v).
Qed.

Section AppendLoop.
Context {M : Type} (key : string -> string) (mk : string -> M).

Lemma append_loop_get (devices : list string) (b : string) :
  forall acc,
    dget String.eqb b (append_loop key mk devices acc)
    = match dget String.eqb b acc, bucket key mk devices b with
      | Some l, new => Some (l ++ new)%list
      | None, [] => None
      | None, new => Some new
      end.
Proof.
  unfold bucket.
  induction devices as [|d ds IH]; intros acc; cbn [append_loop filter map].
  - destruct (dget String.eqb b acc); [now rewrite app_nil_r|reflexivity].
  - rewrite IH. unfold dappend. rewrite dget_dupd.
    rewrite (String.eqb_sym (key d) b).
    destruct (String.eqb_spec b (key d)) as [->|N].
    + cbn [map]. destruct (dget String.eqb (key d) acc) as [l|].
      * now rewrite <- app_assoc.
      * reflexivity.
    + reflexivity.
Qed.

Lemma append_loop_nodup (devices : list string) :
  forall acc, NoDup (map fst acc) ->
              NoDup (map fst (append_loop key mk devices acc)).
Proof.
  induction devices as [|d ds IH]; intros acc N; [exact N|].
  cbn [append_loop]. apply IH. unfold dappend. rewrite keys_dupd.
  destruct (dmem String.eqb (key d) acc) eqn:E; [assumption|].
  apply NoDup_app; [assumption|constructor; [intros []|constructor]|].
  intros a Ha [<-|[]].
  apply (dmem_In String.eqb String.eqb_eq) in Ha. congruence.
Qed.

(** The groups of [append_loop] from the empty dictionary: every entry
    is the non-empty bucket of its key, and the keys are distinct. *)
Lemma append_loop_groups (devices : list string) :
  let groups := append_loop key mk devices [] in
  NoDup (map fst groups)
  /\ (forall b ms, In (b, ms) groups ->
        ms = bucket key mk devices b /\ ms <> [])
  /\ (forall d, In d devices ->
        In (key d, bucket key mk devices (key d)) groups).
Proof.
  cbn zeta.
  assert (N : NoDup (map fst (append_loop key mk devices [])))
    by (apply append_loop_nodup; constructor).
  split; [exact N|]. split.
  - intros b ms H. apply (sdict_In_get _ _ _ N) in H.
    rewrite append_loop_get in H. cbn [dget] in H.
    destruct (bucket key mk devices b); inversion H. split; congruence.
  - intros d Hd. apply sdict_get_In. rewrite append_loop_get. cbn [dget].
    destruct (bucket key mk devices (key d)) eqn:B; [|reflexivity].
    exfalso. unfold bucket in B.
    assert (H : In d (filter (fun d0 => key d0 =? key d) devices))
      by (apply filter_In; split; [assumption|apply String.eqb_refl]).
    destruct (filter (fun d0 => key d0 =? key d) devices);
      [destruct H|discriminate].
Qed.
End AppendLoop.

Section RunGroups.
Context {G V : Type} (step : G -> sdict V -> option (sdict V)).
Variable assigned : G -> string -> option V.
Hypothesis step_spec :
  forall g acc acc', step g acc = Some acc' ->
    forall d, dget String.eqb d acc'
              = match assigned g d with
                | Some v => Some v
                | None => dget String.eqb d acc
                end.

Lemma run_groups_get (groups : list G) :
  forall acc m,
    run_groups step groups acc = Some m ->
    forall d, dget String.eqb d m
              = written assigned d groups (dget String.eqb d acc).
Proof.
  unfold written.
  induction groups as [|g gs IH]; intros acc m H d; cbn in *.
  - now inversion H.
  - destruct (step g acc) as [acc'|] eqn:S; [|discriminate].
    rewrite (IH acc' m H d), (step_spec g acc acc' S d). reflexivity.
Qed.

Lemma run_groups_total (groups : list G) :
  (forall g, In g groups -> forall acc, step g acc <> None) ->
  forall acc, exists m, run_groups step groups acc = Some m.
Proof.
  induction groups as [|g gs IH]; intros T acc; cbn.
  - now exists acc.
  - destruct (step g acc) as [acc'|] eqn:S.
    + apply IH. intros g' Hg'. apply T. now right.
    + exfalso. apply (T g (or_introl eq_refl) acc S).
Qed.

Lemma written_none (d : string) (groups : list G) :
  (forall g, In g groups -> assigned g d = None) ->
  forall init, written assigned d groups init = init.
Proof.
  unfold written.
  induction groups as [|g gs IH]; intros H init; cbn; [reflexivity|].
  rewrite (H g (or_introl eq_refl)). apply IH. intros g' Hg'. apply H.
  now right.
Qed.

(** When the groups that write an entry for [d] all write [v], and one
    of them does, the entry is [v]. *)
Lemma written_agree (d : string) (v : V) (groups : list G) :
  (forall g, In g groups ->
     assigned g d = None \/ assigned g d = Some v) ->
  forall init,
    (init = Some v \/ exists g, In g groups /\ assigned g d = Some v) ->
    written assigned d groups init = Some v.
Proof.
  unfold written.
  induction groups as [|g0 gs IH]; intros Hall init Hex; cbn.
  - destruct Hex as [H|(g & [] & _)]. exact H.
  - apply IH; [intros g Hg; apply Hall; now right|].
    destruct (Hall g0 (or_introl eq_refl)) as [A|A]; rewrite A.
    + destruct Hex as [H|(g & [<-|Hg] & Hv)]; [now left|congruence|].
      right. now exists g.
    + now left.
Qed.
End RunGroups.

(** *** The DSN grouper *)






Lemma length_sort {A : Type} (leb : A -> A -> bool) (l : list A) :
  List.length (sort leb l) = List.length l.
Proof.
  induction l as [|x l IH]; [reflexivity|]. cbn. rewrite <- IH.
  generalize (sort leb l). clear. intros l0.
  induction l0 as [|y l0 IH0]; [reflexivity|]. cbn.
  destruct (leb x y); cbn; [reflexivity|now rewrite IH0].
Qed.












(** *** Labels of the console generator *)









Ltac nodup_by_cases :=
  repeat (constructor; [cbn [In]; intuition discriminate|]); constructor.


(** The labels of the DSN grouper on two groups and a single device:
    no comma, and [10] before [2]. *)
Example dsn_labels :
  Dsn.group_devices ["x-r1"; "z-r2"; "x-r2"; "z-r10"; "y"]
  = Some [("x-r1", "x-r[12]"); ("x-r2", "x-r[12]");
          ("z-r10", "z-r[102]"); ("z-r2", "z-r[102]"); ("y", "y")].
Proof. reflexivity. Qed.


(** *** The UMN-PROD grouper *)




















(** *** Group names are told apart by their base *)

Lemma list_ascii_app (a b : string) :
  list_ascii_of_string (a ++ b)
  = (list_ascii_of_string a ++ list_ascii_of_string b)%list.
Proof. induction a as [|c a IH]; [reflexivity|]. cbn. now rewrite IH. Qed.

Lemma list_ascii_inj (a b : string) :
  list_ascii_of_string a = list_ascii_of_string b -> a = b.
Proof.
  intros H. rewrite <- (string_of_list_ascii_of_string a),
    <- (string_of_list_ascii_of_string b). now rewrite H.
Qed.

Lemma rev_bracketed (p x : list ascii) :
  rev (p ++ "["%char :: x ++ ["]"%char])
  = ("]"%char :: rev x ++ "["%char :: rev p)%list.
Proof.
  rewrite rev_app_distr. cbn [rev]. rewrite rev_app_distr. cbn.
  now rewrite <- app_assoc.
Qed.




Lemma ends_with_bracket_name (p x : string) :
  ends_with_bracket (p ++ "[" ++ x ++ "]") = true.
Proof.
  unfold ends_with_bracket. rewrite !list_ascii_app.
  cbn [list_ascii_of_string app]. now rewrite rev_bracketed.
Qed.









(** *** The complete UMN-EC2 grouper *)

Lemma complete_group_loop_append (devices : list string) :
  forall acc,
    UmnEc2Complete.group_loop devices acc
    = append_loop complete_key complete_member devices acc.
Proof.
  induction devices as [|d ds IH]; intros acc; [reflexivity|].
  cbn [UmnEc2Complete.group_loop append_loop].
  destruct (UmnEc2Complete.match_base d) as [[b sfx]|] eqn:E.
  - replace (complete_key d) with b by (unfold complete_key; now rewrite E).
    replace (complete_member d) with (d, sfx)
      by (unfold complete_member; now rewrite E).
    apply IH.
  - replace (complete_key d) with d by (unfold complete_key; now rewrite E).
    replace (complete_member d) with (d, EmptyString)
      by (unfold complete_member; now rewrite E).
    apply IH.
Qed.

Lemma complete_name_loop_run (groups : sdict (list (string * string))) :
  forall acc,
    UmnEc2Complete.name_loop groups acc = run_groups complete_step groups acc.
Proof.
  induction groups as [|[b ms] gs IH]; intros acc; [reflexivity|].
  cbn [UmnEc2Complete.name_loop run_groups].
  unfold complete_step, complete_name, complete_members.
  destruct (1 <? List.length ms)%nat; [apply IH|].
  destruct ms as [|[d o] ms]; [reflexivity|apply IH].
Qed.


Lemma dset_In {V : Type} (k k' : string) (v v' : V) (d : sdict V) :
  In (k', v') (dset String.eqb k v d) -> In (k', v') d \/ v' = v.
Proof.
  unfold dset. induction d as [|[k0 v0] d IH]; cbn.
  - intros [H|[]]. inversion H. now right.
  - destruct (String.eqb k k0); cbn.
    + intros [H|H]; [inversion H; now right|left; now right].
    + intros [H|H]; [left; now left|].
      destruct (IH H); [left; now right|now right].
Qed.

(** Every entry of the result records the members of one group. *)
Lemma complete_entries (groups : list (string * list (string * string))) :
  forall acc m,
    run_groups complete_step groups acc = Some m ->
    forall nm ms,
      In (nm, ms) m ->
      In (nm, ms) acc \/ exists g, In g groups /\ ms = complete_members g.
Proof.
  induction groups as [|g gs IH]; intros acc m H nm ms Hin; cbn in H.
  - inversion H; subst. now left.
  - unfold complete_step in H at 1.
    destruct (complete_name g) as [n|]; [|discriminate].
    destruct (IH _ _ H nm ms Hin) as [Hacc|(g' & Hg' & E)].
    + apply dset_In in Hacc. destruct Hacc as [Hacc | ->]; [now left|].
      right. exists g. split; [now left|reflexivity].
    + right. exists g'. split; [now right|assumption].
Qed.

Lemma complete_member_fst (d : string) : fst (complete_member d) = d.
Proof.
  unfold complete_member.
  now destruct (UmnEc2Complete.match_base d) as [[? ?]|].
Qed.

Lemma complete_members_fst (l : list string) :
  map fst (map complete_member l) = l.
Proof.
  induction l as [|x l IH]; [reflexivity|]. cbn.
  now rewrite complete_member_fst, IH.
Qed.

(** The members recorded for the group of key [b] are the devices of
    that key. *)
Lemma complete_members_In (devices : list string) (b x : string) :
  In x (complete_members (b, bucket complete_key complete_member devices b))
  <-> In x devices /\ complete_key x = b.
Proof.
  unfold complete_members.
  set (ms := bucket complete_key complete_member devices b).
  assert (Hm : forall y, In y (map fst ms)
                         <-> In y devices /\ complete_key y = b).
  { intros y. unfold ms, bucket.
    now rewrite complete_members_fst, filter_In, String.eqb_eq. }
  destruct (1 <? List.length ms)%nat eqn:L.
  - rewrite <- Hm. rewrite !in_map_iff. split.
    + intros (p & E & Hp). apply In_sort in Hp. now exists p.
    + intros (p & E & Hp). exists p. split; [assumption|now apply In_sort].
  - apply Nat.ltb_ge in L. rewrite <- Hm.
    destruct ms as [|[d0 o] [|m2 ms']]; cbn in L |- *; try lia; tauto.
Qed.













(** The two groupers on devices of one base with both suffix kinds. *)
Example groupers_mixed_kinds :
  UmnProd.group_devices ["x-r1"; "x-r2"; "x-v1"; "x-v2"; "y"]
  = Some [("x-r1", "x-r[12]"); ("x-r2", "x-r[12]"); ("x-v1", "x-v1");
          ("x-v2", "x-v2"); ("y", "y")]
  /\ UmnEc2Complete.group_devices ["x-r1"; "x-r2"; "x-v1"; "y"]
     = Some [("x-[r1,r2,v1]", ["x-r1"; "x-r2"; "x-v1"]); ("y", ["y"])].
Proof. split; reflexivity. Qed.


(** * Further properties of the generators *)

(** ** Extraction from DSN attribute files *)

Lemma set_add_NoDup (x : string) (l : list string) :
  NoDup l -> NoDup (set_add x l).
Proof.
  intros N. unfold set_add. destruct (mem x l) eqn:M; [assumption|].
  apply NoDup_app; [assumption|constructor; [intros []|constructor]|].
  intros a Ha [<-|[]]. apply mem_In in Ha. congruence.
Qed.

Lemma name_after_is_name (lit l : list ascii) (t : string) :
  name_after lit l = Some t -> is_name t.
Proof.
  unfold name_after. destruct (strip_prefix lit l) as [rest|]; [|discriminate].
  destruct (span is_space rest) as [ws r1].
  destruct (span is_name_char r1) as [nm r2] eqn:S.
  destruct ws as [|w ws]; [discriminate|].
  destruct nm as [|c nm]; [discriminate|].
  intros H. injection H as <-.
  apply span_spec in S. destruct S as (_ & F & _).
  split; [discriminate|].
  change (Forall (fun x => is_name_char x = true)
            (list_ascii_of_string (string_of_list_ascii (c :: nm)))).
  now rewrite list_ascii_of_string_of_list_ascii.
Qed.

Lemma search_name_is_name (lit l : list ascii) (t : string) :
  search_name lit l = Some t -> is_name t.
Proof.
  induction l as [|c l IH]; cbn [search_name].
  - destruct (name_after lit []) eqn:E; [|discriminate].
    intros H. inversion H; subst. now apply (name_after_is_name lit []).
  - destruct (name_after lit (c :: l)) eqn:E.
    + intros H. inversion H; subst. now apply (name_after_is_name lit (c :: l)).
    + exact IH.
Qed.

Lemma dsn_conn_loop_inv (pick : string -> option string)
    (ty source_device : string) (ls : list string) :
  (forall l t, pick l = Some t -> is_name t) ->
  ty = "physical" \/ ty = "bgp" \/ ty = "switch" ->
  forall devices connections,
    dsn_parse_inv source_device devices connections ->
    dsn_parse_inv source_device
      (fst (Dsn.conn_loop pick ty source_device ls devices connections))
      (snd (Dsn.conn_loop pick ty source_device ls devices connections)).
Proof.
  intros Hp Ht. induction ls as [|l ls IH]; intros devices connections I;
    cbn [Dsn.conn_loop]; [exact I|].
  destruct (pick l) as [t|] eqn:P; [|now apply IH].
  apply IH. destruct I as (N & Hs & He & Hd).
  split; [now apply set_add_NoDup|].
  split; [apply set_add_In; now right|].
  split.
  - intros e H. apply in_app_iff in H. destruct H as [H|[<-|[]]].
    + destruct (He e H) as (A & B & C & D).
      repeat split; try assumption; try apply D.
      apply set_add_In. now right.
    + cbn. repeat split; try assumption; try (apply (Hp l t P)).
      apply set_add_In. now left.
  - intros d H. apply set_add_In in H. destruct H as [->|H].
    + right. exists (mkConn source_device t ty). split; [|reflexivity].
      apply in_app_iff. right. now left.
    + destruct (Hd d H) as [A|(e & A & B)]; [now left|].
      right. exists e. split; [|assumption]. apply in_app_iff. now left.
Qed.

Lemma dsn_parse_consistent (content site : string) :
  dsn_parse_inv (site ++ "-co-agg-r")
    (fst (Dsn.parse_dsn_content content site))
    (snd (Dsn.parse_dsn_content content site)).
Proof.
  unfold Dsn.parse_dsn_content.
  set (src := (site ++ "-co-agg-r")%string).
  set (ls := lines content).
  assert (I0 : dsn_parse_inv src [src] []).
  { split; [constructor; [intros []|constructor]|].
    split; [now left|]. split; [intros e []|].
    intros d [<-|[]]. now left. }
  apply (dsn_conn_loop_inv Dsn.parent_child_line "physical" src ls) in I0;
    [|intros l t; unfold Dsn.parent_child_line;
      destruct (_ && _); [apply search_name_is_name|discriminate]
     |now left].
  destruct (Dsn.conn_loop Dsn.parent_child_line "physical" src ls [src] [])
    as [d1 c1].
  apply (dsn_conn_loop_inv Dsn.ibgp_line "bgp" src ls) in I0;
    [|intros l t; unfold Dsn.ibgp_line;
      destruct (_ && _); [apply search_name_is_name|discriminate]
     |now right; left].
  cbn [fst snd] in I0.
  destruct (Dsn.conn_loop Dsn.ibgp_line "bgp" src ls d1 c1) as [d2 c2].
  apply (dsn_conn_loop_inv Dsn.switch_line "switch" src ls) in I0;
    [|intros l t; unfold Dsn.switch_line;
      destruct (_ && _); [apply search_name_is_name|discriminate]
     |now right; right].
  exact I0.
Qed.

(** X1.  What [parse_dsn_content] returns is a star around the source
    device [site-co-agg-r]: the device set has no duplicate and holds
    the source device; every edge goes from the source device to a
    device of the set, is of type [physical], [bgp] or [switch], and its
    target is a non-empty text of lowercase letters, digits and hyphens;
    and every device of the set other than the source device is the
    target of an edge. *)
Theorem dsn_parse_star (content site : string) :
  let source_device := (site ++ "-co-agg-r")%string in
  let devices := fst (Dsn.parse_dsn_content content site) in
  let connections := snd (Dsn.parse_dsn_content content site) in
  NoDup devices
  /\ In source_device devices
  /\ (forall e, In e connections ->
        source e = source_device /\ In (target e) devices
        /\ (ctype e = "physical" \/ ctype e = "bgp" \/ ctype e = "switch")
        /\ is_name (target e))
  /\ (forall d, In d devices ->
        d = source_device \/ exists e, In e connections /\ target e = d).
Proof. cbn zeta. exact (dsn_parse_consistent content site). Qed.

(** ** The simple emitters *)

Lemma dsn_device_loop_grid (site : string) (ds : list string) :
  forall dc x y i out,
    grid_devices (dsn_color site) 200 160 ds dc x y i out
    = Some (Dsn.device_loop site ds dc x y i out).
Proof.
  induction ds as [|d ds IH]; intros dc x y i out; [reflexivity|].
  cbn [grid_devices Dsn.device_loop dsn_color].
  destruct (800 <? x + 200)%Z; apply IH.
Qed.

Lemma dsn_connection_loop_grid (cs : list conn) (dc : sdict Z) :
  forall i out,
    grid_connections typed_edge Dsn.get_connection_color cs dc i out
    = Dsn.connection_loop cs dc i out.
Proof.
  induction cs as [|c cs IH]; intros i out; [reflexivity|].
  cbn [grid_connections Dsn.connection_loop].
  destruct (dget String.eqb (source c) dc); [|apply IH].
  destruct (dget String.eqb (target c) dc); apply IH.
Qed.

Lemma dsn_document_grid (devices : list string) (conns : list conn)
    (site : string) :
  grid_document (dsn_color site) 200 160 typed_edge Dsn.get_connection_color
    devices conns
  = Some (Dsn.generate_drawio_xml devices conns site).
Proof.
  unfold grid_document, Dsn.generate_drawio_xml.
  rewrite dsn_device_loop_grid.
  destruct (Dsn.device_loop site (sorted_set devices) [] 100 100 2 [])
    as [[dc i] out].
  now rewrite dsn_connection_loop_grid.
Qed.

Lemma corp_device_loop_grid (ds : list string) :
  forall dc x y i out,
    grid_devices corp_color 200 160 ds dc x y i out
    = Some (CorpNap.device_loop ds dc x y i out).
Proof.
  induction ds as [|d ds IH]; intros dc x y i out; [reflexivity|].
  cbn [grid_devices CorpNap.device_loop corp_color].
  destruct (800 <? x + 200)%Z; apply IH.
Qed.

Lemma corp_connection_loop_grid (cs : list conn) (dc : sdict Z) :
  forall i out,
    grid_connections typed_edge CorpNap.get_connection_color cs dc i out
    = CorpNap.connection_loop cs dc i out.
Proof.
  induction cs as [|c cs IH]; intros i out; [reflexivity|].
  cbn [grid_connections CorpNap.connection_loop].
  destruct (dget String.eqb (source c) dc); [|apply IH].
  destruct (dget String.eqb (target c) dc); apply IH.
Qed.

Lemma corp_document_grid (devices : list string) (conns : list conn)
    (site : string) :
  grid_document corp_color 200 160 typed_edge CorpNap.get_connection_color
    devices conns
  = Some (CorpNap.generate_drawio_xml devices conns site).
Proof.
  unfold grid_document, CorpNap.generate_drawio_xml.
  rewrite corp_device_loop_grid.
  destruct (CorpNap.device_loop (sorted_set devices) [] 100 100 2 [])
    as [[dc i] out].
  now rewrite corp_connection_loop_grid.
Qed.

Lemma prod_device_loop_grid (site : string) (ds : list string) :
  forall dc x y i out,
    grid_devices (fun d => UmnProd.get_device_color d site) 250 200
      ds dc x y i out
    = UmnProd.device_loop site ds dc x y i out.
Proof.
  induction ds as [|d ds IH]; intros dc x y i out; [reflexivity|].
  cbn [grid_devices UmnProd.device_loop].
  destruct (UmnProd.get_device_color d site); [|reflexivity].
  destruct (800 <? x + 250)%Z; apply IH.
Qed.

Lemma prod_connection_loop_grid (cs : list conn) (dc : sdict Z) :
  forall i out,
    grid_connections blank_edge UmnProd.get_connection_color cs dc i out
    = UmnProd.connection_loop cs dc i out.
Proof.
  induction cs as [|c cs IH]; intros i out; [reflexivity|].
  cbn [grid_connections UmnProd.connection_loop].
  destruct (dget String.eqb (source c) dc); [|apply IH].
  destruct (dget String.eqb (target c) dc); apply IH.
Qed.

Lemma prod_document_grid (devices : list string) (conns : list conn)
    (site : string) :
  grid_document (fun d => UmnProd.get_device_color d site) 250 200
    blank_edge UmnProd.get_connection_color devices conns
  = UmnProd.generate_drawio_xml devices conns site.
Proof.
  unfold grid_document, UmnProd.generate_drawio_xml.
  rewrite prod_device_loop_grid.
  destruct (UmnProd.device_loop site (sorted_set devices) [] 100 100 2 [])
    as [[[dc i] out]|]; [|reflexivity].
  now rewrite prod_connection_loop_grid.
Qed.

Section GridFacts.
Variable color : string -> option string.
Variables dx width : Z.
Variable edge_value : conn -> option string.
Variable edge_color : string -> string.



Lemma grid_devices_vertices (ds : list string) :
  forall dc x y i out dc' i' out',
    grid_devices color dx width ds dc x y i out = Some (dc', i', out') ->
    filter is_vertex out = out -> filter is_vertex out' = out'.
Proof.
  induction ds as [|d ds IH]; intros dc x y i out dc' i' out'; cbn [grid_devices].
  - intros H. now inversion H.
  - destruct (color d) as [colour|]; [|discriminate].
    destruct (800 <? x + dx)%Z; intros H V; apply (IH _ _ _ _ _ _ _ _ H);
      rewrite filter_app, V; reflexivity.
Qed.

Lemma grid_connections_spec (conns : list conn) (dc : sdict Z) :
  forall i out,
    let doc := grid_connections edge_value edge_color conns dc i out in
    connector_refs doc
    = (connector_refs out ++ flat_map (connector_of dc) conns)%list
    /\ filter is_vertex doc = filter is_vertex out.
Proof.
  induction conns as [|c cs IH]; intros i out.
  - cbn. now rewrite app_nil_r.
  - cbn [grid_connections flat_map].
    destruct (dget String.eqb (source c) dc) as [s|] eqn:Gs.
    2:{ replace (connector_of dc c) with (@nil (Z * Z))
          by (unfold connector_of; now rewrite Gs).
        apply IH. }
    destruct (dget String.eqb (target c) dc) as [t|] eqn:Gt.
    2:{ replace (connector_of dc c) with (@nil (Z * Z))
          by (unfold connector_of; now rewrite Gs, Gt).
        apply IH. }
    replace (connector_of dc c) with [(s, t)]
      by (unfold connector_of; now rewrite Gs, Gt).
    match goal with
    | |- context [grid_connections _ _ cs dc ?j ?o] =>
        destruct (IH j o) as [R V]
    end.
    split.
    + rewrite R, connector_refs_app, <- app_assoc. reflexivity.
    + rewrite V, filter_app. cbn. apply app_nil_r.
Qed.


End GridFacts.

Section GridLayout.
Variable color : string -> option string.
Variables dx width k : Z.
Hypothesis dx_pos : (0 < dx)%Z.
Hypothesis k_pos : (0 < k)%Z.
Hypothesis last_column : (100 + dx * (k - 1) <= 800)%Z.
Hypothesis no_more : (800 < 100 + dx * k)%Z.

(** The rank that follows the last column of a row starts the next
    row; any other rank is followed in the same row. *)
Lemma next_rank (n : Z) :
  (0 <= n)%Z ->
  if (800 <? 100 + dx * (n mod k) + dx)%Z
  then ((n + 1) mod k = 0 /\ (n + 1) / k = n / k + 1)%Z
  else ((n + 1) mod k = n mod k + 1 /\ (n + 1) / k = n / k)%Z.
Proof.
  intros Hn.
  pose proof (Z.mod_pos_bound n k k_pos) as B.
  pose proof (Z.div_mod n k ltac:(lia)) as E.
  destruct (800 <? 100 + dx * (n mod k) + dx)%Z eqn:T.
  - apply Z.ltb_lt in T.
    assert (C : (n mod k = k - 1)%Z) by nia.
    assert (Q : (n + 1 = k * (n / k + 1) + 0)%Z) by lia.
    split.
    + symmetry. apply (Z.mod_unique_pos _ _ (n / k + 1)); lia.
    + symmetry. apply (Z.div_unique_pos _ _ _ 0); lia.
  - apply Z.ltb_ge in T.
    assert (C : (n mod k + 1 < k)%Z) by nia.
    assert (Q : (n + 1 = k * (n / k) + (n mod k + 1))%Z) by lia.
    split.
    + symmetry. apply (Z.mod_unique_pos _ _ (n / k)); lia.
    + symmetry. apply (Z.div_unique_pos _ _ _ (n mod k + 1)); lia.
Qed.

Lemma grid_devices_layout (ds : list string) :
  forall dc n out dc' i' out',
    (0 <= n)%Z ->
    grid_devices color dx width ds dc
      (100 + dx * (n mod k)) (100 + 120 * (n / k)) (2 + n) out
    = Some (dc', i', out') ->
    exists cells,
      out' = (out ++ cells)%list
      /\ forall i d, nth_error ds i = Some d ->
           exists colour,
             color d = Some colour
             /\ nth_error cells i
                = Some (grid_cell dx width k (n + Z.of_nat i) d colour).
Proof.
  induction ds as [|d ds IH]; intros dc n out dc' i' out' Hn;
    cbn [grid_devices].
  - intros H. inversion H; subst. exists []. split; [now rewrite app_nil_r|].
    intros [|i] d; discriminate.
  - destruct (color d) as [colour|] eqn:C; [|discriminate].
    pose proof (next_rank n Hn) as R.
    assert (Hn1 : (0 <= n + 1)%Z) by lia.
    set (c := Vertex (2 + n) d (grid_style colour)
                (100 + dx * (n mod k)) (100 + 120 * (n / k)) width 60).
    set (dc1 := dset String.eqb d (2 + n)%Z dc).
    intros H.
    assert (H' : grid_devices color dx width ds dc1
                   (100 + dx * ((n + 1) mod k)) (100 + 120 * ((n + 1) / k))
                   (2 + (n + 1)) (out ++ [c])
                 = Some (dc', i', out')).
    { rewrite <- H. replace (2 + (n + 1))%Z with (2 + n + 1)%Z by lia.
      destruct (800 <? 100 + dx * (n mod k) + dx)%Z; destruct R as [Rm Rd];
        rewrite Rm, Rd.
      - replace (100 + dx * 0)%Z with 100%Z by lia.
        now replace (100 + 120 * (n / k + 1))%Z
          with (100 + 120 * (n / k) + 120)%Z by lia.
      - now replace (100 + dx * (n mod k + 1))%Z
          with (100 + dx * (n mod k) + dx)%Z by lia. }
    destruct (IH _ (n + 1)%Z _ _ _ _ Hn1 H') as (cells & E & Hc).
    exists (c :: cells). split; [now rewrite E, <- app_assoc|].
    intros [|i] d'; cbn [nth_error].
    + intros D. inversion D; subst. exists colour. split; [assumption|].
      unfold grid_cell, c. now rewrite Z.add_0_r.
    + intros D. destruct (Hc i d' D) as (col' & C' & N).
      exists col'. split; [assumption|]. rewrite N.
      now replace (n + 1 + Z.of_nat i)%Z with (n + Z.of_nat (S i))%Z by lia.
Qed.

(** The shapes of the document, in the order of the document, are the
    devices in sorted order, placed row by row in [k] columns. *)
Lemma grid_document_layout (edge_value : conn -> option string)
    (edge_color : string -> string) (devices : list string)
    (conns : list conn) (doc : list cell) :
  grid_document color dx width edge_value edge_color devices conns
  = Some doc ->
  forall i d, nth_error (sorted_set devices) i = Some d ->
    exists colour,
      color d = Some colour
      /\ nth_error (filter is_vertex doc) i
         = Some (grid_cell dx width k (Z.of_nat i) d colour).
Proof.
  unfold grid_document.
  destruct (grid_devices color dx width (sorted_set devices) [] 100 100 2 [])
    as [[[dc j] out]|] eqn:D; [|discriminate].
  intros H. inversion H; subst; clear H.
  pose proof (grid_devices_vertices color dx width _ _ _ _ _ _ _ _ _ D eq_refl)
    as V.
  destruct (grid_connections_spec edge_value edge_color conns dc j out)
    as [_ F].
  rewrite F, V.
  replace 100%Z with (100 + dx * (0 mod k))%Z in D at 1
    by (rewrite Z.mod_0_l; lia).
  replace 100%Z with (100 + 120 * (0 / k))%Z in D at 3
    by (rewrite Z.div_0_l; lia).
  change 2%Z with (2 + 0)%Z in D.
  destruct (grid_devices_layout _ _ 0%Z _ _ _ _ (Z.le_refl 0) D)
    as (cells & E & Hc).
  cbn [app] in E. subst out. intros i d N.
  destruct (Hc i d N) as (colour & C & Hn). exists colour.
  now rewrite Z.add_0_l in Hn.
Qed.

End GridLayout.

(** ** From the parsed input to the document *)



Section Pipeline.
Context {K : Type} (keq : K -> K -> bool).
Variable key : string -> string -> string -> K.
Hypothesis keq_spec : forall a b, keq a b = true <-> a = b.
Variable color : string -> option string.
Variables dx width : Z.
Variable edge_value : conn -> option string.
Variable edge_color : string -> string.

End Pipeline.



(** ** Placement of the shapes *)

Section SortedFacts.
Context {A : Type} (leb : A -> A -> bool).
Hypothesis leb_total : forall a b, leb a b = true \/ leb b a = true.
Hypothesis leb_trans :
  forall a b c, leb a b = true -> leb b c = true -> leb a c = true.

Lemma insert_sorted (x : A) (l : list A) :
  StronglySorted (fun a b => leb a b = true) l ->
  StronglySorted (fun a b => leb a b = true) (insert leb x l).
Proof.
  induction 1 as [|y l S IH F]; cbn [insert].
  - constructor; constructor.
  - destruct (leb x y) eqn:E.
    + constructor; [now constructor|]. constructor; [assumption|].
      apply Forall_forall. intros z Hz. apply (leb_trans x y z E).
      now apply (proj1 (Forall_forall _ _) F).
    + constructor; [assumption|]. apply Forall_forall. intros z Hz.
      apply In_insert in Hz. destruct Hz as [->|Hz].
      * destruct (leb_total x y); [congruence|assumption].
      * now apply (proj1 (Forall_forall _ _) F).
Qed.

Lemma sort_sorted (l : list A) :
  StronglySorted (fun a b => leb a b = true) (sort leb l).
Proof.
  induction l as [|x l IH]; cbn [sort]; [constructor|].
  now apply insert_sorted.
Qed.
End SortedFacts.

Lemma ltb_of_leb (x z : string) :
  String.leb x z = true -> x <> z -> String.ltb x z = true.
Proof.
  unfold String.leb, String.ltb. intros L N.
  destruct (String.compare x z) eqn:C; try reflexivity; try discriminate.
  exfalso. apply N. now apply String.compare_eq_iff.
Qed.

Lemma uniq_increasing (l : list string) :
  StronglySorted (fun a b => String.leb a b = true) l ->
  StronglySorted (fun a b => String.ltb a b = true) (uniq l).
Proof.
  induction 1 as [|x l S IH F]; [constructor|].
  cbn [uniq]. destruct l as [|y l]; [constructor; constructor|].
  destruct (String.eqb_spec x y) as [->|N]; [exact IH|].
  constructor; [exact IH|]. apply Forall_forall. intros z Hz.
  apply (proj1 (In_uniq _ _)) in Hz.
  pose proof (proj1 (Forall_forall _ _) F z Hz) as Lxz.
  apply ltb_of_leb; [assumption|]. intros ->.
  apply N. apply String.leb_antisym.
  - apply (proj1 (Forall_forall _ _) F). now left.
  - destruct Hz as [->|Hz].
    + destruct (String.leb_total z z); assumption.
    + inversion S as [|? ? _ Fy]; subst.
      now apply (proj1 (Forall_forall _ _) Fy).
Qed.

(** [sorted(set(l))] lists the elements of [l] in strictly increasing
    order. *)
Lemma sorted_set_increasing (l : list string) :
  StronglySorted (fun a b => String.ltb a b = true) (sorted_set l).
Proof.
  apply uniq_increasing. apply sort_sorted.
  - apply String.leb_total.
  - apply string_leb_trans.
Qed.

Lemma grid_devices_length (color : string -> option string) (dx width : Z)
    (ds : list string) :
  forall dc x y i out dc' i' out',
    grid_devices color dx width ds dc x y i out = Some (dc', i', out') ->
    List.length out' = (List.length out + List.length ds)%nat.
Proof.
  induction ds as [|d ds IH]; intros dc x y i out dc' i' out';
    cbn [grid_devices].
  - intros H. inversion H; subst. cbn. lia.
  - destruct (color d); [|discriminate].
    destruct (800 <? x + dx)%Z; intros H; apply IH in H;
      rewrite H, length_app; cbn; lia.
Qed.

(** The number of shapes of the document is the number of different
    devices. *)
Lemma grid_document_shape_count (color : string -> option string)
    (dx width : Z) (edge_value : conn -> option string)
    (edge_color : string -> string) (devices : list string)
    (conns : list conn) (doc : list cell) :
  grid_document color dx width edge_value edge_color devices conns
  = Some doc ->
  List.length (filter is_vertex doc) = List.length (sorted_set devices).
Proof.
  unfold grid_document.
  destruct (grid_devices color dx width (sorted_set devices) [] 100 100 2 [])
    as [[[dc j] out]|] eqn:D; [|discriminate].
  intros H. inversion H; subst; clear H.
  destruct (grid_connections_spec edge_value edge_color conns dc j out)
    as [_ F].
  rewrite F, (grid_devices_vertices _ _ _ _ _ _ _ _ _ _ _ _ D eq_refl).
  now rewrite (grid_devices_length _ _ _ _ _ _ _ _ _ _ _ _ D).
Qed.

(** When every device has a colour, the shapes of the document are
    exactly the cells of the grid, one for each different device. *)
Lemma grid_document_cells (colour : string -> string) (dx width k : Z)
    (edge_value : conn -> option string) (edge_color : string -> string)
    (devices : list string) (conns : list conn) (doc : list cell) :
  (0 < dx)%Z -> (0 < k)%Z ->
  (100 + dx * (k - 1) <= 800)%Z -> (800 < 100 + dx * k)%Z ->
  grid_document (fun d => Some (colour d)) dx width edge_value edge_color
    devices conns = Some doc ->
  forall i,
    nth_error (filter is_vertex doc) i
    = match nth_error (sorted_set devices) i with
      | Some d => Some (grid_cell dx width k (Z.of_nat i) d (colour d))
      | None => None
      end.
Proof.
  intros H1 H2 H3 H4 D i.
  destruct (nth_error (sorted_set devices) i) as [d|] eqn:N.
  - destruct (grid_document_layout _ dx width k H1 H2 H3 H4 _ _ _ _ _ D i d N)
      as (c & C & E).
    inversion C; subst. exact E.
  - apply nth_error_None. apply nth_error_None in N.
    now rewrite (grid_document_shape_count _ _ _ _ _ _ _ _ D).
Qed.

(** X3.  Placement of the shapes by the DSN, corp-NAP and UMN-PROD
    emitters.  The devices are placed in strictly increasing order of
    their names, one shape for each different name, with identifiers
    from 2 on; the DSN and corp-NAP emitters fill rows of four columns
    200 apart, the UMN-PROD emitter (when it does not fail) rows of
    three columns 250 apart; the rows are 120 apart and the first shape
    is at (100, 100). *)
Theorem simple_emitters_grid :
  (forall devices,
     StronglySorted (fun a b => String.ltb a b = true) (sorted_set devices))
  /\ (forall devices conns site i,
        nth_error
          (filter is_vertex (Dsn.generate_drawio_xml devices conns site)) i
        = match nth_error (sorted_set devices) i with
          | Some d =>
              Some (grid_cell 200 160 4 (Z.of_nat i) d
                      (Dsn.get_device_color d site))
          | None => None
          end)
  /\ (forall devices conns site i,
        nth_error
          (filter is_vertex (CorpNap.generate_drawio_xml devices conns site))
          i
        = match nth_error (sorted_set devices) i with
          | Some d =>
              Some (grid_cell 200 160 4 (Z.of_nat i) d
                      (CorpNap.get_device_color d))
          | None => None
          end)
  /\ (forall devices conns site doc,
        UmnProd.generate_drawio_xml devices conns site = Some doc ->
        forall i,
          nth_error (filter is_vertex doc) i
          = match nth_error (sorted_set devices) i with
            | Some d =>
                option_map (grid_cell 250 200 3 (Z.of_nat i) d)
                  (UmnProd.get_device_color d site)
            | None => None
            end).
Proof.
  split; [exact sorted_set_increasing|]. split; [|split].
  - intros devices conns site i.
    apply (grid_document_cells (fun d => Dsn.get_device_color d site)
             200 160 4 typed_edge Dsn.get_connection_color devices conns);
      try lia.
    apply dsn_document_grid.
  - intros devices conns site i.
    apply (grid_document_cells CorpNap.get_device_color
             200 160 4 typed_edge CorpNap.get_connection_color devices conns);
      try lia.
    apply corp_document_grid.
  - intros devices conns site doc G i.
    rewrite <- prod_document_grid in G.
    destruct (nth_error (sorted_set devices) i) as [d|] eqn:N.
    + destruct (grid_document_layout _ 250 200 3 ltac:(lia) ltac:(lia)
                  ltac:(lia) ltac:(lia) _ _ _ _ _ G i d N) as (c & C & E).
      now rewrite C, E.
    + apply nth_error_None. apply nth_error_None in N.
      now rewrite (grid_document_shape_count _ _ _ _ _ _ _ _ G).
Qed.

(** The placement at three UMN-PROD devices and the rank 1. *)
Lemma simple_emitters_grid_witness :
  exists doc,
    UmnProd.generate_drawio_xml ["s1-1-c"; "s1-1-a"; "s1-1-b"] [] "s1-1"
    = Some doc
    /\ nth_error (filter is_vertex doc) 1
       = match nth_error (sorted_set ["s1-1-c"; "s1-1-a"; "s1-1-b"]) 1 with
         | Some d =>
             option_map (grid_cell 250 200 3 (Z.of_nat 1) d)
               (UmnProd.get_device_color d "s1-1")
         | None => None
         end.
Proof.
  eexists. split; [vm_compute; reflexivity|].
  refine (proj2 (proj2 (proj2 simple_emitters_grid))
            ["s1-1-c"; "s1-1-a"; "s1-1-b"] [] "s1-1" _ _ 1%nat).
  vm_compute. reflexivity.
Defined.

(** ** Colours of the UMN-PROD generator *)

Lemma split_chr_nonempty (c : ascii) (s : string) : split_chr c s <> [].
Proof.
  destruct s as [|a s]; cbn [split_chr]; [discriminate|].
  destruct (Ascii.eqb a c); [discriminate|].
  destruct (split_chr c s); discriminate.
Qed.

Lemma split_chr_no_sep (c : ascii) (s : string) :
  ~ In c (list_ascii_of_string s) -> split_chr c s = [s].
Proof.
  induction s as [|a s IH]; cbn [split_chr list_ascii_of_string];
    [reflexivity|].
  intros N. destruct (Ascii.eqb_spec a c) as [->|_].
  - exfalso. apply N. now left.
  - rewrite IH by (intros H; apply N; now right). reflexivity.
Qed.

Lemma split_chr_sep (c : ascii) (s : string) :
  In c (list_ascii_of_string s) ->
  exists a b rest, split_chr c s = a :: b :: rest.
Proof.
  induction s as [|x s IH]; cbn [split_chr list_ascii_of_string];
    [intros []|].
  intros H. destruct (Ascii.eqb_spec x c) as [->|N].
  - destruct (split_chr c s) as [|b rest] eqn:E;
      [now apply split_chr_nonempty in E|].
    now exists EmptyString, b, rest.
  - destruct H as [->|H]; [congruence|].
    destruct (IH H) as (a & b & rest & ->). now exists (String x a), b, rest.
Qed.

(** The site prefix of the UMN-PROD generator exists exactly for a site
    with a hyphen, and then it holds a hyphen. *)
Lemma site_az_of_spec (site : string) :
  match UmnProd.site_az_of site with
  | Some site_az =>
      In hyphen (list_ascii_of_string site)
      /\ In hyphen (list_ascii_of_string site_az)
      /\ nth_error (split_chr hyphen site) 1 <> None
  | None => ~ In hyphen (list_ascii_of_string site)
  end.
Proof.
  unfold UmnProd.site_az_of.
  destruct (in_dec ascii_dec hyphen (list_ascii_of_string site)) as [H|H].
  - destruct (split_chr_sep _ _ H) as (a & b & rest & ->). cbn [nth_error].
    split; [assumption|]. split; [|discriminate].
    rewrite list_ascii_app. apply in_app_iff. right. now left.
  - rewrite (split_chr_no_sep _ _ H). exact H.
Qed.

(** Group 1 of the site pattern holds lowercase letters and digits
    only. *)
Lemma match_site_az (s az dc rest : string) :
  match_site s = Some (az, dc, rest) ->
  Forall (fun c => is_alnum c = true) (list_ascii_of_string az).
Proof.
  unfold match_site.
  destruct (span is_lower (list_ascii_of_string s)) as [ls r1] eqn:S1.
  destruct (span is_digit r1) as [d1 r2] eqn:S2.
  destruct ls as [|l0 ls]; [discriminate|].
  destruct d1 as [|c1 d1]; [discriminate|].
  destruct r2 as [|h r3]; [discriminate|].
  destruct (Ascii.eqb h hyphen); [|discriminate].
  destruct (span is_digit r3) as [d2 r4].
  destruct d2 as [|c2 d2]; [discriminate|].
  intros H. injection H as <- _ _.
  apply span_spec in S1, S2.
  destruct S1 as (_ & F1 & _), S2 as (_ & F2 & _).
  change (Forall (fun c => is_alnum c = true)
            (list_ascii_of_string
               (string_of_list_ascii ((l0 :: ls) ++ c1 :: d1)))).
  rewrite list_ascii_of_string_of_list_ascii. apply Forall_app. split.
  - apply (Forall_impl _ (P := fun c => is_lower c = true)); [|exact F1].
    intros c Hc. unfold is_alnum. now rewrite Hc.
  - apply (Forall_impl _ (P := fun c => is_digit c = true)); [|exact F2].
    intros c Hc. unfold is_alnum. rewrite Hc. apply orb_true_r.
Qed.

Lemma az_is_not_site_prefix (device az dc rest site site_az : string) :
  match_site device = Some (az, dc, rest) ->
  UmnProd.site_az_of site = Some site_az ->
  (az =? site_az) = false.
Proof.
  intros M S. apply String.eqb_neq. intros ->.
  apply match_site_az in M.
  pose proof (site_az_of_spec site) as P. rewrite S in P.
  destruct P as (_ & P & _).
  apply (proj1 (Forall_forall _ _) M) in P. discriminate P.
Qed.

Lemma prod_color_fails (device site : string) :
  UmnProd.get_device_color device site = None
  <-> ~ In hyphen (list_ascii_of_string site).
Proof.
  unfold UmnProd.get_device_color.
  pose proof (site_az_of_spec site) as P.
  destruct (UmnProd.site_az_of site) as [site_az|].
  - destruct P as (P1 & _ & P3).
    destruct (nth_error (split_chr hyphen site) 1) as [site_dc|];
      [|congruence].
    split; [|tauto].
    destruct (startswith device _); [discriminate|].
    destruct (match_site device) as [[[az dc] rest]|]; [|discriminate].
    destruct (startswith rest "-"); [|discriminate].
    destruct (_ && _); [discriminate|].
    destruct (negb _); discriminate.
  - tauto.
Qed.

(** X4.  Colours of the UMN-PROD generator.  [get_device_color] raises
    exactly for a site without hyphen.  It never returns the colour
    [#D5E8D4] of a device of the same zone and another data centre: the
    site prefix it compares against holds a hyphen and the zone read
    from a device name holds none.  A device whose name begins with a
    zone, a data centre and a hyphen, and which is not a core device of
    the site, is given the colour [#DAE8FC] of another zone, whatever
    its zone. *)
Theorem prod_color_never_same_zone :
  (forall device site,
     UmnProd.get_device_color device site = None
     <-> ~ In hyphen (list_ascii_of_string site))
  /\ (forall device site,
        UmnProd.get_device_color device site <> Some "#D5E8D4")
  /\ (forall device site az dc rest,
        In hyphen (list_ascii_of_string site) ->
        startswith device (site ++ "-ws-mgmt-cor") = false ->
        match_site device = Some (az, dc, rest) ->
        startswith rest "-" = true ->
        UmnProd.get_device_color device site = Some "#DAE8FC").
Proof.
  split; [exact prod_color_fails|split].
  - intros device site. unfold UmnProd.get_device_color.
    destruct (UmnProd.site_az_of site) as [site_az|] eqn:S; [|discriminate].
    destruct (nth_error (split_chr hyphen site) 1) as [site_dc|];
      [|discriminate].
    destruct (startswith device _); [discriminate|].
    destruct (contains "-v1" device || contains "-v2" device).
    + destruct (match_site device) as [[[az dc] rest]|] eqn:M; [|discriminate].
      rewrite (az_is_not_site_prefix _ _ _ _ _ _ M S). cbn.
      destruct (startswith rest "-"); discriminate.
    + destruct (match_site device) as [[[az dc] rest]|] eqn:M; [|discriminate].
      rewrite (az_is_not_site_prefix _ _ _ _ _ _ M S). cbn.
      destruct (startswith rest "-"); discriminate.
  - intros device site az dc rest Hs Hr M R. unfold UmnProd.get_device_color.
    pose proof (site_az_of_spec site) as P.
    destruct (UmnProd.site_az_of site) as [site_az|] eqn:S; [|contradiction].
    destruct P as (_ & _ & P3).
    destruct (nth_error (split_chr hyphen site) 1) as [site_dc|];
      [|congruence].
    rewrite Hr, M, R, (az_is_not_site_prefix _ _ _ _ _ _ M S). reflexivity.
Qed.

(** The colour of a device of another zone. *)
Lemma prod_color_never_same_zone_witness :
  UmnProd.get_device_color "nrt55-62-es-e1-r1" "bjs11-11" = Some "#DAE8FC".
Proof.
  apply (proj2 (proj2 prod_color_never_same_zone)
           "nrt55-62-es-e1-r1" "bjs11-11" "nrt55" "62" "-es-e1-r1").
  - vm_compute. repeat first [left; reflexivity | right].
  - reflexivity.
  - reflexivity.
  - reflexivity.
Defined.




(** ** The corp-NAP grouper *)

Lemma corp_assign_all (members : list string) (name : string) :
  forall gd, CorpNap.assign_all members name gd
             = Dsn.assign_all members name gd.
Proof. induction members as [|m ms IH]; intros gd; [reflexivity|apply IH]. Qed.

Lemma corp_name_loop_run (groups : sdict (list string)) :
  forall acc, CorpNap.name_loop groups acc = run_groups corp_step groups acc.
Proof.
  induction groups as [|[b ms] gs IH]; intros acc; [reflexivity|].
  cbn [CorpNap.name_loop run_groups corp_step]. fold (corp_pair_name b ms).
  destruct (List.length ms =? 2)%nat; [apply IH|].
  destruct ms as [|m ms]; [reflexivity|apply IH].
Qed.

Lemma corp_step_spec (g : string * list string) (acc acc' : sdict string) :
  corp_step g acc = Some acc' ->
  forall d, dget String.eqb d acc'
            = match corp_assigned g d with
              | Some v => Some v
              | None => dget String.eqb d acc
              end.
Proof.
  destruct g as [b ms]. unfold corp_step, corp_assigned.
  destruct (List.length ms =? 2)%nat.
  - intros H d. inversion H; subst. rewrite corp_assign_all, dget_assign_all.
    now destruct (mem d ms).
  - destruct ms as [|m ms]; [discriminate|].
    intros H d. inversion H; subst. rewrite dget_dset.
    now destruct (d =? m)%string.
Qed.

Lemma corp_key_unsuffixed (d : string) :
  corp_suffixed d = false -> corp_key d = d.
Proof.
  unfold corp_suffixed, corp_key. intros H.
  destruct (endswith d "-r101"); [discriminate|].
  destruct (endswith d "-r102"); [discriminate|].
  destruct (endswith d "-r1"); [discriminate|].
  destruct (endswith d "-r2"); [discriminate|reflexivity].
Qed.

(** One step of the first loop of the corp-NAP grouper. *)
Lemma corp_group_loop_step (d : string) (ds : list string)
    (acc : sdict (list string)) :
  CorpNap.group_loop (d :: ds) acc
  = CorpNap.group_loop ds
      (if corp_suffixed d then dappend String.eqb (corp_key d) d acc
       else dset String.eqb d [d] acc).
Proof.
  cbn [CorpNap.group_loop]. unfold corp_suffixed, corp_key.
  destruct (endswith d "-r101"); [reflexivity|].
  destruct (endswith d "-r102"); [reflexivity|].
  destruct (endswith d "-r1"); [reflexivity|].
  destruct (endswith d "-r2"); reflexivity.
Qed.

(** Without overwriting, the first loop of the corp-NAP grouper groups
    by key. *)
Lemma corp_group_loop_append (devices : list string) :
  NoDup devices -> corp_separated devices ->
  forall acc,
    (forall d, In d devices -> corp_suffixed d = false ->
               dget String.eqb d acc = None) ->
    CorpNap.group_loop devices acc
    = append_loop corp_key (fun d => d) devices acc.
Proof.
  induction devices as [|d ds IH]; intros N S acc F; [reflexivity|].
  rewrite corp_group_loop_step. cbn [append_loop].
  apply NoDup_cons_iff in N. destruct N as [Nd N].
  assert (S' : corp_separated ds).
  { intros x x' Hx Hx'. apply S; now right. }
  destruct (corp_suffixed d) eqn:E.
  - apply IH; try assumption. intros d' Hd' E'.
    unfold dappend. rewrite dget_dupd.
    destruct (String.eqb_spec d' (corp_key d)) as [->|_].
    + exfalso. apply (S (corp_key d) d); auto; [now right|now left].
    + apply F; [now right|assumption].
  - rewrite (corp_key_unsuffixed d E).
    replace (dset String.eqb d [d] acc) with (dappend String.eqb d d acc).
    + apply IH; try assumption. intros d' Hd' E'.
      unfold dappend. rewrite dget_dupd.
      destruct (String.eqb_spec d' d) as [->|_]; [contradiction|].
      apply F; [now right|assumption].
    + unfold dappend, dset. specialize (F d (or_introl eq_refl) E).
      clear - F. induction acc as [|[k0 v0] acc IHa]; cbn in *; [reflexivity|].
      destruct (String.eqb d k0); [discriminate|]. now rewrite IHa.
Qed.

Lemma corp_bucket_group (devices : list string) (d : string) :
  bucket corp_key (fun x => x) devices (corp_key d) = corp_group devices d.
Proof. unfold bucket, corp_group. apply map_id. Qed.

Lemma corp_assigned_other (devices : list string) (d b : string) :
  b <> corp_key d ->
  corp_assigned (b, bucket corp_key (fun x => x) devices b) d = None.
Proof.
  intros Nb. unfold corp_assigned, bucket. rewrite map_id.
  set (ms := filter (fun d0 => corp_key d0 =? b) devices).
  assert (Hm : forall x, In x ms -> corp_key x = b).
  { intros x Hx. apply filter_In in Hx. now apply String.eqb_eq. }
  destruct (List.length ms =? 2)%nat.
  - destruct (mem d ms) eqn:M; [|reflexivity].
    apply mem_In in M. apply Hm in M. congruence.
  - destruct ms as [|m ms']; [reflexivity|].
    destruct (String.eqb_spec d m) as [->|]; [|reflexivity].
    exfalso. apply Nb. symmetry. apply Hm. now left.
Qed.

Lemma corp_assigned_own (devices : list string) (d : string) :
  In d devices ->
  corp_assigned (corp_key d, bucket corp_key (fun x => x) devices (corp_key d))
    d
  = corp_entry devices d.
Proof.
  intros Hd. rewrite corp_bucket_group. unfold corp_assigned, corp_entry.
  assert (Hin : In d (corp_group devices d)).
  { apply filter_In. split; [assumption|apply String.eqb_refl]. }
  destruct (List.length (corp_group devices d) =? 2)%nat.
  - apply mem_In in Hin. now rewrite Hin.
  - destruct (corp_group devices d) as [|m ms]; [reflexivity|].
    destruct (String.eqb_spec d m) as [->|]; reflexivity.
Qed.

(** The first loop never leaves an empty group. *)
Lemma corp_group_loop_nonempty (devices : list string) :
  forall acc,
    (forall b ms, In (b, ms) acc -> ms <> []) ->
    forall b ms, In (b, ms) (CorpNap.group_loop devices acc) -> ms <> [].
Proof.
  assert (U : forall (k : string) (f : option (list string) -> list string)
                (acc : sdict (list string)),
            (forall o, f o <> []) ->
            (forall b ms, In (b, ms) acc -> ms <> []) ->
            forall b ms, In (b, ms) (dupd String.eqb k f acc) -> ms <> []).
  { intros k f acc Hf. induction acc as [|[k0 v0] acc IHa]; cbn; intros Ha b ms.
    - intros [H|[]]. inversion H; subst. apply Hf.
    - destruct (String.eqb k k0); cbn.
      + intros [H|H]; [inversion H; subst; apply Hf|].
        apply (Ha b ms). now right.
      + intros [H|H]; [apply (Ha b ms); now left|].
        apply (IHa (fun b' ms' H' => Ha b' ms' (or_intror H')) b ms H). }
  induction devices as [|d ds IH]; intros acc Ha; [exact Ha|].
  rewrite corp_group_loop_step. apply IH.
  destruct (corp_suffixed d).
  - apply U; [|exact Ha]. intros [l|]; [|discriminate].
    destruct l; discriminate.
  - apply U; [|exact Ha]. discriminate.
Qed.

Lemma corp_name_loop_total (groups : sdict (list string)) :
  (forall b ms, In (b, ms) groups -> ms <> []) ->
  forall acc, CorpNap.name_loop groups acc <> None.
Proof.
  induction groups as [|[b ms] gs IH]; intros Hg acc; [discriminate|].
  cbn [CorpNap.name_loop].
  assert (Hgs : forall b' ms', In (b', ms') gs -> ms' <> [])
    by (intros b' ms' H; apply (Hg b' ms'); now right).
  destruct (List.length ms =? 2)%nat; [now apply IH|].
  destruct ms as [|m ms]; [|now apply IH].
  exfalso. apply (Hg b []); [now left|reflexivity].
Qed.

(** The corp-NAP grouper on a duplicate-free list of separated devices:
    the entry of every device. *)
Lemma corp_group_devices_spec (devices : list string) :
  NoDup devices -> corp_separated devices ->
  exists m,
    CorpNap.group_devices devices = Some m
    /\ forall d, In d devices ->
         dget String.eqb d m = corp_entry devices d.
Proof.
  intros N S. unfold CorpNap.group_devices.
  rewrite corp_group_loop_append by (try assumption; reflexivity).
  rewrite corp_name_loop_run.
  destruct (append_loop_groups corp_key (fun d => d) devices)
    as (Nk & He & Hi).
  set (groups := append_loop corp_key (fun d => d) devices []) in *.
  assert (Own : forall g, In g groups -> exists d, In d devices
                 /\ g = (corp_key d,
                         bucket corp_key (fun x => x) devices (corp_key d))).
  { intros [b ms] Hg. destruct (He b ms Hg) as [-> Hne].
    unfold bucket in Hne. rewrite map_id in Hne.
    destruct (filter (fun d => corp_key d =? b) devices) as [|d l] eqn:F;
      [congruence|].
    assert (Hd : In d (filter (fun d => corp_key d =? b) devices))
      by (rewrite F; now left).
    apply filter_In in Hd. destruct Hd as [Hd Kd].
    apply String.eqb_eq in Kd. subst b. now exists d. }
  destruct (run_groups_total corp_step groups)
    with (acc := @nil (string * string)) as [m Hm].
  { intros [b ms] Hg acc. destruct (He b ms Hg) as [_ Hne].
    unfold corp_step. destruct (List.length ms =? 2)%nat; [discriminate|].
    destruct ms; [congruence|discriminate]. }
  exists m. split; [assumption|]. intros d Hd.
  rewrite (run_groups_get corp_step corp_assigned corp_step_spec
             groups [] m Hm d).
  destruct (corp_entry devices d) as [v|] eqn:E.
  + apply written_agree.
    * intros g Hg. destruct (Own g Hg) as (d' & Hd' & ->).
      destruct (string_dec (corp_key d') (corp_key d)) as [K|K].
      -- right. rewrite K, <- E. now apply corp_assigned_own.
      -- left. now apply corp_assigned_other.
    * right.
      exists (corp_key d,
              bucket corp_key (fun x => x) devices (corp_key d)).
      split; [now apply Hi|]. rewrite <- E. now apply corp_assigned_own.
  + apply written_none. intros g Hg. destruct (Own g Hg) as (d' & Hd' & ->).
    destruct (string_dec (corp_key d') (corp_key d)) as [K|K].
    * rewrite K, <- E. now apply corp_assigned_own.
    * now apply corp_assigned_other.
Qed.

(** X6.  The corp-NAP grouper never raises.  On a duplicate-free list
    of devices in which no suffix-less name is the key of a device with
    one of the suffixes [-r101], [-r102], [-r1], [-r2], a device whose
    group has exactly two members is mapped to the key followed by
    [-r10[12]] when a member holds [-r101], and by [-r[12]] otherwise;
    in a group of any other size only the first device is mapped (to
    itself), and the later devices of the group get no entry. *)
Theorem corp_group_devices_entries :
  (forall devices, CorpNap.group_devices devices <> None)
  /\ (forall devices,
        NoDup devices -> corp_separated devices ->
        exists m,
          CorpNap.group_devices devices = Some m
          /\ forall d, In d devices ->
               dget String.eqb d m = corp_entry devices d).
Proof.
  split.
  - intros devices. unfold CorpNap.group_devices.
    apply corp_name_loop_total.
    apply corp_group_loop_nonempty. intros b ms [].
  - exact corp_group_devices_spec.
Qed.

Ltac corp_separated_by_cases :=
  let d := fresh "d" in
  let d' := fresh "d'" in
  let E := fresh "E" in
  let E' := fresh "E'" in
  let Hd := fresh "Hd" in
  let Hd' := fresh "Hd'" in
  intros d d' Hd Hd' E E';
  cbn [In] in Hd, Hd';
  repeat (destruct Hd as [<- | Hd]); try contradiction;
  vm_compute in E; try discriminate E;
  repeat (destruct Hd' as [<- | Hd']); try contradiction;
  vm_compute in E'; try discriminate E';
  vm_compute; discriminate.

(** The property at a pair, a group of three and a lone device. *)
Lemma corp_group_devices_entries_witness :
  exists m,
    CorpNap.group_devices ["a-r101"; "a-r102"; "b-r1"; "b-r2"; "b-r101"; "c"]
    = Some m
    /\ forall d,
         In d ["a-r101"; "a-r102"; "b-r1"; "b-r2"; "b-r101"; "c"] ->
         dget String.eqb d m
         = corp_entry ["a-r101"; "a-r102"; "b-r1"; "b-r2"; "b-r101"; "c"] d.
Proof.
  apply (proj2 corp_group_devices_entries).
  - nodup_by_cases.
  - corp_separated_by_cases.
Defined.

Example corp_group_of_three :
  CorpNap.group_devices ["a-r101"; "a-r102"; "b-r1"; "b-r2"; "b-r101"; "c"]
  = Some [("a-r101", "a-r10[12]"); ("a-r102", "a-r10[12]"); ("b-r1", "b-r1");
          ("c", "c")].
Proof. reflexivity. Qed.

(** ** Extraction from corp-NAP attribute files *)

Lemma hostname_loop_fails (ls : list string) :
  forall cur devices,
    CorpNap.hostname_loop ls cur devices = None
    <-> exists l, In l ls /\ is_hostname_line l = true
                  /\ hostname_of l = None.
Proof.
  induction ls as [|l ls IH]; intros cur devices; cbn [CorpNap.hostname_loop].
  - split; [discriminate|intros (l & [] & _)].
  - fold (is_hostname_line l). fold (hostname_of l).
    destruct (is_hostname_line l) eqn:H.
    + destruct (hostname_of l) as [d|] eqn:D.
      * rewrite IH. split.
        -- intros (l' & Hl & B). exists l'. split; [now right|assumption].
        -- intros (l' & [<-|Hl] & B1 & B2); [congruence|]. now exists l'.
      * split; [|reflexivity]. intros _. exists l. split; [now left|]. now split.
    + rewrite IH. split.
      * intros (l' & Hl & B). exists l'. split; [now right|assumption].
      * intros (l' & [<-|Hl] & B1 & B2); [congruence|]. now exists l'.
Qed.

Lemma hostname_loop_devices (ls : list string) :
  forall cur devices cur' devices',
    CorpNap.hostname_loop ls cur devices = Some (cur', devices') ->
    NoDup devices -> (forall c, cur = Some c -> In c devices) ->
    NoDup devices' /\ (forall c, cur' = Some c -> In c devices').
Proof.
  induction ls as [|l ls IH]; intros cur devices cur' devices';
    cbn [CorpNap.hostname_loop].
  - intros H. inversion H; subst. tauto.
  - destruct (startswith (strip l) "HOSTNAME"); [|apply IH].
    destruct (nth_error (split_ws (strip l)) 1) as [d|]; [|discriminate].
    intros H N C. apply (IH _ _ _ _ H); [now apply set_add_NoDup|].
    intros c E. inversion E; subst. apply set_add_In. now left.
Qed.

Lemma corp_conn_loop_inv (pick : string -> option (string * string))
    (cur : option string) (ls : list string) :
  (forall l d ty, pick l = Some (d, ty) -> corp_type ty) ->
  forall devices connections,
    (forall c, cur = Some c -> In c devices) ->
    corp_parse_inv devices connections ->
    corp_parse_inv
      (fst (CorpNap.conn_loop pick cur ls devices connections))
      (snd (CorpNap.conn_loop pick cur ls devices connections))
    /\ forall c, cur = Some c ->
         In c (fst (CorpNap.conn_loop pick cur ls devices connections)).
Proof.
  intros Hp. induction ls as [|l ls IH]; intros devices connections C I;
    cbn [CorpNap.conn_loop]; [now split|].
  destruct (pick l) as [[d ty]|] eqn:P; [|now apply IH].
  assert (C' : forall c, cur = Some c -> In c (set_add d devices))
    by (intros c E; apply set_add_In; right; now apply C).
  assert (I0 : corp_parse_inv (set_add d devices) connections).
  { destruct I as [N He]. split; [now apply set_add_NoDup|].
    intros e H. destruct (He e H) as (A & B & T).
    repeat split; try assumption; apply set_add_In; now right. }
  destruct cur as [cd|]; [|now apply IH].
  destruct (truthy (Some cd)); [|now apply IH].
  apply IH; [assumption|]. destruct I0 as [N He]. split; [assumption|].
  intros e H. apply in_app_iff in H. destruct H as [H|[<-|[]]].
  - now apply He.
  - cbn. split; [now apply C'|]. split; [apply set_add_In; now left|].
    now apply (Hp l d ty).
Qed.

Lemma corp_parse_consistent (ls : list string) (devices : list string)
    (connections : list conn) :
  CorpNap.parse_lines ls = Some (devices, connections) ->
  corp_parse_inv devices connections.
Proof.
  unfold CorpNap.parse_lines.
  destruct (CorpNap.hostname_loop ls None []) as [[cur d0]|] eqn:H;
    [|discriminate].
  apply hostname_loop_devices in H; [|constructor|discriminate].
  destruct H as [N0 C0].
  assert (I0 : corp_parse_inv d0 []) by (split; [assumption|intros e []]).
  destruct (corp_conn_loop_inv (CorpNap.with_type "customer" CorpNap.customer_line)
              cur ls) with (devices := d0) (connections := @nil conn)
    as [I1 C1]; try assumption.
  { intros l d ty. unfold CorpNap.with_type.
    destruct (CorpNap.customer_line l); [|discriminate].
    intros E. inversion E; subst. now left. }
  destruct (CorpNap.conn_loop (CorpNap.with_type "customer" CorpNap.customer_line)
              cur ls d0 []) as [d1 c1].
  cbn [fst snd] in I1, C1.
  destruct (corp_conn_loop_inv (CorpNap.with_type "ring" CorpNap.ring_line)
              cur ls) with (devices := d1) (connections := c1)
    as [I2 C2]; try assumption.
  { intros l d ty. unfold CorpNap.with_type.
    destruct (CorpNap.ring_line l); [|discriminate].
    intros E. inversion E; subst. now right; left. }
  destruct (CorpNap.conn_loop (CorpNap.with_type "ring" CorpNap.ring_line)
              cur ls d1 c1) as [d2 c2].
  cbn [fst snd] in I2, C2.
  destruct (corp_conn_loop_inv CorpNap.peer_line cur ls)
    with (devices := d2) (connections := c2) as [I3 _]; try assumption.
  { intros l d ty. unfold CorpNap.peer_line.
    destruct (_ && _); [|discriminate].
    destruct (3 <=? _)%nat; [|discriminate].
    destruct (last_item _); [|discriminate].
    intros E. inversion E; subst.
    destruct (contains "FWPEER" (strip l));
      [right; right; now left|right; right; now right]. }
  intros E. injection E as E. rewrite E in I3. exact I3.
Qed.

(** X7.  [parse_attr_content] raises exactly when some [HOSTNAME] line
    names no device.  Otherwise the device set it returns has no
    duplicate, and every edge has both ends in the device set and one
    of the types [customer], [ring], [nap_firewall] and
    [nap_inter_region]. *)
Theorem corp_parse_closed (content : string) :
  (CorpNap.parse_attr_content content = None
   <-> exists l, In l (lines content) /\ is_hostname_line l = true
                 /\ hostname_of l = None)
  /\ forall devices connections,
       CorpNap.parse_attr_content content = Some (devices, connections) ->
       NoDup devices
       /\ forall e, In e connections ->
            In (source e) devices /\ In (target e) devices
            /\ corp_type (ctype e).
Proof.
  split.
  - rewrite <- (hostname_loop_fails (lines content) None []).
    unfold CorpNap.parse_attr_content, CorpNap.parse_lines.
    destruct (CorpNap.hostname_loop (lines content) None []) as [[cur d0]|];
      [|tauto].
    split; [|discriminate].
    destruct (CorpNap.conn_loop _ cur (lines content) d0 []) as [d1 c1].
    destruct (CorpNap.conn_loop _ cur (lines content) d1 c1) as [d2 c2].
    discriminate.
  - intros devices connections. apply corp_parse_consistent.
Qed.

(** The extraction at a file of one device and one ring connection. *)
Lemma corp_parse_closed_witness :
  let content :=
    ("HOSTNAME a-r101" ++ nl ++ "RINGLAG ae1 DESC b-r101")%string in
  exists devices connections,
    CorpNap.parse_attr_content content = Some (devices, connections)
    /\ NoDup devices
    /\ forall e, In e connections ->
         In (source e) devices /\ In (target e) devices
         /\ corp_type (ctype e).
Proof.
  cbv zeta. eexists _, _. split; [vm_compute; reflexivity|].
  apply (proj2 (corp_parse_closed
                  ("HOSTNAME a-r101" ++ nl ++ "RINGLAG ae1 DESC b-r101"))).
  vm_compute. reflexivity.
Defined.

(** ** From the parsed input to the document, corp-NAP and UMN-PROD *)






(** ** Zone, data centre and fabric of a device name *)

Lemma string_of_list_app (a b : list ascii) :
  string_of_list_ascii (a ++ b)
  = (string_of_list_ascii a ++ string_of_list_ascii b)%string.
Proof. induction a as [|c a IH]; [reflexivity|]. cbn. now rewrite IH. Qed.

Lemma prefix_app (p q : string) : String.prefix p (p ++ q) = true.
Proof.
  induction p as [|c p IH]; [apply prefix_nil|].
  cbn [String.append]. rewrite prefix_cons, Ascii.eqb_refl. exact IH.
Qed.

Lemma chars_nonempty (s : string) :
  list_ascii_of_string s <> [] <-> s <> EmptyString.
Proof. destruct s; cbn; split; congruence. Qed.

(** The characters of a device name that begins with a zone, a hyphen,
    a number and a hyphen. *)
Lemma zone_dc_chars (az dc rest : string) :
  list_ascii_of_string (az ++ "-" ++ dc ++ "-" ++ rest)
  = (list_ascii_of_string az
     ++ hyphen :: list_ascii_of_string dc
     ++ hyphen :: list_ascii_of_string rest)%list.
Proof. now rewrite !list_ascii_app. Qed.

Lemma extract_az_built (az dc rest : string) :
  is_zone az -> is_number dc ->
  UmnEc2._extract_az (az ++ "-" ++ dc ++ "-" ++ rest) = az.
Proof.
  intros (ls & ds & E & Nl & Fl & Nd & Fd) _.
  unfold UmnEc2._extract_az. rewrite zone_dc_chars, E, <- app_assoc.
  destruct ls as [|l0 ls]; [congruence|].
  destruct ds as [|c1 ds]; [congruence|].
  rewrite (span_app is_lower (l0 :: ls));
    [|assumption|inversion Fd; subst; now apply digit_not_lower].
  rewrite (span_app is_digit (c1 :: ds)); [|assumption|reflexivity].
  rewrite Ascii.eqb_refl, <- E. apply string_of_list_ascii_of_string.
Qed.

Lemma match_site_built (az dc : string) (rest : list ascii) :
  is_zone az -> is_number dc ->
  match rest with [] => True | c :: _ => is_digit c = false end ->
  match_site
    (string_of_list_ascii
       (list_ascii_of_string az ++ hyphen :: list_ascii_of_string dc ++ rest))
  = Some (az, dc, string_of_list_ascii rest).
Proof.
  intros (ls & ds & E & Nl & Fl & Nd & Fd) [Nc Fc] Hr.
  unfold match_site. rewrite list_ascii_of_string_of_list_ascii.
  rewrite E, <- app_assoc.
  destruct ls as [|l0 ls]; [congruence|].
  destruct ds as [|c1 ds]; [congruence|].
  rewrite (span_app is_lower (l0 :: ls));
    [|assumption|inversion Fd; subst; now apply digit_not_lower].
  rewrite (span_app is_digit (c1 :: ds)); [|assumption|reflexivity].
  rewrite Ascii.eqb_refl.
  rewrite (span_app is_digit (list_ascii_of_string dc) rest Fc Hr).
  apply chars_nonempty in Nc.
  destruct (list_ascii_of_string dc) as [|c2 d2] eqn:D; [congruence|].
  rewrite <- D, <- E, !string_of_list_ascii_of_string. reflexivity.
Qed.

Lemma extract_dc_built (az dc rest : string) :
  is_zone az -> is_number dc ->
  UmnEc2._extract_dc (az ++ "-" ++ dc ++ "-" ++ rest) = dc.
Proof.
  intros Z D. unfold UmnEc2._extract_dc.
  rewrite <- (string_of_list_ascii_of_string (az ++ "-" ++ dc ++ "-" ++ rest)).
  rewrite zone_dc_chars.
  rewrite (match_site_built az dc (hyphen :: list_ascii_of_string rest) Z D
             eq_refl).
  unfold startswith. cbn [string_of_list_ascii].
  now rewrite prefix_cons, Ascii.eqb_refl, prefix_nil.
Qed.

Lemma init_built (az dc : string) :
  is_zone az -> is_number dc ->
  UmnEc2.init (az ++ "-" ++ dc) = Some (az, dc).
Proof.
  intros Z D. unfold UmnEc2.init.
  rewrite <- (string_of_list_ascii_of_string (az ++ "-" ++ dc)).
  rewrite !list_ascii_app.
  replace (list_ascii_of_string dc)
    with (list_ascii_of_string dc ++ [])%list by apply app_nil_r.
  change (list_ascii_of_string "-" ++ list_ascii_of_string dc ++ [])%list
    with (hyphen :: list_ascii_of_string dc ++ [])%list.
  now rewrite (match_site_built az dc [] Z D I).
Qed.

(** What [match_site] returns, read back. *)
Lemma match_site_parts (s az dc rest : string) :
  match_site s = Some (az, dc, rest) ->
  is_zone az /\ is_number dc /\ s = (az ++ "-" ++ dc ++ rest)%string.
Proof.
  unfold match_site.
  destruct (span is_lower (list_ascii_of_string s)) as [ls r1] eqn:S1.
  destruct (span is_digit r1) as [d1 r2] eqn:S2.
  destruct ls as [|l0 ls]; [discriminate|].
  destruct d1 as [|c1 d1]; [discriminate|].
  destruct r2 as [|h r3]; [discriminate|].
  destruct (Ascii.eqb_spec h hyphen) as [->|]; [|discriminate].
  destruct (span is_digit r3) as [d2 r4] eqn:S3.
  destruct d2 as [|c2 d2]; [discriminate|].
  intros H. injection H as <- <- <-.
  apply span_spec in S1, S2, S3.
  destruct S1 as (E1 & F1 & _), S2 as (E2 & F2 & _), S3 as (E3 & F3 & _).
  split; [|split].
  - exists (l0 :: ls), (c1 :: d1).
    change (String l0 (string_of_list_ascii (ls ++ c1 :: d1)))
      with (string_of_list_ascii ((l0 :: ls) ++ c1 :: d1)).
    rewrite list_ascii_of_string_of_list_ascii.
    repeat split; try assumption; discriminate.
  - split; [discriminate|].
    change (String c2 (string_of_list_ascii d2))
      with (string_of_list_ascii (c2 :: d2)).
    now rewrite list_ascii_of_string_of_list_ascii.
  - apply list_ascii_inj. rewrite E1, E2, E3.
    change (String l0 (string_of_list_ascii (ls ++ c1 :: d1)))
      with (string_of_list_ascii ((l0 :: ls) ++ c1 :: d1)).
    change (String c2 (string_of_list_ascii d2))
      with (string_of_list_ascii (c2 :: d2)).
    rewrite !list_ascii_app, !list_ascii_of_string_of_list_ascii.
    cbn [list_ascii_of_string app]. rewrite <- !app_assoc. reflexivity.
Qed.

Lemma unknown_is_no_zone : ~ is_zone "unknown".
Proof.
  intros (ls & ds & E & _ & _ & Nd & Fd).
  destruct ds as [|c ds]; [congruence|].
  inversion Fd as [|? ? Hc _]; subst.
  assert (H : In c (list_ascii_of_string "unknown"))
    by (rewrite E; apply in_app_iff; right; now left).
  cbn in H.
  repeat (destruct H as [<-|H]; [discriminate Hc|]). destruct H.
Qed.

(** X10.  Zone and data centre of a device name.  On a name that
    begins with a zone (lowercase letters, then digits), a hyphen, a
    number and a hyphen, [_extract_az] returns the zone and
    [_extract_dc] the number, and they are the pair that [__init__]
    reads from the site made of the same zone and number.  Conversely,
    whenever [_extract_dc] does not answer ['unknown'], the name begins
    with the zone of [_extract_az], a hyphen, the number and a hyphen;
    and [_extract_dc] answers ['unknown'] whenever [_extract_az]
    does. *)
Theorem extract_zone_and_dc :
  (forall az dc rest,
     is_zone az -> is_number dc ->
     UmnEc2._extract_az (az ++ "-" ++ dc ++ "-" ++ rest) = az
     /\ UmnEc2._extract_dc (az ++ "-" ++ dc ++ "-" ++ rest) = dc
     /\ UmnEc2.init (az ++ "-" ++ dc) = Some (az, dc))
  /\ (forall name,
        UmnEc2._extract_dc name = "unknown"
        \/ exists rest,
             is_zone (UmnEc2._extract_az name)
             /\ is_number (UmnEc2._extract_dc name)
             /\ name = (UmnEc2._extract_az name ++ "-"
                        ++ UmnEc2._extract_dc name ++ "-" ++ rest)%string)
  /\ (forall name,
        UmnEc2._extract_az name = "unknown" ->
        UmnEc2._extract_dc name = "unknown").
Proof.
  assert (Back : forall name,
            UmnEc2._extract_dc name = "unknown"
            \/ exists rest,
                 is_zone (UmnEc2._extract_az name)
                 /\ is_number (UmnEc2._extract_dc name)
                 /\ name = (UmnEc2._extract_az name ++ "-"
                            ++ UmnEc2._extract_dc name ++ "-" ++ rest)%string).
  { intros name. unfold UmnEc2._extract_dc at 1 2 3.
    destruct (match_site name) as [[[az dc] rest]|] eqn:M; [|now left].
    destruct (match_site_parts _ _ _ _ M) as (Z & D & E).
    destruct rest as [|h rest]; [now left|].
    unfold startswith. rewrite prefix_cons, prefix_nil, andb_true_r.
    destruct (Ascii.eqb_spec "-"%char h) as [<-|]; [|now left].
    right. exists rest.
    assert (A : UmnEc2._extract_az name = az)
      by (rewrite E; now apply (extract_az_built az dc rest)).
    rewrite A. repeat split; try assumption; try apply Z; apply D. }
  split; [|split].
  - intros az dc rest Z D. split; [now apply extract_az_built|].
    split; [now apply extract_dc_built|now apply init_built].
  - exact Back.
  - intros name U. destruct (Back name) as [H|(rest & Z & _)]; [exact H|].
    rewrite U in Z. now apply unknown_is_no_zone in Z.
Qed.

Lemma extract_zone_and_dc_witness :
  UmnEc2._extract_az ("nrt55" ++ "-" ++ "62" ++ "-" ++ "es-mgmt-cor-r1")
  = "nrt55"
  /\ UmnEc2._extract_dc ("nrt55" ++ "-" ++ "62" ++ "-" ++ "es-mgmt-cor-r1")
     = "62"
  /\ UmnEc2.init ("nrt55" ++ "-" ++ "62") = Some ("nrt55", "62").
Proof.
  apply (proj1 extract_zone_and_dc).
  - exists (list_ascii_of_string "nrt"), (list_ascii_of_string "55").
    repeat split; try discriminate; cbn; repeat constructor.
  - split; [discriminate|]. cbn. repeat constructor.
Defined.

(** ** The fabric of a device name *)

Lemma strip_prefix_spec (p l rest : list ascii) :
  strip_prefix p l = Some rest <-> l = (p ++ rest)%list.
Proof.
  revert l. induction p as [|a p IH]; intros l; cbn [strip_prefix app].
  - split; congruence.
  - destruct l as [|b l]; [split; discriminate|].
    destruct (Ascii.eqb_spec a b) as [<-|N].
    + rewrite IH. split; congruence.
    + split; [discriminate|congruence].
Qed.

Lemma contains_app (sub p q : string) : contains sub (p ++ sub ++ q) = true.
Proof.
  induction p as [|c p IH].
  - cbn [String.append]. destruct (sub ++ q)%string eqn:E; cbn [contains];
      rewrite <- E, prefix_app; reflexivity.
  - cbn [String.append contains]. rewrite IH. apply orb_true_r.
Qed.

Lemma hyphen_not_alnum : is_alnum hyphen = false.
Proof. reflexivity. Qed.

Lemma fabric_at_sound (l : list ascii) (f : string) :
  UmnEc2.fabric_at l = Some f ->
  exists x r,
    l = (list_ascii_of_string "-es-" ++ list_ascii_of_string x
         ++ hyphen :: r)%list
    /\ is_word x /\ f = ("es-" ++ x)%string.
Proof.
  unfold UmnEc2.fabric_at.
  destruct (strip_prefix (list_ascii_of_string "-es-") l) as [rest|] eqn:P;
    [|discriminate].
  apply strip_prefix_spec in P.
  destruct (span is_alnum rest) as [nm r] eqn:S.
  apply span_spec in S. destruct S as (E & F & _).
  destruct nm as [|c nm]; [discriminate|].
  destruct r as [|h r]; [discriminate|].
  destruct (Ascii.eqb_spec h hyphen) as [->|]; [|discriminate].
  intros H. injection H as <-.
  exists (string_of_list_ascii (c :: nm)), r.
  rewrite list_ascii_of_string_of_list_ascii. split; [now rewrite P, E|].
  split; [|reflexivity]. split; [discriminate|].
  now rewrite list_ascii_of_string_of_list_ascii.
Qed.

Lemma search_fabric_sound (l : list ascii) (f : string) :
  UmnEc2.search_fabric l = Some f ->
  exists p x r,
    l = (p ++ list_ascii_of_string "-es-" ++ list_ascii_of_string x
         ++ hyphen :: r)%list
    /\ is_word x /\ f = ("es-" ++ x)%string.
Proof.
  induction l as [|c l IH]; cbn [UmnEc2.search_fabric].
  - destruct (UmnEc2.fabric_at []) eqn:A; [|discriminate].
    intros H. injection H as ->.
    destruct (fabric_at_sound _ _ A) as (x & r & E & W & F).
    now exists [], x, r.
  - destruct (UmnEc2.fabric_at (c :: l)) eqn:A.
    + intros H. injection H as ->.
      destruct (fabric_at_sound _ _ A) as (x & r & E & W & F).
      now exists [], x, r.
    + intros H. destruct (IH H) as (p & x & r & E & W & F).
      exists (c :: p), x, r. now rewrite E.
Qed.

Lemma search_fabric_complete (p : list ascii) (x : string) (r : list ascii) :
  is_word x ->
  UmnEc2.search_fabric
    (p ++ list_ascii_of_string "-es-" ++ list_ascii_of_string x
     ++ hyphen :: r) <> None.
Proof.
  intros [Nx Fx].
  assert (At : UmnEc2.fabric_at
                 (list_ascii_of_string "-es-" ++ list_ascii_of_string x
                  ++ hyphen :: r) <> None).
  { unfold UmnEc2.fabric_at.
    replace (strip_prefix (list_ascii_of_string "-es-")
               (list_ascii_of_string "-es-" ++ list_ascii_of_string x
                ++ hyphen :: r))
      with (Some (list_ascii_of_string x ++ hyphen :: r)%list)
      by (symmetry; now apply strip_prefix_spec).
    rewrite (span_app is_alnum _ (hyphen :: r) Fx hyphen_not_alnum).
    apply chars_nonempty in Nx.
    destruct (list_ascii_of_string x); [congruence|].
    rewrite Ascii.eqb_refl. discriminate. }
  induction p as [|c p IH].
  - cbn [app]. set (l := (_ ++ _)%list) in *.
    destruct l; cbn [UmnEc2.search_fabric];
      destruct (UmnEc2.fabric_at _); congruence.
  - cbn [app UmnEc2.search_fabric].
    match goal with
    | |- match ?t with _ => _ end <> _ => destruct t
    end; [discriminate|exact IH].
Qed.

(** X11.  The fabric of a device name.  [_extract_fabric] answers
    either ['unknown'] or [es-] followed by a word of lowercase letters
    and digits, and then the name holds that text between two hyphens.
    It does not answer ['unknown'] on a name that holds, between two
    hyphens, [es-] followed by such a word. *)
Theorem extract_fabric_spec :
  (forall name,
     UmnEc2._extract_fabric name = "unknown"
     \/ exists x,
          is_word x
          /\ UmnEc2._extract_fabric name = ("es-" ++ x)%string
          /\ contains ("-es-" ++ x ++ "-") name = true)
  /\ (forall p x q,
        is_word x ->
        UmnEc2._extract_fabric (p ++ "-es-" ++ x ++ "-" ++ q) <> "unknown").
Proof.
  split.
  - intros name. unfold UmnEc2._extract_fabric.
    destruct (UmnEc2.search_fabric (list_ascii_of_string name)) as [f|] eqn:S;
      [|now left].
    right. destruct (search_fabric_sound _ _ S) as (p & x & r & E & W & ->).
    exists x. split; [assumption|]. split; [reflexivity|].
    assert (N : name = (string_of_list_ascii p ++ ("-es-" ++ x ++ "-")
                        ++ string_of_list_ascii r)%string).
    { apply list_ascii_inj. rewrite E, !list_ascii_app.
      rewrite !list_ascii_of_string_of_list_ascii, <- !app_assoc.
      reflexivity. }
    rewrite N. apply contains_app.
  - intros p x q W. unfold UmnEc2._extract_fabric.
    pose proof (search_fabric_complete (list_ascii_of_string p) x
                  (list_ascii_of_string q) W) as C.
    replace (list_ascii_of_string (p ++ "-es-" ++ x ++ "-" ++ q))
      with (list_ascii_of_string p ++ list_ascii_of_string "-es-"
            ++ list_ascii_of_string x ++ hyphen :: list_ascii_of_string q)%list
      by (now rewrite !list_ascii_app).
    destruct (UmnEc2.search_fabric _) as [f|] eqn:S; [|congruence].
    destruct (search_fabric_sound _ _ S) as (_ & x' & _ & _ & _ & ->).
    discriminate.
Qed.

(** The fabric of a management core router. *)
Lemma extract_fabric_spec_witness :
  UmnEc2._extract_fabric ("nrt55-62" ++ "-es-" ++ "mgmt" ++ "-" ++ "cor-r1")
  <> "unknown".
Proof.
  apply (proj2 extract_fabric_spec "nrt55-62" "mgmt" "cor-r1").
  split; [discriminate|]. cbn. repeat constructor.
Defined.

(** ** The brick URL of the console generator *)

Lemma lower_upper_chr (c : ascii) :
  is_lower c = true -> Console.lower_chr (UmnEc2.upper_chr c) = c.
Proof.
  unfold Console.lower_chr, UmnEc2.upper_chr, is_lower. intros H. rewrite H.
  apply andb_true_iff in H. destruct H as [H1 H2].
  apply Nat.leb_le in H1, H2.
  rewrite nat_ascii_embedding by lia.
  replace ((65 <=? nat_of_ascii c - 32) && (nat_of_ascii c - 32 <=? 90))%nat
    with true
    by (symmetry; apply andb_true_iff; split; apply Nat.leb_le; lia).
  replace (nat_of_ascii c - 32 + 32)%nat with (nat_of_ascii c) by lia.
  apply ascii_nat_embedding.
Qed.

Lemma lower_upper (l : list ascii) :
  Forall (fun c => is_lower c = true) l ->
  Console.lower (UmnEc2.upper (string_of_list_ascii l))
  = string_of_list_ascii l.
Proof.
  induction 1 as [|c l H F IH]; [reflexivity|].
  cbn [string_of_list_ascii UmnEc2.upper Console.lower].
  now rewrite lower_upper_chr, IH.
Qed.

(** X12.  The brick URL of the console generator.
    [construct_brick_url] raises exactly when the site does not begin
    with a lowercase letter.  On a site that begins with exactly three
    lowercase letters it returns the URL that [construct_brick_url] of
    [generate_brick_url.py] returns for the same site and fabric. *)
Theorem console_brick_url :
  (forall site fabric,
     Console.construct_brick_url site fabric = None
     <-> match site with
         | String c _ => is_lower c = false
         | EmptyString => True
         end)
  /\ (forall a b c rest fabric,
        is_lower a = true -> is_lower b = true -> is_lower c = true ->
        match rest with
        | String d _ => is_lower d = false
        | EmptyString => True
        end ->
        Console.construct_brick_url (String a (String b (String c rest))) fabric
        = UmnEc2.construct_brick_url (String a (String b (String c rest)))
            fabric).
Proof.
  split.
  - intros site fabric. unfold Console.construct_brick_url.
    destruct site as [|c site]; cbn [list_ascii_of_string span];
      [tauto|].
    destruct (is_lower c).
    + destruct (span is_lower (list_ascii_of_string site)).
      split; discriminate.
    + tauto.
  - intros a b c rest fabric Ha Hb Hc Hr.
    unfold Console.construct_brick_url, UmnEc2.construct_brick_url.
    cbn [list_ascii_of_string].
    assert (S : span is_lower (a :: b :: c :: list_ascii_of_string rest)
                = ([a; b; c], list_ascii_of_string rest)).
    { apply (span_app is_lower [a; b; c]).
      - repeat constructor; assumption.
      - destruct rest; [exact I|exact Hr]. }
    rewrite S, Ha, Hb, Hc. cbn [andb].
    rewrite (lower_upper [a; b; c]) by (repeat constructor; assumption).
    cbn [string_of_list_ascii UmnEc2.upper String.append]. reflexivity.
Qed.

Lemma console_brick_url_witness :
  Console.construct_brick_url
    (String "b" (String "j" (String "s" "11-11"))) "es-mgmt-cor"
  = UmnEc2.construct_brick_url
      (String "b" (String "j" (String "s" "11-11"))) "es-mgmt-cor".
Proof.
  apply (proj2 console_brick_url); reflexivity.
Defined.

(** ** Connections of the complete UMN-EC2 generator *)

Lemma existsb_pair (k : string * string) (seen : list (string * string)) :
  existsb (pair_eqb k) seen = true <-> In k seen.
Proof.
  rewrite existsb_exists. split.
  - intros (x & Hx & E). apply pair_eqb_spec in E. now subst.
  - intros H. exists k. split; [assumption|now apply pair_eqb_spec].
Qed.

Lemma count_unique_key {A : Type} (f : A -> string * string) (l : list A)
    (k : string * string) :
  NoDup (map f l) -> In k (map f l) ->
  count (fun e => pair_eqb (f e) k) l = 1.
Proof.
  unfold count. induction l as [|x l IH]; cbn [map filter]; [intros _ []|].
  intros N H. apply NoDup_cons_iff in N. destruct N as [Nx N].
  destruct (pair_eqb (f x) k) eqn:E.
  - apply pair_eqb_spec in E. subst k. cbn [List.length]. f_equal.
    clear - Nx. induction l as [|y l IH]; [reflexivity|]. cbn [filter].
    destruct (pair_eqb (f y) (f x)) eqn:E.
    + apply pair_eqb_spec in E. exfalso. apply Nx. left. exact E.
    + apply IH. intros H. apply Nx. now right.
  - destruct H as [H|H]; [|now apply IH].
    subst k. assert (T : pair_eqb (f x) (f x) = true) by now apply pair_eqb_spec.
    congruence.
Qed.

Lemma complete_dedup_loop_spec (conns : list UmnEc2Complete.connection) :
  forall seen unique,
    seen = map ends_of unique -> NoDup seen ->
    let r := UmnEc2Complete.dedup_loop conns seen unique in
    NoDup (map ends_of r)
    /\ (forall x, In x unique -> In x r)
    /\ (forall x, In x r -> In x unique \/ In x conns)
    /\ (forall c, In c conns -> In (ends_of c) (map ends_of r))
    /\ (forall c c0, In c conns -> ~ In (ends_of c) seen ->
          find (fun c' => same_ends c' c) conns = Some c0 -> In c0 r).
Proof.
  induction conns as [|c cs IH]; intros seen unique Hs N; cbn zeta.
  - cbn [UmnEc2Complete.dedup_loop]. subst seen.
    split; [assumption|]. split; [tauto|]. split; [tauto|].
    split; [intros c []|intros c c0 []].
  - cbn [UmnEc2Complete.dedup_loop]. fold (ends_of c).
    destruct (existsb (pair_eqb (ends_of c)) seen) eqn:E.
    + apply existsb_pair in E.
      destruct (IH seen unique Hs N) as (A & B & C & D & F).
      split; [assumption|]. split; [assumption|].
      split; [intros x Hx; destruct (C x Hx) as [H|H];
              [now left|right; now right]|].
      split.
      * intros c' [<-|Hc']; [|now apply D].
        rewrite Hs in E. apply in_map_iff in E. destruct E as (u & Eu & Hu).
        apply in_map_iff. exists u. split; [assumption|now apply B].
      * intros c' c0 Hc' Hn. cbn [find].
        destruct (same_ends c c') eqn:Sm.
        -- apply pair_eqb_spec in Sm. unfold ends_of in *. congruence.
        -- destruct Hc' as [<-|Hc'].
           ++ assert (T : same_ends c c = true) by now apply pair_eqb_spec.
              congruence.
           ++ now apply F.
    + assert (En : ~ In (ends_of c) seen).
      { intros H. apply existsb_pair in H. congruence. }
      destruct (IH (seen ++ [ends_of c])%list (unique ++ [c])%list)
        as (A & B & C & D & F).
      { rewrite map_app, Hs. reflexivity. }
      { apply NoDup_app; [assumption|constructor; [intros []|constructor]|].
        intros a Ha [<-|[]]. contradiction. }
      split; [assumption|].
      split; [intros x Hx; apply B, in_app_iff; now left|].
      split.
      { intros x Hx. destruct (C x Hx) as [H|H]; [|right; now right].
        apply in_app_iff in H. destruct H as [H|[<-|[]]]; [now left|].
        right. now left. }
      split.
      * intros c' [<-|Hc']; [|now apply D].
        apply in_map_iff. exists c. split; [reflexivity|].
        apply B, in_app_iff. right. now left.
      * intros c' c0 Hc' Hn. cbn [find].
        destruct (same_ends c c') eqn:Sm.
        -- intros H. injection H as <-. apply B, in_app_iff. right. now left.
        -- destruct Hc' as [<-|Hc'].
           ++ assert (T : same_ends c c = true) by now apply pair_eqb_spec.
              congruence.
           ++ apply F; [assumption|]. intros H. apply in_app_iff in H.
              destruct H as [H|[H|[]]]; [contradiction|].
              assert (T : same_ends c c' = true) by now apply pair_eqb_spec.
              congruence.
Qed.

(** A list in which no unordered pair occurs twice, and none already
    seen, is appended as it is. *)
Lemma complete_dedup_loop_fresh (conns : list UmnEc2Complete.connection) :
  forall seen unique,
    NoDup (map ends_of conns) ->
    (forall c, In c conns -> ~ In (ends_of c) seen) ->
    UmnEc2Complete.dedup_loop conns seen unique = (unique ++ conns)%list.
Proof.
  induction conns as [|c cs IH]; intros seen unique N D;
    cbn [UmnEc2Complete.dedup_loop]; [now rewrite app_nil_r|].
  fold (ends_of c). cbn [map] in N. apply NoDup_cons_iff in N.
  destruct N as [Nc N].
  destruct (existsb (pair_eqb (ends_of c)) seen) eqn:E.
  - apply existsb_pair in E. exfalso. apply (D c); [now left|assumption].
  - rewrite IH; [now rewrite <- app_assoc|assumption|].
    intros c' Hc' H. apply in_app_iff in H. destruct H as [H|[H|[]]].
    + apply (D c'); [now right|assumption].
    + apply Nc. rewrite H. apply in_map_iff. now exists c'.
Qed.

(** X13.  [_deduplicate_connections] keeps, for every unordered pair
    of devices joined by a connection, exactly one connection, the
    first one of the input, unchanged; it returns nothing that is not
    in the input; applying it twice changes nothing; and, unlike the
    canonicalisation of the other generators, it keeps a connection
    from a device to itself. *)
Theorem complete_dedup_first_per_pair :
  (forall conns c,
     In c conns ->
     count (fun e => same_ends e c) (UmnEc2Complete._deduplicate_connections conns)
     = 1
     /\ exists c0,
          find (fun c' => same_ends c' c) conns = Some c0
          /\ In c0 (UmnEc2Complete._deduplicate_connections conns))
  /\ (forall conns c,
        In c (UmnEc2Complete._deduplicate_connections conns) -> In c conns)
  /\ (forall conns,
        UmnEc2Complete._deduplicate_connections
          (UmnEc2Complete._deduplicate_connections conns)
        = UmnEc2Complete._deduplicate_connections conns)
  /\ (forall conns c,
        In c conns ->
        UmnEc2Complete.conn_source c = UmnEc2Complete.conn_target c ->
        exists c0,
          In c0 (UmnEc2Complete._deduplicate_connections conns)
          /\ UmnEc2Complete.conn_source c0 = UmnEc2Complete.conn_source c
          /\ UmnEc2Complete.conn_target c0 = UmnEc2Complete.conn_source c).
Proof.
  assert (Spec : forall conns,
            let r := UmnEc2Complete._deduplicate_connections conns in
            NoDup (map ends_of r)
            /\ (forall x, In x r -> In x conns)
            /\ (forall c, In c conns -> In (ends_of c) (map ends_of r))
            /\ (forall c, In c conns -> exists c0,
                  find (fun c' => same_ends c' c) conns = Some c0
                  /\ In c0 r /\ same_ends c0 c = true)).
  { intros conns. cbn zeta. unfold UmnEc2Complete._deduplicate_connections.
    destruct (complete_dedup_loop_spec conns [] [] eq_refl (NoDup_nil _))
      as (A & _ & C & D & F).
    split; [assumption|].
    split; [intros x Hx; destruct (C x Hx) as [[]|H]; exact H|].
    split; [assumption|].
    intros c Hc.
    destruct (find (fun c' => same_ends c' c) conns) as [c0|] eqn:Fd.
    - exists c0. split; [reflexivity|]. split; [now apply (F c)|].
      now apply find_some in Fd.
    - exfalso. apply (find_none _ _ Fd) in Hc.
      assert (T : same_ends c c = true) by now apply pair_eqb_spec.
      congruence. }
  split; [|split; [|split]].
  - intros conns c Hc. destruct (Spec conns) as (A & _ & D & F).
    split.
    + apply (count_unique_key ends_of); [assumption|now apply D].
    + destruct (F c Hc) as (c0 & Fd & Hin & _). now exists c0.
  - intros conns c. apply (Spec conns).
  - intros conns. destruct (Spec conns) as (A & _).
    unfold UmnEc2Complete._deduplicate_connections at 1.
    rewrite complete_dedup_loop_fresh; [reflexivity|assumption|].
    intros c _ [].
  - intros conns c Hc Hl. destruct (Spec conns) as (_ & _ & _ & F).
    destruct (F c Hc) as (c0 & _ & Hin & Sm). exists c0.
    split; [assumption|].
    apply pair_eqb_spec in Sm. unfold ends_of in Sm.
    apply sorted_pair_inj in Sm. rewrite <- Hl in *.
    destruct Sm as [[A B]|[A B]]; split; congruence.
Qed.

(** A connection and its reverse: one of the two is kept. *)
Lemma complete_dedup_first_per_pair_witness :
  let c1 := UmnEc2Complete.mkConnection "a" "b" "e0" None None None in
  let c2 := UmnEc2Complete.mkConnection "b" "a" "e1" None None None in
  count (fun e => same_ends e c2)
    (UmnEc2Complete._deduplicate_connections [c1; c2]) = 1%nat
  /\ exists c0,
       find (fun c' => same_ends c' c2) [c1; c2] = Some c0
       /\ In c0 (UmnEc2Complete._deduplicate_connections [c1; c2]).
Proof.
  cbv zeta.
  apply (proj1 complete_dedup_first_per_pair
           [UmnEc2Complete.mkConnection "a" "b" "e0" None None None;
            UmnEc2Complete.mkConnection "b" "a" "e1" None None None]).
  right. now left.
Defined.

Lemma permutation_insert {A : Type} (a b : list A) (c : A) :
  Permutation (a ++ [c] ++ b) ((a ++ b) ++ [c]).
Proof.
  rewrite <- app_assoc. apply Permutation_app_head. apply Permutation_app_comm.
Qed.

Lemma all_types_add (k : UmnEc2Complete.kind) (c : UmnEc2Complete.connection)
    (t : UmnEc2Complete.connection_types) :
  Permutation (all_types (UmnEc2Complete.add_to k c t)) (all_types t ++ [c]).
Proof.
  destruct t as [l1 l2 l3 l4 l5]. unfold all_types.
  destruct k; cbn [UmnEc2Complete.add_to UmnEc2Complete.inter_az
                     UmnEc2Complete.intra_az UmnEc2Complete.es_c1
                     UmnEc2Complete.local UmnEc2Complete.other].
  - rewrite <- app_assoc. apply (permutation_insert l1).
  - replace (l1 ++ (l2 ++ [c]) ++ l3 ++ l4 ++ l5)%list
      with ((l1 ++ l2) ++ [c] ++ l3 ++ l4 ++ l5)%list
      by (now rewrite <- !app_assoc).
    replace (l1 ++ l2 ++ l3 ++ l4 ++ l5)%list
      with ((l1 ++ l2) ++ l3 ++ l4 ++ l5)%list by (now rewrite <- !app_assoc).
    apply permutation_insert.
  - replace (l1 ++ l2 ++ (l3 ++ [c]) ++ l4 ++ l5)%list
      with ((l1 ++ l2 ++ l3) ++ [c] ++ l4 ++ l5)%list
      by (now rewrite <- !app_assoc).
    replace (l1 ++ l2 ++ l3 ++ l4 ++ l5)%list
      with ((l1 ++ l2 ++ l3) ++ l4 ++ l5)%list by (now rewrite <- !app_assoc).
    apply permutation_insert.
  - replace (l1 ++ l2 ++ l3 ++ (l4 ++ [c]) ++ l5)%list
      with ((l1 ++ l2 ++ l3 ++ l4) ++ [c] ++ l5)%list
      by (now rewrite <- !app_assoc).
    replace (l1 ++ l2 ++ l3 ++ l4 ++ l5)%list
      with ((l1 ++ l2 ++ l3 ++ l4) ++ l5)%list by (now rewrite <- !app_assoc).
    apply permutation_insert.
  - now rewrite !app_assoc.
Qed.

Lemma types_loop_permutation (devices : sdict UmnEc2Complete.device_info)
    (conns : list UmnEc2Complete.connection) :
  forall t,
    Permutation (all_types (UmnEc2Complete.types_loop devices conns t))
      (all_types t ++ conns).
Proof.
  induction conns as [|c cs IH]; intros t; cbn [UmnEc2Complete.types_loop].
  - now rewrite app_nil_r.
  - rewrite IH. rewrite (all_types_add _ c t), <- app_assoc. reflexivity.
Qed.

Lemma types_loop_kinds (devices : sdict UmnEc2Complete.device_info)
    (conns : list UmnEc2Complete.connection) :
  forall t,
    let r := UmnEc2Complete.types_loop devices conns t in
    UmnEc2Complete.inter_az r
    = (UmnEc2Complete.inter_az t
       ++ of_kind devices conns UmnEc2Complete.InterAz)%list
    /\ UmnEc2Complete.intra_az r
       = (UmnEc2Complete.intra_az t
          ++ of_kind devices conns UmnEc2Complete.IntraAz)%list
    /\ UmnEc2Complete.es_c1 r
       = (UmnEc2Complete.es_c1 t
          ++ of_kind devices conns UmnEc2Complete.EsC1)%list
    /\ UmnEc2Complete.local r
       = (UmnEc2Complete.local t
          ++ of_kind devices conns UmnEc2Complete.Local)%list
    /\ UmnEc2Complete.other r
       = (UmnEc2Complete.other t
          ++ of_kind devices conns UmnEc2Complete.Other)%list.
Proof.
  unfold of_kind.
  induction conns as [|c cs IH]; intros t; cbn zeta.
  - cbn [UmnEc2Complete.types_loop filter]. now rewrite !app_nil_r.
  - cbn [UmnEc2Complete.types_loop filter].
    destruct (IH (UmnEc2Complete.add_to (UmnEc2Complete.kind_of devices c) c t))
      as (A & B & C & D & E).
    rewrite A, B, C, D, E. destruct t as [l1 l2 l3 l4 l5].
    destruct (UmnEc2Complete.kind_of devices c);
      cbn [UmnEc2Complete.add_to UmnEc2Complete.inter_az
             UmnEc2Complete.intra_az UmnEc2Complete.es_c1
             UmnEc2Complete.local UmnEc2Complete.other kind_eqb];
      rewrite <- ?app_assoc; repeat split; reflexivity.
Qed.

(** ** The document of the complete UMN-EC2 generator *)

Lemma dget_complete_assign_all (members : list string) (i : Z) (d : string) :
  forall dd,
    dget String.eqb d (UmnEc2Complete.assign_all members i dd)
    = if mem d members then Some i else dget String.eqb d dd.
Proof.
  induction members as [|m ms IH]; intros dd; [reflexivity|].
  cbn [UmnEc2Complete.assign_all mem existsb]. rewrite IH, dget_dset.
  fold (mem d ms). destruct (mem d ms); [now rewrite orb_true_r|].
  now rewrite orb_false_r.
Qed.

Lemma complete_color_total (devices : sdict UmnEc2Complete.device_info)
    (nm : string) (ms : list string) :
  ms <> [] -> UmnEc2Complete.determine_device_color devices nm ms <> None.
Proof.
  intros N. unfold UmnEc2Complete.determine_device_color.
  destruct (existsb (contains "bjs11-11") ms); [discriminate|].
  destruct ms as [|m ms]; [congruence|].
  destruct (dget String.eqb m devices) as [i|]; [|discriminate].
  repeat match goal with
         | |- (if ?b then _ else _) <> None => destruct b; [discriminate|]
         end.
  discriminate.
Qed.

Lemma add_device_nodes_ok (devices : sdict UmnEc2Complete.device_info)
    (groups : sdict (list string)) :
  forall placed start_y x y d2c i out d2c' i' out',
    nodes_ok placed d2c out ->
    UmnEc2Complete.add_device_nodes devices groups start_y x y d2c i out
    = Some (d2c', i', out') ->
    nodes_ok (placed ++ groups) d2c' out'.
Proof.
  induction groups as [|[nm ms] gs IH];
    intros placed start_y x y d2c i out d2c' i' out' Hok;
    cbn [UmnEc2Complete.add_device_nodes].
  - intros H. inversion H; subst. now rewrite app_nil_r.
  - destruct (UmnEc2Complete.determine_device_color devices nm ms)
      as [color|]; [|discriminate].
    destruct ms as [|m0 ms0] eqn:Ems; [discriminate|]. rewrite <- Ems.
    destruct (match dget String.eqb m0 devices with
              | Some j => (UmnEc2Complete.info_fabric j,
                           UmnEc2Complete.info_type j)
              | None => ("unknown", "unknown")
              end) as [fabric_type device_type].
    set (c := Vertex i _ _ x y 220 70).
    set (d2c1 := UmnEc2Complete.assign_all ms i (dset String.eqb nm i d2c)).
    assert (G : forall d, dget String.eqb d d2c1
                          = if mem d ms || (d =? nm)%string then Some i
                            else dget String.eqb d d2c).
    { intros d. unfold d2c1. rewrite dget_complete_assign_all, dget_dset.
      destruct (mem d ms); [reflexivity|]. reflexivity. }
    assert (Hok' : nodes_ok (placed ++ [(nm, ms)]) d2c1 (out ++ [c])).
    { destruct Hok as (H1 & H2 & H3 & H4). split; [|split; [|split]].
      - intros d. rewrite G.
        destruct (mem d ms || (d =? nm)%string) eqn:M.
        + split; [intros _|discriminate]. exists nm, ms.
          split; [apply in_app_iff; right; now left|].
          apply orb_true_iff in M. destruct M as [M|M].
          * right. now apply mem_In.
          * left. now apply String.eqb_eq.
        + rewrite H1. apply orb_false_iff in M. destruct M as [M1 M2].
          split.
          * intros (nm' & ms' & Hin & Hd). exists nm', ms'.
            split; [apply in_app_iff; now left|assumption].
          * intros (nm' & ms' & Hin & Hd). apply in_app_iff in Hin.
            destruct Hin as [Hin|[Hin|[]]]; [now exists nm', ms'|].
            inversion Hin; subst nm' ms'. exfalso.
            destruct Hd as [->|Hd].
            -- rewrite String.eqb_refl in M2. discriminate.
            -- apply mem_In in Hd. congruence.
      - intros d j. rewrite G, shape_ids_app.
        destruct (mem d ms || (d =? nm)%string).
        + intros E. inversion E; subst. apply in_app_iff. right. now left.
        + intros E. apply in_app_iff. left. now apply (H2 d).
      - rewrite connector_refs_app, H3. reflexivity.
      - rewrite shape_ids_app, !length_app, H4. reflexivity. }
    destruct (1800 <? y + 120)%Z; intros H.
    + specialize (IH _ _ _ _ _ _ _ _ _ _ Hok' H).
      now rewrite <- app_assoc in IH.
    + specialize (IH _ _ _ _ _ _ _ _ _ _ Hok' H).
      now rewrite <- app_assoc in IH.
Qed.

Lemma add_device_nodes_total (devices : sdict UmnEc2Complete.device_info)
    (groups : sdict (list string)) :
  (forall nm ms, In (nm, ms) groups -> ms <> []) ->
  forall start_y x y d2c i out,
    UmnEc2Complete.add_device_nodes devices groups start_y x y d2c i out
    <> None.
Proof.
  induction groups as [|[nm ms] gs IH]; intros Hne start_y x y d2c i out;
    cbn [UmnEc2Complete.add_device_nodes]; [discriminate|].
  assert (Hms : ms <> []) by (apply (Hne nm); now left).
  pose proof (complete_color_total devices nm ms Hms) as C.
  destruct (UmnEc2Complete.determine_device_color devices nm ms)
    as [color|]; [|congruence].
  destruct ms as [|m0 ms0]; [congruence|].
  destruct (match dget String.eqb m0 devices with
            | Some j => (UmnEc2Complete.info_fabric j,
                         UmnEc2Complete.info_type j)
            | None => ("unknown", "unknown")
            end) as [fabric_type device_type].
  assert (Hgs : forall nm' ms', In (nm', ms') gs -> ms' <> [])
    by (intros nm' ms' H; apply (Hne nm'); now right).
  destruct (1800 <? y + 120)%Z; now apply IH.
Qed.

Lemma complete_connections_loop_spec (conns : list UmnEc2Complete.connection)
    (d2c : sdict Z) :
  forall i out,
    let doc := snd (UmnEc2Complete.connections_loop conns d2c i out) in
    connector_refs doc
    = (connector_refs out ++ flat_map (complete_connector d2c) conns)%list
    /\ shape_ids doc = shape_ids out.
Proof.
  induction conns as [|c cs IH]; intros i out; cbn zeta.
  - cbn. now rewrite app_nil_r.
  - cbn [UmnEc2Complete.connections_loop flat_map]. unfold complete_connector at 1.
    destruct (dget String.eqb (UmnEc2Complete.conn_source c) d2c) as [s|];
      [|apply IH].
    destruct (dget String.eqb (UmnEc2Complete.conn_target c) d2c) as [t|];
      [|apply IH].
    match goal with
    | |- context [UmnEc2Complete.connections_loop cs d2c ?j ?o] =>
        destruct (IH j o) as [R V]
    end.
    cbn zeta in R, V. rewrite R, V, connector_refs_app, shape_ids_app.
    cbn. rewrite <- app_assoc, app_nil_r. split; reflexivity.
Qed.

Lemma length_flat_map_connector (d2c : sdict Z)
    (conns : list UmnEc2Complete.connection) :
  List.length (flat_map (complete_connector d2c) conns)
  = count (both_displayed d2c) conns.
Proof.
  unfold count. induction conns as [|c cs IH]; [reflexivity|].
  cbn [flat_map filter]. rewrite length_app, IH.
  unfold complete_connector, both_displayed, dmem.
  destruct (dget String.eqb (UmnEc2Complete.conn_source c) d2c);
    destruct (dget String.eqb (UmnEc2Complete.conn_target c) d2c);
    reflexivity.
Qed.

(** Every group is filed under exactly one category. *)
Lemma of_place_partition (devices : sdict UmnEc2Complete.device_info)
    (grouped : sdict (list string)) :
  let placed :=
    (of_place devices grouped UmnEc2Complete.Root
     ++ of_place devices grouped UmnEc2Complete.InterZone
     ++ of_place devices grouped UmnEc2Complete.IntraZone
     ++ of_place devices grouped UmnEc2Complete.Elsewhere)%list in
  List.length placed = List.length grouped
  /\ forall g, In g placed <-> In g grouped.
Proof.
  cbn zeta. unfold of_place. split.
  - rewrite !length_app.
    induction grouped as [|g l IH]; [reflexivity|]. cbn [filter].
    destruct (UmnEc2Complete.place_of devices (snd g));
      cbn [UmnEc2Complete.place_eqb List.length]; lia.
  - intros g. rewrite !in_app_iff, !filter_In. split; [tauto|].
    intros H.
    destruct (UmnEc2Complete.place_of devices (snd g));
      cbn [UmnEc2Complete.place_eqb]; tauto.
Qed.

Lemma complete_members_nonempty (b : string) (ms : list (string * string)) :
  ms <> [] -> complete_members (b, ms) <> [].
Proof.
  intros N. unfold complete_members.
  destruct (1 <? List.length ms)%nat.
  - intros E. apply (f_equal (@List.length _)) in E.
    rewrite length_map, length_sort in E. destruct ms; [congruence|discriminate].
  - destruct ms as [|[d o] ms']; [congruence|discriminate].
Qed.

(** The complete UMN-EC2 grouper returns on every list of devices, and
    leaves no group without a member. *)
Lemma complete_group_devices_total (devices : list string) :
  exists g,
    UmnEc2Complete.group_devices devices = Some g
    /\ forall nm ms, In (nm, ms) g -> ms <> [].
Proof.
  unfold UmnEc2Complete.group_devices.
  rewrite complete_group_loop_append, complete_name_loop_run.
  destruct (append_loop_groups complete_key complete_member devices)
    as (_ & He & _).
  set (groups := append_loop complete_key complete_member devices []) in *.
  destruct (run_groups_total complete_step groups)
    with (acc := @nil (string * list string)) as [m Hm].
  { intros [b ms] Hg acc. destruct (He b ms Hg) as [_ Hne].
    unfold complete_step, complete_name.
    destruct (1 <? List.length ms)%nat; [discriminate|].
    destruct ms as [|[d o] ms']; [congruence|discriminate]. }
  exists m. split; [assumption|]. intros nm ms Hin.
  destruct (complete_entries groups [] m Hm nm ms Hin)
    as [[]|([b ms'] & Hg & ->)].
  apply complete_members_nonempty. now destruct (He b ms' Hg).
Qed.

Lemma count_permutation {A : Type} (p : A -> bool) (l l' : list A) :
  Permutation l l' -> count p l = count p l'.
Proof.
  intros P. unfold count. apply Permutation_length.
  now apply filter_permutation.
Qed.

(** The document of the complete UMN-EC2 emitter for groups that all
    have a member. *)
Lemma complete_generate_spec (devices : sdict UmnEc2Complete.device_info)
    (grouped : sdict (list string)) (types : UmnEc2Complete.connection_types) :
  (forall nm ms, In (nm, ms) grouped -> ms <> []) ->
  exists device_to_cell doc,
    UmnEc2Complete.generate_drawio_xml devices grouped types = Some doc
    /\ (forall d, dget String.eqb d device_to_cell <> None
                  <-> exists nm ms, In (nm, ms) grouped /\ (d = nm \/ In d ms))
    /\ (forall d i, dget String.eqb d device_to_cell = Some i ->
          In i (shape_ids doc))
    /\ List.length (shape_ids doc) = List.length grouped
    /\ connector_refs doc
       = flat_map (complete_connector device_to_cell) (all_types types).
Proof.
  intros Hne. unfold UmnEc2Complete.generate_drawio_xml.
  fold (of_place devices grouped UmnEc2Complete.Root).
  fold (of_place devices grouped UmnEc2Complete.InterZone).
  fold (of_place devices grouped UmnEc2Complete.IntraZone).
  fold (of_place devices grouped UmnEc2Complete.Elsewhere).
  assert (Hp : forall p nm ms, In (nm, ms) (of_place devices grouped p) ->
                               ms <> []).
  { intros p nm ms H. apply filter_In in H. apply (Hne nm). tauto. }
  assert (Ok0 : nodes_ok [] [] []).
  { split; [|split; [|split]]; try reflexivity.
    - intros d. cbn. split; [congruence|]. intros (nm & ms & [] & _).
    - intros d i. discriminate. }
  destruct (UmnEc2Complete.add_device_nodes devices
              (of_place devices grouped UmnEc2Complete.Root) 100 1400 100 [] 2 [])
    as [[[d1 i1] o1]|] eqn:E1;
    [|exfalso; revert E1; apply add_device_nodes_total; apply Hp].
  pose proof (add_device_nodes_ok _ _ _ _ _ _ _ _ _ _ _ _ Ok0 E1) as Ok1.
  destruct (UmnEc2Complete.add_device_nodes devices
              (of_place devices grouped UmnEc2Complete.InterZone)
              400 100 400 d1 i1 o1)
    as [[[d2 i2] o2]|] eqn:E2;
    [|exfalso; revert E2; apply add_device_nodes_total; apply Hp].
  pose proof (add_device_nodes_ok _ _ _ _ _ _ _ _ _ _ _ _ Ok1 E2) as Ok2.
  destruct (UmnEc2Complete.add_device_nodes devices
              (of_place devices grouped UmnEc2Complete.IntraZone)
              600 1200 600 d2 i2 o2)
    as [[[d3 i3] o3]|] eqn:E3;
    [|exfalso; revert E3; apply add_device_nodes_total; apply Hp].
  pose proof (add_device_nodes_ok _ _ _ _ _ _ _ _ _ _ _ _ Ok2 E3) as Ok3.
  destruct (UmnEc2Complete.add_device_nodes devices
              (of_place devices grouped UmnEc2Complete.Elsewhere)
              400 2400 400 d3 i3 o3)
    as [[[d4 i4] o4]|] eqn:E4;
    [|exfalso; revert E4; apply add_device_nodes_total; apply Hp].
  pose proof (add_device_nodes_ok _ _ _ _ _ _ _ _ _ _ _ _ Ok3 E4) as Ok4.
  clear E1 E2 E3 E4 Ok0 Ok1 Ok2 Ok3.
  cbn [app] in Ok4. rewrite <- !app_assoc in Ok4.
  destruct (of_place_partition devices grouped) as [PL PI].
  cbn zeta in PL, PI.
  destruct Ok4 as (K1 & K2 & K3 & K4).
  pose proof (complete_connections_loop_spec
                (UmnEc2Complete.inter_az types) d4 i4 o4) as S1.
  destruct (UmnEc2Complete.connections_loop
              (UmnEc2Complete.inter_az types) d4 i4 o4) as [j1 p1].
  pose proof (complete_connections_loop_spec
                (UmnEc2Complete.intra_az types) d4 j1 p1) as S2.
  destruct (UmnEc2Complete.connections_loop
              (UmnEc2Complete.intra_az types) d4 j1 p1) as [j2 p2].
  pose proof (complete_connections_loop_spec
                (UmnEc2Complete.es_c1 types) d4 j2 p2) as S3.
  destruct (UmnEc2Complete.connections_loop
              (UmnEc2Complete.es_c1 types) d4 j2 p2) as [j3 p3].
  pose proof (complete_connections_loop_spec
                (UmnEc2Complete.local types) d4 j3 p3) as S4.
  destruct (UmnEc2Complete.connections_loop
              (UmnEc2Complete.local types) d4 j3 p3) as [j4 p4].
  pose proof (complete_connections_loop_spec
                (UmnEc2Complete.other types) d4 j4 p4) as S5.
  cbn [snd] in S1, S2, S3, S4, S5. cbn zeta in S5.
  destruct S1 as [R1 V1], S2 as [R2 V2], S3 as [R3 V3], S4 as [R4 V4],
    S5 as [R5 V5].
  exists d4. eexists. split; [reflexivity|].
  rewrite V5, V4, V3, V2, V1, R5, R4, R3, R2, R1, K3.
  split; [|split; [exact K2|split]].
  - intros d. rewrite K1. split; intros (nm & ms & Hin & Hd);
      exists nm, ms; (split; [now apply PI|assumption]).
  - now rewrite K4.
  - unfold all_types. cbn [app]. now rewrite !flat_map_app, <- !app_assoc.
Qed.

Lemma in_complete_connector (device_to_cell : sdict Z)
    (conns : list UmnEc2Complete.connection) (s t : Z) :
  In (s, t) (flat_map (complete_connector device_to_cell) conns) ->
  exists c, In c conns
            /\ dget String.eqb (UmnEc2Complete.conn_source c) device_to_cell
               = Some s
            /\ dget String.eqb (UmnEc2Complete.conn_target c) device_to_cell
               = Some t.
Proof.
  intros H. apply in_flat_map in H. destruct H as (c & Hc & Hin).
  exists c. split; [assumption|]. unfold complete_connector in Hin.
  destruct (dget String.eqb (UmnEc2Complete.conn_source c) device_to_cell);
    [|destruct Hin].
  destruct (dget String.eqb (UmnEc2Complete.conn_target c) device_to_cell);
    [|destruct Hin].
  destruct Hin as [E|[]]. inversion E. now subst.
Qed.

(** X14.  The complete UMN-EC2 generator files every connection under
    exactly one of its five types: each list of the result holds the
    connections of its type in the order of the input, and the five
    lists together are a rearrangement of the input, so no connection is
    lost and none is filed twice. *)
Theorem complete_connection_types_partition
    (devices : sdict UmnEc2Complete.device_info)
    (connections : list UmnEc2Complete.connection) :
  let t := UmnEc2Complete.identify_connection_types devices connections in
  UmnEc2Complete.inter_az t
  = of_kind devices connections UmnEc2Complete.InterAz
  /\ UmnEc2Complete.intra_az t
     = of_kind devices connections UmnEc2Complete.IntraAz
  /\ UmnEc2Complete.es_c1 t
     = of_kind devices connections UmnEc2Complete.EsC1
  /\ UmnEc2Complete.local t
     = of_kind devices connections UmnEc2Complete.Local
  /\ UmnEc2Complete.other t
     = of_kind devices connections UmnEc2Complete.Other
  /\ Permutation (all_types t) connections.
Proof.
  cbn zeta. unfold UmnEc2Complete.identify_connection_types.
  pose proof (types_loop_kinds devices connections
                (UmnEc2Complete.mkTypes [] [] [] [] [])) as K.
  cbn zeta in K. cbn [UmnEc2Complete.inter_az UmnEc2Complete.intra_az
    UmnEc2Complete.es_c1 UmnEc2Complete.local UmnEc2Complete.other app] in K.
  destruct K as (K1 & K2 & K3 & K4 & K5).
  repeat (split; [assumption|]).
  apply (types_loop_permutation devices connections
           (UmnEc2Complete.mkTypes [] [] [] [] [])).
Qed.

(** X15.  [run] of the complete UMN-EC2 generator returns a document
    for every parsed brick.  The document has one shape per display
    group; a name has a cell exactly when it is the name or a member of
    a group; the connectors are, type after type, those of the
    connections of which both ends have a cell, so their number is the
    number of such connections; and every connector joins two shapes of
    the document. *)
Theorem complete_run_document (brick_data : UmnEc2Complete.full_brick) :
  let devices :=
    UmnEc2Complete.parse_devices
      (UmnEc2Complete.brick_device_details brick_data) in
  let connections :=
    UmnEc2Complete.parse_connections
      (UmnEc2Complete.brick_nodes_and_interfaces brick_data) in
  exists grouped device_to_cell doc,
    UmnEc2Complete.group_devices (map fst devices) = Some grouped
    /\ UmnEc2Complete.run brick_data = Some doc
    /\ List.length (shape_ids doc) = List.length grouped
    /\ (forall d, dget String.eqb d device_to_cell <> None
                  <-> exists nm ms, In (nm, ms) grouped /\ (d = nm \/ In d ms))
    /\ connector_refs doc
       = flat_map (complete_connector device_to_cell)
           (all_types
              (UmnEc2Complete.identify_connection_types devices connections))
    /\ List.length (connector_refs doc)
       = count (both_displayed device_to_cell) connections
    /\ (forall s t, In (s, t) (connector_refs doc) ->
          In s (shape_ids doc) /\ In t (shape_ids doc)).
Proof.
  cbn zeta. unfold UmnEc2Complete.run.
  set (devices := UmnEc2Complete.parse_devices _).
  set (connections := UmnEc2Complete.parse_connections _).
  destruct (complete_group_devices_total (map fst devices))
    as (grouped & Hg & Hne).
  rewrite Hg.
  destruct (complete_generate_spec devices grouped
              (UmnEc2Complete.identify_connection_types devices connections)
              Hne)
    as (d2c & doc & Hdoc & K1 & K2 & K3 & K4).
  exists grouped, d2c, doc. split; [reflexivity|].
  repeat (split; [assumption|]). split.
  - rewrite K4, length_flat_map_connector. apply count_permutation.
    apply (types_loop_permutation devices connections
             (UmnEc2Complete.mkTypes [] [] [] [] [])).
  - intros s t H. rewrite K4 in H.
    destruct (in_complete_connector _ _ _ _ H) as (c & _ & Hs & Ht).
    split; [apply (K2 _ _ Hs)|apply (K2 _ _ Ht)].
Qed.




(** The document of that brick: two shapes, the first for the group of
    the two routers, and one connector. *)
Example complete_run_of_three :
  option_map (fun doc => (shape_ids doc, connector_refs doc))
    (UmnEc2Complete.run
       (UmnEc2Complete.mkFullBrick
          [("bjs11-11-es-c1-b1-r1",
            UmnEc2Complete.mkDetails (Some "juniper") None);
           ("bjs11-11-es-c1-b1-r2", UmnEc2Complete.mkDetails None None);
           ("bjs12-50-es-e1-b2-v1",
            UmnEc2Complete.mkDetails None (Some "edge"))]
          [("bjs11-11-es-c1-b1-r1",
            [("et-0/0/1",
              UmnEc2Complete.mkIfaceData (Some "bjs12-50-es-e1-b2-v1") None
                None None);
             ("et-0/0/2",
              UmnEc2Complete.mkIfaceData (Some "bjs20-70-es-x1-b9-r1") None
                None None)])]))
  = Some ([2; 3], [(2, 3)])%Z.
Proof. vm_compute. reflexivity. Qed.

(** ** The layout of the console diagram *)














(** ** The console grouper *)

Lemma console_group_loop_append (devices : list string) :
  forall acc,
    Console.group_loop devices acc
    = append_loop Console.strip_r12 (fun d => d) devices acc.
Proof.
  induction devices as [|d ds IH]; intros acc; [reflexivity|].
  cbn [Console.group_loop append_loop]. apply IH.
Qed.

Lemma strip_r12_pair (b : string) :
  Console.strip_r12 (b ++ "-r1") = b /\ Console.strip_r12 (b ++ "-r2") = b.
Proof.
  unfold Console.strip_r12.
  rewrite !list_ascii_app. cbn [list_ascii_of_string].
  rewrite !rev_app_distr. cbn [rev app Console.strip3].
  cbn. rewrite rev_involutive, string_of_list_ascii_of_string.
  split; reflexivity.
Qed.

(** X18.  The console grouper files every device under its name
    without a final [-r1] or [-r2]: no key occurs twice, the entry of a
    key lists, in sorted order, the devices that have it, and no entry
    is empty; so the two routers [b-r1] and [b-r2] of a pair are members
    of the group [b]. *)
Theorem console_groups_partition (devices : list string) :
  let groups := Console.group_devices devices in
  NoDup (map fst groups)
  /\ (forall b ms,
        In (b, ms) groups
        <-> ms <> []
            /\ ms = filter (fun d => Console.strip_r12 d =? b)%string
                      (PyStr.sorted devices))
  /\ (forall d, In d devices ->
        exists ms, In (Console.strip_r12 d, ms) groups /\ In d ms)
  /\ (forall b, In (b ++ "-r1")%string devices ->
        In (b ++ "-r2")%string devices ->
        exists ms, In (b, ms) groups
                   /\ In (b ++ "-r1")%string ms /\ In (b ++ "-r2")%string ms).
Proof.
  cbn zeta. unfold Console.group_devices.
  rewrite console_group_loop_append.
  destruct (append_loop_groups Console.strip_r12 (fun d => d)
              (PyStr.sorted devices)) as (Nk & He & Hi).
  cbn zeta in He, Hi.
  set (groups := append_loop _ _ _ _) in *.
  assert (B : forall b,
             bucket Console.strip_r12 (fun d => d) (PyStr.sorted devices) b
             = filter (fun d => Console.strip_r12 d =? b)%string
                 (PyStr.sorted devices))
    by (intros b; unfold bucket; apply map_id).
  assert (M : forall d, In d devices ->
                In d (filter (fun d0 => Console.strip_r12 d0
                                        =? Console.strip_r12 d)%string
                        (PyStr.sorted devices))).
  { intros d Hd. apply filter_In. split; [|apply String.eqb_refl].
    now apply In_sort. }
  split; [exact Nk|]. split; [|split].
  - intros b ms. split.
    + intros H. destruct (He b ms H) as [E Ne]. rewrite <- B. now split.
    + intros [Ne ->].
      destruct (filter (fun d => Console.strip_r12 d =? b)%string
                  (PyStr.sorted devices)) as [|d l] eqn:F; [congruence|].
      assert (Hd : In d (d :: l)) by now left.
      rewrite <- F in Hd. apply filter_In in Hd. destruct Hd as [Hd K].
      apply String.eqb_eq in K. subst b. rewrite <- F, <- B. now apply Hi.
  - intros d Hd. eexists. split.
    + apply Hi. now apply In_sort.
    + rewrite B. now apply M.
  - intros b H1 H2. destruct (strip_r12_pair b) as [S1 S2].
    exists (filter (fun d => Console.strip_r12 d =? b)%string
              (PyStr.sorted devices)).
    pose proof (Hi _ (proj2 (In_sort _ _ _) H1)) as G.
    pose proof (M _ H1) as G1. pose proof (M _ H2) as G2.
    rewrite S1, B in G. rewrite S1 in G1. rewrite S2 in G2.
    split; [exact G|]. split; [exact G1|exact G2].
Qed.

(** The group of a pair of routers. *)
Lemma console_groups_partition_witness :
  exists ms,
    In ("s1-1-a", ms)
      (Console.group_devices ["s1-1-a-r2"; "s1-1-b"; "s1-1-a-r1"])
    /\ In ("s1-1-a" ++ "-r1")%string ms /\ In ("s1-1-a" ++ "-r2")%string ms.
Proof.
  pose proof (console_groups_partition ["s1-1-a-r2"; "s1-1-b"; "s1-1-a-r1"])
    as H.
  cbv zeta in H.
  apply (proj2 (proj2 (proj2 H)) "s1-1-a").
  - right. right. now left.
  - now left.
Defined.

(** ** The simple UMN-EC2 generator *)

(** The members of every group of the complete UMN-EC2 grouper are
    devices of its input. *)
Lemma complete_group_members_listed (devices : list string)
    (g : sdict (list string)) :
  UmnEc2Complete.group_devices devices = Some g ->
  forall nm ms, In (nm, ms) g -> forall m, In m ms -> In m devices.
Proof.
  unfold UmnEc2Complete.group_devices.
  rewrite complete_group_loop_append, complete_name_loop_run.
  destruct (append_loop_groups complete_key complete_member devices)
    as (_ & He & _).
  intros Hm nm ms Hin m Hmem.
  destruct (complete_entries _ [] g Hm nm ms Hin)
    as [[]|([b ms'] & Hg & ->)].
  destruct (He b ms' Hg) as [-> _].
  apply complete_members_In in Hmem. now destruct Hmem.
Qed.

Lemma simple_color_total (root_az root_dc : string)
    (devices : sdict UmnEc2Complete.device_info) (nm m0 : string)
    (ms : list string) (i : UmnEc2Complete.device_info) :
  dget String.eqb m0 devices = Some i ->
  UmnEc2Simple.determine_device_color root_az root_dc devices nm (m0 :: ms)
  <> None.
Proof.
  intros G. unfold UmnEc2Simple.determine_device_color.
  destruct (existsb _ (m0 :: ms)); [discriminate|]. rewrite G.
  repeat match goal with
         | |- (if ?b then _ else _) <> None => destruct b; [discriminate|]
         end.
  discriminate.
Qed.

(** The loop of the simple emitter from column [col] of row [row]: it
    returns, and appends one shape per group, row by row in ten
    columns. *)
Lemma simple_device_loop_spec (root_az root_dc : string)
    (devices : sdict UmnEc2Complete.device_info)
    (groups : sdict (list string)) :
  (forall nm ms, In (nm, ms) groups ->
     exists m0 rest i, ms = m0 :: rest
                       /\ dget String.eqb m0 devices = Some i) ->
  forall row col cell_id out,
    (0 <= col < 10)%Z ->
    exists cells,
      UmnEc2Simple.device_loop root_az root_dc devices groups
        (100 + 250 * col) (100 + 150 * row) cell_id out
      = Some (out ++ cells)%list
      /\ List.length cells = List.length groups
      /\ connector_refs cells = []
      /\ forall j nm ms,
           nth_error groups j = Some (nm, ms) ->
           exists rest style,
             nth_error cells j
             = Some (Vertex (cell_id + Z.of_nat j)
                       ("<b>" ++ nm ++ "</b><br/><i>" ++ rest)%string style
                       (100 + 250 * ((col + Z.of_nat j) mod 10))
                       (100 + 150 * (row + (col + Z.of_nat j) / 10))
                       200 60).
Proof.
  induction groups as [|[nm ms] gs IH]; intros Hg row col cell_id out Hc.
  - exists []. cbn. rewrite app_nil_r. repeat split.
    intros [|j] ? ?; discriminate.
  - destruct (Hg nm ms (or_introl eq_refl)) as (m0 & rest & i & -> & G).
    assert (Hgs : forall nm' ms', In (nm', ms') gs ->
              exists m0' rest' i', ms' = m0' :: rest'
                                   /\ dget String.eqb m0' devices = Some i')
      by (intros nm' ms' H; apply (Hg nm'); now right).
    cbn [UmnEc2Simple.device_loop].
    pose proof (simple_color_total root_az root_dc devices nm m0 rest i G)
      as C.
    destruct (UmnEc2Simple.determine_device_color root_az root_dc devices nm
                (m0 :: rest)) as [color|]; [|congruence].
    rewrite G. cbn zeta.
    set (c := Vertex cell_id _ _ _ _ 200 60).
    destruct (2500 <? 100 + 250 * col + 250)%Z eqn:T.
    + apply Z.ltb_lt in T. assert (col = 9)%Z by lia. subst col.
      destruct (IH Hgs (row + 1)%Z 0%Z (cell_id + 1)%Z (out ++ [c])%list)
        as (cells & E & L & R & P); [lia|].
      exists (c :: cells).
      replace (100 + 150 * row + 150)%Z with (100 + 150 * (row + 1))%Z by lia.
      change 100%Z with (100 + 250 * 0)%Z at 1.
      rewrite E, <- app_assoc. split; [reflexivity|].
      split; [cbn; now rewrite L|]. split; [exact R|].
      intros [|j] nm' ms'; cbn [nth_error].
      * intros D. inversion D; subst nm' ms'. eexists _, _.
        unfold c. rewrite !Z.add_0_r. reflexivity.
      * intros D. destruct (P j nm' ms' D) as (rest' & style & N).
        exists rest', style. rewrite N, !Z.add_0_l.
        replace (9 + Z.of_nat (S j))%Z with (Z.of_nat j + 1 * 10)%Z by lia.
        rewrite Z.mod_add, Z.div_add by lia.
        replace (cell_id + 1 + Z.of_nat j)%Z
          with (cell_id + Z.of_nat (S j))%Z by lia.
        now replace (row + 1 + Z.of_nat j / 10)%Z
          with (row + (Z.of_nat j / 10 + 1))%Z by lia.
    + apply Z.ltb_ge in T.
      destruct (IH Hgs row (col + 1)%Z (cell_id + 1)%Z (out ++ [c])%list)
        as (cells & E & L & R & P); [lia|].
      exists (c :: cells).
      replace (100 + 250 * col + 250)%Z with (100 + 250 * (col + 1))%Z by lia.
      rewrite E, <- app_assoc. split; [reflexivity|].
      split; [cbn; now rewrite L|]. split; [exact R|].
      intros [|j] nm' ms'; cbn [nth_error].
      * intros D. inversion D; subst nm' ms'. eexists _, _.
        unfold c. rewrite !Z.add_0_r, Z.mod_small, Z.div_small by lia.
        rewrite Z.add_0_r. reflexivity.
      * intros D. destruct (P j nm' ms' D) as (rest' & style & N).
        exists rest', style. rewrite N.
        replace (col + Z.of_nat (S j))%Z with (col + 1 + Z.of_nat j)%Z by lia.
        now replace (cell_id + 1 + Z.of_nat j)%Z
          with (cell_id + Z.of_nat (S j))%Z by lia.
Qed.

(** X19.  The simple UMN-EC2 generator raises for a site that does not
    begin with a zone and a data centre, and for every other site
    returns a document for every brick.  The document holds shapes
    only, never a connector: one shape of 200 by 60 per display group,
    in the order of the groups, with identifiers from 2 on, placed row
    by row in ten columns 250 apart, the rows 150 apart, from
    (100, 100). *)
Theorem simple_run_shapes_only (site : string)
    (device_details : sdict UmnEc2Complete.details) :
  exists grouped,
    UmnEc2Complete.group_devices
      (map fst (UmnEc2Complete.parse_devices device_details))
    = Some grouped
    /\ match UmnEc2.init site with
       | None => UmnEc2Simple.run site device_details = None
       | Some _ =>
           exists doc,
             UmnEc2Simple.run site device_details = Some doc
             /\ connector_refs doc = []
             /\ List.length doc = List.length grouped
             /\ forall j nm ms,
                  nth_error grouped j = Some (nm, ms) ->
                  exists rest style,
                    nth_error doc j
                    = Some (Vertex (2 + Z.of_nat j)
                              ("<b>" ++ nm ++ "</b><br/><i>" ++ rest)%string
                              style
                              (100 + 250 * (Z.of_nat j mod 10))
                              (100 + 150 * (Z.of_nat j / 10)) 200 60)
       end.
Proof.
  unfold UmnEc2Simple.run.
  set (devices := UmnEc2Complete.parse_devices device_details).
  destruct (complete_group_devices_total (map fst devices))
    as (grouped & Hg & Hne).
  exists grouped. split; [assumption|].
  destruct (UmnEc2.init site) as [[root_az root_dc]|]; [|reflexivity].
  rewrite Hg. unfold UmnEc2Simple.generate_drawio_xml.
  destruct (simple_device_loop_spec root_az root_dc devices grouped)
    with (row := 0%Z) (col := 0%Z) (cell_id := 2%Z) (out := @nil cell)
    as (cells & E & L & R & P); [|lia|].
  - intros nm ms Hin. pose proof (Hne nm ms Hin) as N.
    destruct ms as [|m0 rest]; [congruence|].
    assert (Hm : In m0 (map fst devices))
      by (apply (complete_group_members_listed _ _ Hg nm (m0 :: rest) Hin);
          now left).
    apply (dmem_In String.eqb String.eqb_eq) in Hm. unfold dmem in Hm.
    destruct (dget String.eqb m0 devices) as [i|] eqn:G; [|discriminate].
    now exists m0, rest, i.
  - exists cells. cbn [app] in E. split; [exact E|].
    split; [assumption|]. split; [assumption|].
    intros j nm ms D. destruct (P j nm ms D) as (rest & style & N).
    exists rest, style. now rewrite N.
Qed.

(** ** The topology that the console generator extracts *)

Lemma dupd_In {V : Type} (k k' : string) (f : option V -> V) (v' : V)
    (d : sdict V) :
  In (k', v') (dupd String.eqb k f d) ->
  In (k', v') d \/ v' = f (dget String.eqb k d).
Proof.
  induction d as [|[k0 v0] d IH]; cbn.
  - intros [H|[]]. inversion H. now right.
  - destruct (String.eqb k k0); cbn.
    + intros [H|H]; [inversion H; now right|left; now right].
    + intros [H|H]; [left; now left|].
      destruct (IH H); [left; now right|now right].
Qed.

Lemma groups_of_dextend (P : string -> Prop) (k : string)
    (devices : list string) (acc : sdict (list string)) :
  groups_of P acc -> devices <> [] -> (forall d, In d devices -> P d) ->
  groups_of P (dextend String.eqb k devices acc).
Proof.
  intros Ha Ne Hd k' ms H. apply dupd_In in H.
  destruct H as [H | ->]; [now apply (Ha k')|].
  destruct (dget String.eqb k acc) as [l|] eqn:G; [|now split].
  apply sdict_get_In in G. destruct (Ha _ _ G) as [_ Hl]. split.
  - destruct l; [assumption|discriminate].
  - intros d Hin. apply in_app_iff in Hin. destruct Hin; auto.
Qed.

Lemma groups_of_dset (P : string -> Prop) (k : string)
    (devices : list string) (acc : sdict (list string)) :
  groups_of P acc -> devices <> [] -> (forall d, In d devices -> P d) ->
  groups_of P (dset String.eqb k devices acc).
Proof.
  intros Ha Ne Hd k' ms H. apply dset_In in H.
  destruct H as [H | ->]; [now apply (Ha k')|now split].
Qed.

Lemma type_loop_groups (P : string -> Prop) (self_site : string)
    (groups : sdict (list string)) :
  groups_of P groups ->
  forall acc, groups_of P acc ->
              groups_of P (Console.type_loop self_site groups acc).
Proof.
  induction groups as [|[group_name devices] gs IH]; intros Hg acc Ha;
    [exact Ha|].
  cbn [Console.type_loop].
  destruct (Hg group_name devices (or_introl eq_refl)) as [Ne Hd].
  assert (Hgs : groups_of P gs)
    by (intros k ms H; apply (Hg k); now right).
  destruct (Console.device_type _ =? "es-c1")%string;
    [apply (IH Hgs); now apply groups_of_dextend|].
  destruct (Console.device_type _ =? "es-mgmt")%string;
    [apply (IH Hgs); now apply groups_of_dextend|].
  apply (IH Hgs). now apply groups_of_dset.
Qed.

Lemma inter_type_loop_groups (P : string -> Prop) (self_site : string)
    (groups : sdict (list string)) :
  groups_of P groups ->
  forall acc, groups_of P acc ->
              groups_of P (Console.inter_type_loop self_site groups acc).
Proof.
  induction groups as [|[group_name devices] gs IH]; intros Hg acc Ha;
    [exact Ha|].
  cbn [Console.inter_type_loop].
  destruct (Hg group_name devices (or_introl eq_refl)) as [Ne Hd].
  assert (Hgs : groups_of P gs)
    by (intros k ms H; apply (Hg k); now right).
  destruct (Console.device_type _ =? "es-c1")%string;
    [apply (IH Hgs); now apply groups_of_dextend|].
  destruct (Console.device_type _ =? "es-mgmt")%string;
    [apply (IH Hgs); now apply groups_of_dextend|].
  apply (IH Hgs). now apply groups_of_dset.
Qed.

Lemma console_group_devices_of (devices : list string) :
  groups_of (fun d => In d devices) (Console.group_devices devices).
Proof.
  unfold Console.group_devices. rewrite console_group_loop_append.
  destruct (append_loop_groups Console.strip_r12 (fun d => d)
              (PyStr.sorted devices)) as (_ & He & _).
  intros b ms H. destruct (He b ms H) as [E Ne]. split; [assumption|].
  intros d Hd. rewrite E in Hd. unfold bucket in Hd. rewrite map_id in Hd.
  apply filter_In in Hd. destruct Hd as [Hd _]. now apply In_sort in Hd.
Qed.

Lemma console_iface_loop_spec (device : string)
    (interfaces : list (string * iface)) :
  forall all_devices connections,
    let r := Console.iface_loop device interfaces all_devices connections in
    (forall d, In d (fst r)
               <-> In d all_devices
                   \/ exists s, In (s, d) (raw_edges_of interfaces device))
    /\ map cconn_ends (snd r)
       = (map cconn_ends connections ++ raw_edges_of interfaces device)%list.
Proof.
  induction interfaces as [|[ifname details] rest IH];
    intros all_devices connections; cbn zeta.
  - cbn. rewrite app_nil_r. split; [|reflexivity].
    intros d. split; [now left|]. intros [H|(s & [])]. assumption.
  - cbn [Console.iface_loop raw_edges_of flat_map snd].
    fold (raw_edges_of rest device).
    destruct (remote_device details) as [t|].
    2:{ cbn [truthy]. cbn [app]. apply IH. }
    destruct (truthy (Some t)); [|cbn [app]; apply IH].
    match goal with
    | |- context [Console.iface_loop device rest ?a ?c] =>
        destruct (IH a c) as [I1 I2]
    end.
    cbn zeta in I1, I2. split.
    + intros d. rewrite I1, set_add_In. cbn [app In]. split.
      * intros [[->|H]|(s & H)].
        -- right. exists device. now left.
        -- now left.
        -- right. exists s. now right.
      * intros [H|(s & [H|H])].
        -- left. now right.
        -- inversion H; subst. left. now left.
        -- right. now exists s.
    + rewrite I2, map_app. cbn. now rewrite <- app_assoc.
Qed.

Lemma console_node_loop_spec
    (nodes : list (string * list (string * iface))) :
  forall all_devices connections,
    let r := Console.node_loop nodes all_devices connections in
    (forall d, In d (fst r)
               <-> In d all_devices \/ named nodes d)
    /\ map cconn_ends (snd r)
       = (map cconn_ends connections ++ raw_edges nodes)%list.
Proof.
  unfold named.
  induction nodes as [|[device interfaces] rest IH];
    intros all_devices connections; cbn zeta.
  - cbn. rewrite app_nil_r. split; [|reflexivity].
    intros d. split; [now left|]. intros [H|[[]|(s & [])]]. assumption.
  - cbn [Console.node_loop raw_edges flat_map fst snd map].
    fold (raw_edges rest).
    pose proof (console_iface_loop_spec device interfaces
                  (set_add device all_devices) connections) as S.
    cbn zeta in S.
    destruct (Console.iface_loop device interfaces
                (set_add device all_devices) connections) as [ad cs].
    cbn [fst snd] in S. destruct S as [S1 S2].
    destruct (IH ad cs) as [I1 I2]. cbn zeta in I1, I2. split.
    + intros d. rewrite I1, S1, set_add_In. cbn [In]. split.
      * intros [[[->|H]|(s & H)]|[H|(s & H)]].
        -- right. left. now left.
        -- now left.
        -- right. right. exists s. apply in_app_iff. now left.
        -- right. left. now right.
        -- right. right. exists s. apply in_app_iff. now right.
      * intros [H|[[<-|H]|(s & H)]].
        -- left. left. now right.
        -- left. left. now left.
        -- right. now left.
        -- apply in_app_iff in H. destruct H as [H|H].
           ++ left. right. now exists s.
           ++ right. right. now exists s.
    + rewrite I2, S2, <- app_assoc. reflexivity.
Qed.

(** X20.  The topology that the console generator extracts from a
    brick: the connections are the pairs (device, remote device) of the
    interfaces that carry a remote device, in the order of the brick;
    every group of the target site has a member, and its members are
    devices named by the brick whose names start with the site; every
    group of the other sites has a member, and its members are devices
    named by the brick whose names do not start with the site.  So no
    node mixes devices of the target site with others. *)
Theorem console_topology_sides (self_site : string) (brick_data : brick) :
  let t := Console.extract_topology_data self_site brick_data in
  let nodes := NODES_AND_INTERFACES brick_data in
  map cconn_ends (Console.connections t) = raw_edges nodes
  /\ groups_of (fun d => named nodes d /\ startswith d self_site = true)
       (Console.type_groups t)
  /\ groups_of (fun d => named nodes d /\ startswith d self_site = false)
       (Console.inter_groups t).
Proof.
  cbn zeta. unfold Console.extract_topology_data.
  pose proof (console_node_loop_spec (NODES_AND_INTERFACES brick_data) [] [])
    as S.
  cbn zeta in S.
  destruct (Console.node_loop (NODES_AND_INTERFACES brick_data) [] [])
    as [all_devices connections].
  cbn [fst snd map app] in S. destruct S as [S1 S2].
  unfold Console.topology_of.
  cbn [Console.connections Console.type_groups Console.inter_groups].
  split; [exact S2|]. split.
  - apply type_loop_groups; [|intros k ms []].
    intros k ms H.
    destruct (console_group_devices_of _ k ms H) as [Ne Hd].
    split; [assumption|]. intros d Hin. apply Hd, filter_In in Hin.
    destruct Hin as [Hin St]. split; [|assumption].
    apply S1 in Hin. now destruct Hin as [[]|Hin].
  - apply inter_type_loop_groups; [|intros k ms []].
    intros k ms H.
    destruct (console_group_devices_of _ k ms H) as [Ne Hd].
    split; [assumption|]. intros d Hin. apply Hd, filter_In in Hin.
    destruct Hin as [Hin St]. split; [|now apply negb_true_iff in St].
    apply S1 in Hin. now destruct Hin as [[]|Hin].
Qed.

(** ** The connectors of the console diagram *)




